(** * HLS CDN proxy: cache keys, retries, coalescing and response assembly

    A shallow embedding of the Cloudflare Pages middleware variants of this
    repository:

    - [Middleware]     : src/functions/_middleware.js (retrying variant),
    - [QueryIgnoring]  : src/unnamed/part_000 (v4, query-string-ignoring keys),
    - [Coalescing]     : src/examples/performance-test.js, lines 449-689
                         (the variant with the in-flight request map).

    The platform objects the handlers use (URL, Headers, Request, Response,
    the cache and the origin) are modelled in the first part of the file. *)

From Stdlib Require Import Ascii String.
From stdpp Require Import base strings gmap list pretty.


(** ** Strings *)

(** The double-quote character, for text that embeds quotes. *)
Definition dquote : string := String "034"%char EmptyString.

(** [String.prototype.endsWith]. *)
Definition endsWith (s suffix : string) : bool :=
  let n := String.length s in
  let m := String.length suffix in
  (m <=? n) && String.eqb (String.substring (n - m) m s) suffix.

Definition lower_ascii (c : ascii) : ascii :=
  let n := nat_of_ascii c in
  if (65 <=? n) && (n <=? 90) then ascii_of_nat (n + 32) else c.

(** [String.prototype.toLowerCase] on byte strings (ASCII letters). *)
Fixpoint toLowerCase (s : string) : string :=
  match s with
  | EmptyString => EmptyString
  | String c s' => String (lower_ascii c) (toLowerCase s')
  end.

(** Truthiness of a JS string ([null] is [None]): non-null and non-empty. *)
Definition truthy (o : option string) : bool :=
  match o with
  | Some s => negb (String.eqb s "")
  | None => false
  end.

(** [a || b] on nullable strings. *)
Definition js_or (a b : option string) : option string :=
  if truthy a then a else b.

Definition hex_digit (n : nat) : ascii :=
  match n with
  | 0 => "0" | 1 => "1" | 2 => "2" | 3 => "3" | 4 => "4" | 5 => "5"
  | 6 => "6" | 7 => "7" | 8 => "8" | 9 => "9" | 10 => "a" | 11 => "b"
  | 12 => "c" | 13 => "d" | 14 => "e" | _ => "f"
  end%char.

(** How [JSON.stringify] writes one character of a string. *)
Definition json_escape_ascii (c : ascii) : string :=
  let n := nat_of_ascii c in
  if n =? 34 then "\" +:+ dquote
  else if n =? 92 then "\\"
  else if n =? 8 then "\b"
  else if n =? 9 then "\t"
  else if n =? 10 then "\n"
  else if n =? 12 then "\f"
  else if n =? 13 then "\r"
  else if n <? 32
       then "\u00" +:+ String (hex_digit (n / 16)) (String (hex_digit (n mod 16)) "")
       else String c "".

Fixpoint json_escape (s : string) : string :=
  match s with
  | EmptyString => EmptyString
  | String c s' => json_escape_ascii c +:+ json_escape s'
  end.

Definition json_string (s : string) : string :=
  dquote +:+ json_escape s +:+ dquote.

(** [JSON.stringify] of an object whose values are strings. *)
Definition JSON_stringify (o : list (string * string)) : string :=
  "{" +:+
  String.concat "," (map (fun kv => json_string kv.1 +:+ ":" +:+ json_string kv.2) o)
  +:+ "}".

(** ** Headers

    A [Headers] object maps case-insensitive names to values; names are
    stored in lower case. *)

Abbreviation Headers := (gmap string string).

Definition hget (name : string) (h : Headers) : option string :=
  h !! toLowerCase name.

Definition hhas (name : string) (h : Headers) : bool :=
  bool_decide (is_Some (h !! toLowerCase name)).

Definition hset (name value : string) (h : Headers) : Headers :=
  <[toLowerCase name := value]> h.

Definition hdelete (name : string) (h : Headers) : Headers :=
  delete (toLowerCase name) h.

(** [forEach] over a list of names deleting each of them. *)
Definition hdelete_all (names : list string) (h : Headers) : Headers :=
  foldl (fun acc n => hdelete n acc) h names.

(** [Object.keys(o).forEach(key => h.set(key, o[key]))]. *)
Definition hset_all (o : list (string * string)) (h : Headers) : Headers :=
  foldl (fun acc kv => hset kv.1 kv.2 acc) h o.

(** [new Headers(o)] for an object literal [o]. *)
Definition headers_of (o : list (string * string)) : Headers :=
  hset_all o ∅.

(** ** URL

    A parsed [URL]: [origin] is scheme and authority, [query] is [None] when
    the URL has no [?].  Fragments never reach a server and are left out. *)

Record URL := mkURL {
  origin : string;
  pathname : string;
  query : option string
}.

(** [url.search]: empty when the query is absent or empty. *)
Definition search (u : URL) : string :=
  match query u with
  | Some q => if String.eqb q "" then "" else "?" +:+ q
  | None => ""
  end.

(** [url.toString()]. *)
Definition href (u : URL) : string :=
  origin u +:+ pathname u +:+
  match query u with
  | Some q => "?" +:+ q
  | None => ""
  end.

(** [url.search = '']: the query becomes null. *)
Definition clear_search (u : URL) : URL :=
  {| origin := origin u; pathname := pathname u; query := None |}.

(** ** Requests, responses, errors *)

Record Request := mkRequest {
  method : string;
  url : URL;
  headers : Headers
}.

(** Two requests that are the same but for their Range header. *)
Definition differ_only_in_range (r1 r2 : Request) : Prop :=
  method r1 = method r2 /\ url r1 = url r2 /\
  hdelete "Range" (headers r1) = hdelete "Range" (headers r2).

(** The [Request] object handed to [cache.match] and [cache.put]. *)
Record KeyRequest := mkKey {
  kurl : string;
  kmethod : string;
  kheaders : Headers
}.

(** The [cf] options of a subrequest. *)
Record CfOptions := mkCf {
  cacheTtl : N;
  cacheEverything : bool;
  polish : option string;
  minify : option (bool * bool * bool)
}.

(** A subrequest to the origin: [fetch(furl, { method, headers, cf })]. *)
Record FetchInit := mkFetch {
  furl : string;
  fmethod : string;
  fheaders : Headers;
  fcf : CfOptions
}.

(** A response whose body (when not null) is of type [B]. *)
Record Response (B : Type) := mkResponse {
  status : nat;
  statusText : string;
  rheaders : Headers;
  body : option B
}.
Arguments mkResponse {B}.
Arguments status {B}.
Arguments statusText {B}.
Arguments rheaders {B}.
Arguments body {B}.

(** [response.ok]. *)
Definition ok {B} (r : Response B) : bool :=
  (200 <=? status r) && (status r <=? 299).

(** [new Response(text, { status, headers })]: a string body gets the
    default content type unless one is given. *)
Definition text_response {B} (inj : string -> B) (text : string) (st : nat)
    (h : Headers) : Response B :=
  {| status := st; statusText := "";
     rheaders := if hhas "Content-Type" h then h
                 else hset "Content-Type" "text/plain;charset=UTF-8" h;
     body := Some (inj text) |}.

Record JsError := mkError { message : string }.

(** A thrown value: [lastError] is [undefined] until it is assigned. *)
Inductive Thrown :=
| Undefined
| Err (e : JsError).

(** How a promise settles. *)
Inductive Settled (A : Type) :=
| Fulfilled (a : A)
| Rejected (e : JsError).
Arguments Fulfilled {A}.
Arguments Rejected {A}.

(** A result of running handler code: a value or a thrown exception. *)
Inductive Result (A : Type) :=
| Ok (a : A)
| Throw (t : Thrown).
Arguments Ok {A}.
Arguments Throw {A}.

(** ** Effects of the stateless variants

    Bodies are their content: [tee()] yields two streams with that content.
    What a handler does to the outside world is recorded in a trace. *)

Abbreviation Resp := (Response string).

Inductive Event :=
| EvCacheMatch (key : KeyRequest)
| EvFetch (init : FetchInit)
| EvSleep (ms : nat)
| EvWaitUntil (puts : list (KeyRequest * Resp)).

(** The collaborators: the cache answers a lookup, the origin answers the
    [k]-th subrequest of this handler run. *)
Record Env := mkEnv {
  cache_match : KeyRequest -> Settled (option Resp);
  origin_fetch : nat -> FetchInit -> Settled Resp
}.

Definition is_fetch (e : Event) : bool :=
  match e with EvFetch _ => true | _ => false end.

(** Number of subrequests sent so far. *)
Definition fetches (tr : list Event) : nat := length (filter is_fetch tr).

(** The delays slept so far, in order. *)
Fixpoint sleeps (tr : list Event) : list nat :=
  match tr with
  | [] => []
  | EvSleep ms :: tr' => ms :: sleeps tr'
  | _ :: tr' => sleeps tr'
  end.

(** The cache writes handed to [waitUntil] so far. *)
Fixpoint cache_puts (tr : list Event) : list (KeyRequest * Resp) :=
  match tr with
  | [] => []
  | EvWaitUntil ps :: tr' => ps ++ cache_puts tr'
  | _ :: tr' => cache_puts tr'
  end.

(** Handler code over a state [S]: it updates the state and returns or
    throws. *)
Definition Prog (S A : Type) : Type := S -> Result A * S.

Definition ret {S A} (a : A) : Prog S A := fun s => (Ok a, s).

Definition throw {S A} (t : Thrown) : Prog S A := fun s => (Throw t, s).

Definition bind {S A B} (m : Prog S A) (k : A -> Prog S B) : Prog S B :=
  fun s =>
    match m s with
    | (Ok a, s') => k a s'
    | (Throw t, s') => (Throw t, s')
    end.

(** [try { m } catch (err) { h err }]. *)
Definition try_catch {S A} (m : Prog S A) (h : Thrown -> Prog S A) : Prog S A :=
  fun s =>
    match m s with
    | (Ok a, s') => (Ok a, s')
    | (Throw t, s') => h t s'
    end.

Notation "x <- m ;; k" := (bind m (fun x => k))
  (at level 100, m at next level, right associativity).
Notation "m ;;; k" := (bind m (fun _ => k))
  (at level 100, right associativity).

(** [await p] for a promise that settles as [s]. *)
Definition await {S A} (s : Settled A) : Prog S A :=
  match s with
  | Fulfilled a => ret a
  | Rejected e => throw (Err e)
  end.

(** The stateless variants extend the trace. *)
Abbreviation M := (Prog (list Event)).

(** [await cache.match(key)]. *)
Definition cacheMatch (env : Env) (key : KeyRequest) : M (option Resp) :=
  fun tr => await (cache_match env key) (tr ++ [EvCacheMatch key]).

(** [await fetch(url, init)]. *)
Definition fetch (env : Env) (init : FetchInit) : M Resp :=
  fun tr => await (origin_fetch env (fetches tr) init) (tr ++ [EvFetch init]).

(** [await new Promise(resolve => setTimeout(resolve, ms))]. *)
Definition sleep (ms : nat) : M unit :=
  fun tr => (Ok tt, tr ++ [EvSleep ms]).

(** [waitUntil(p)] where running [p] performs the cache writes [puts]. *)
Definition waitUntil (puts : list (KeyRequest * Resp)) : M unit :=
  fun tr => (Ok tt, tr ++ [EvWaitUntil puts]).

(** ** src/functions/_middleware.js *)

Module Middleware.

Definition ORIGIN_URL : string := "https://webr00t.global.ssl.fastly.net".
Definition MAX_RETRIES : nat := 3.

Definition cfOptions : CfOptions :=
  {| cacheTtl := 31536000%N; cacheEverything := true; polish := None;
     minify := Some (false, false, false) |}.

(** The clean header set sent to the origin. *)
Definition originHeaders (originalRequest : Request) : Headers :=
  let h := ∅ in
  let h := match hget "Range" (headers originalRequest) with
           | Some v => hset "Range" v h
           | None => h
           end in
  hset "User-Agent" "Cloudflare-Pages-CDN" h.

Definition originInit (path : string) (originalRequest : Request) : FetchInit :=
  {| furl := ORIGIN_URL +:+ path;
     fmethod := method originalRequest;
     fheaders := originHeaders originalRequest;
     fcf := cfOptions |}.

(** The loop [for (let i = ...; i < MAX_RETRIES; i++)] with [n] iterations
    left. *)
Fixpoint retry_loop (env : Env) (init : FetchInit) (n i : nat)
    (lastError : Thrown) : M Resp :=
  match n with
  | 0 => throw lastError
  | S n' =>
      try_catch
        (res <- fetch env init ;;
         if 500 <=? status res
         then throw (Err (mkError ("Origin status " +:+ pretty (status res))))
         else ret res)
        (fun err =>
           sleep (100 * 2 ^ i) ;;;
           retry_loop env init n' (S i) err)
  end.

Definition fetchWithRetry (env : Env) (path : string)
    (originalRequest : Request) : M Resp :=
  retry_loop env (originInit path originalRequest) MAX_RETRIES 0 Undefined.

(** Whether an attempt whose fetch settled as [o] ends in the [catch] block:
    the fetch was rejected, or the status is 500 or more. *)
Definition retried (o : Settled Resp) : bool :=
  match o with
  | Fulfilled res => 500 <=? status res
  | Rejected _ => true
  end.

(** The error the [catch] block stores in [lastError] for that attempt. *)
Definition attempt_error (o : Settled Resp) : Thrown :=
  match o with
  | Fulfilled res => Err (mkError ("Origin status " +:+ pretty (status res)))
  | Rejected e => Err e
  end.

(** A 5xx response or a network-level failure. *)
Definition transient_failure (o : Settled Resp) : Prop :=
  match o with
  | Fulfilled res => 500 <= status res <= 599
  | Rejected _ => True
  end.

(** The events of [n] failed attempts numbered from [i]: each one is a
    subrequest followed by a sleep of 100 * 2^j ms. *)
Definition failed_rounds (init : FetchInit) (i n : nat) : list Event :=
  flat_map (fun j => [EvFetch init; EvSleep (100 * 2 ^ j)]) (seq i n).

(** [new Request(cacheKeyUrl.toString(), request)]: the URL of the request,
    with the method and the headers copied from [request]. *)
Definition cacheKey (request : Request) : KeyRequest :=
  {| kurl := href (url request);
     kmethod := method request;
     kheaders := headers request |}.

(** The headers of a response built from the origin's. *)
Definition responseHeaders (u : URL) (originResponse : Resp) : Headers :=
  let h := rheaders originResponse in
  let h := hdelete "set-cookie" h in
  let h := hdelete "server" h in
  let h := hdelete "via" h in
  let h := hset "Cache-Control" "public, max-age=300, s-maxage=31536000" h in
  let h := hset "Access-Control-Allow-Origin" "*" h in
  let h := hset "Content-Type" "image/jpeg" h in
  let h :=
    if negb (hhas "ETag" h)
    then
      let contentLen := default "0" (js_or (hget "content-length" h) None) in
      hset "ETag" (dquote +:+ pathname u +:+ "-" +:+ contentLen +:+ dquote) h
    else h in
  hset "CF-Cache-Status" "MISS" h.

Definition onRequest (env : Env) (request : Request) : M Resp :=
  let u := url request in
  if negb (String.eqb (method request) "GET")
     && negb (String.eqb (method request) "HEAD")
  then ret (text_response id "Method Not Allowed" 405 ∅)
  else if String.eqb (pathname u) "/health" || String.eqb (pathname u) "/"
  then ret (text_response id "OK" 200 ∅)
  else
    let lpath := toLowerCase (pathname u) in
    if negb (endsWith lpath ".jpg") && negb (endsWith lpath ".jpeg")
    then ret (text_response id "Forbidden Extension" 403 ∅)
    else
      let referer :=
        js_or (hget "referer" (headers request))
              (hget "referrer" (headers request)) in
      if negb (truthy referer)
      then ret (text_response id "Referer Required" 403 ∅)
      else
        try_catch
          (let key := cacheKey request in
           response <- cacheMatch env key ;;
           match response with
           | Some response =>
               (* newHeaders gets CF-Cache-Status: HIT, then [response]
                  itself is returned *)
               let newHeaders := hset "CF-Cache-Status" "HIT" (rheaders response) in
               ret response
           | None =>
               originResponse <- fetchWithRetry env (pathname u +:+ search u) request ;;
               if negb (ok originResponse) then ret originResponse
               else
                 let rh := responseHeaders u originResponse in
                 match body originResponse with
                 | None =>
                     ret {| status := status originResponse; statusText := "";
                            rheaders := rh; body := None |}
                 | Some responseBody =>
                     let clientStream := responseBody in
                     let cacheStream := responseBody in
                     let clientResponse :=
                       {| status := status originResponse;
                          statusText := statusText originResponse;
                          rheaders := rh; body := Some clientStream |} in
                     (if status originResponse =? 200
                      then waitUntil
                             [(key, {| status := status originResponse;
                                       statusText := statusText originResponse;
                                       rheaders := rh;
                                       body := Some cacheStream |})]
                      else ret tt) ;;;
                     ret clientResponse
                 end
           end)
          (fun err =>
             match err with
             | Err e => ret (text_response id ("Proxy Error: " +:+ message e) 502 ∅)
             | Undefined =>
                 throw (Err (mkError "Cannot read properties of undefined"))
             end).

End Middleware.

(** ** src/unnamed/part_000 (v4) *)

Module QueryIgnoring.

Definition ORIGIN_URL : string := "https://webr00t.global.ssl.fastly.net".
Definition STABLE_USER_AGENT : string :=
  "Mozilla/5.0 (Windows NT 10.0; Win64; x64) AppleWebKit/537.36 (KHTML, like Gecko) Chrome/124.0.0.0 Safari/537.36".

Definition corsHeaders : list (string * string) :=
  [ ("Access-Control-Allow-Origin", "*");
    ("Access-Control-Allow-Methods", "GET, HEAD, OPTIONS");
    ("Access-Control-Allow-Headers", "*");
    ("Access-Control-Expose-Headers", "*");
    ("Access-Control-Max-Age", "86400") ].

Definition isPlaylist (u : URL) : bool := endsWith (pathname u) ".m3u8".

(** Two seconds for playlists, one year for segments. *)
Definition cacheTtlOf (u : URL) : N :=
  if isPlaylist u then 2%N else 31536000%N.

(** The cache key: the query string is cleared unless the path is a
    playlist; the method is GET and there are no headers. *)
Definition cacheKey (request : Request) : KeyRequest :=
  let u := url request in
  let cacheKeyUrl := if negb (isPlaylist u) then clear_search u else u in
  {| kurl := href cacheKeyUrl; kmethod := "GET"; kheaders := ∅ |}.

Definition originInit (request : Request) : FetchInit :=
  let u := url request in
  let h := hset "User-Agent" STABLE_USER_AGENT ∅ in
  let h := hset "Referer" ORIGIN_URL h in
  let h := hset "Connection" "keep-alive" h in
  let h := if truthy (hget "range" (headers request))
           then hset "Range" (default "" (hget "range" (headers request))) h
           else h in
  {| furl := ORIGIN_URL +:+ pathname u +:+ search u;
     fmethod := method request;
     fheaders := h;
     fcf := {| cacheTtl := cacheTtlOf u; cacheEverything := true;
               polish := None; minify := None |} |}.

Definition responseHeaders (u : URL) (originResponse : Resp) : Headers :=
  let h := rheaders originResponse in
  let h := hdelete_all
             ["set-cookie"; "via"; "server"; "x-powered-by";
              "cf-cache-status"; "cf-ray"; "age"] h in
  let h := hset_all corsHeaders h in
  hset "Cache-Control"
       ("public, max-age=" +:+ pretty (cacheTtlOf u) +:+
        (if isPlaylist u then ", must-revalidate" else ", immutable")) h.

(** The response served on a cache hit. *)
Definition hitResponse (response : Resp) : Resp :=
  let newHeaders := hset "CF-Cache-Status" "HIT" (rheaders response) in
  let newHeaders := hset "X-Simulated-Users" "50k-Ready" newHeaders in
  let newHeaders := hset_all corsHeaders newHeaders in
  {| status := status response; statusText := statusText response;
     rheaders := newHeaders; body := body response |}.

Definition errorResponse (e : JsError) : Resp :=
  text_response id
    (JSON_stringify [("error", "Proxy Error"); ("detail", message e)])
    500 (headers_of corsHeaders).

Definition onRequest (env : Env) (request : Request) : M Resp :=
  let u := url request in
  if String.eqb (method request) "OPTIONS"
  then ret {| status := 204; statusText := "";
              rheaders := headers_of corsHeaders; body := None |}
  else if negb (bool_decide (method request ∈ ["GET"; "HEAD"]))
  then ret (text_response id "Method Not Allowed" 405 (headers_of corsHeaders))
  else
    try_catch
      (let key := cacheKey request in
       response <- cacheMatch env key ;;
       match response with
       | Some response => ret (hitResponse response)
       | None =>
           originResponse <- fetch env (originInit request) ;;
           let rh := responseHeaders u originResponse in
           if negb (ok originResponse)
           then ret {| status := status originResponse; statusText := "";
                       rheaders := rh; body := body originResponse |}
           else
             match body originResponse with
             | None =>
                 ret {| status := 200; statusText := ""; rheaders := rh;
                        body := None |}
             | Some b =>
                 let clientStream := b in
                 let cacheStream := b in
                 waitUntil
                   (if status originResponse =? 200
                    then
                      let cacheHeaders :=
                        hset "Cache-Control"
                             ("public, max-age=" +:+ pretty (cacheTtlOf u)) rh in
                      [(key, {| status := status originResponse;
                                statusText := "";
                                rheaders := cacheHeaders;
                                body := Some cacheStream |})]
                    else []) ;;;
                 ret {| status := status originResponse; statusText := "";
                        rheaders := rh; body := Some clientStream |}
             end
       end)
      (fun err =>
         match err with
         | Err e => ret (errorResponse e)
         | Undefined =>
             throw (Err (mkError "Cannot read properties of undefined"))
         end).

End QueryIgnoring.

(** ** src/examples/performance-test.js, lines 449-689: request coalescing

    This variant keeps a process-wide map of in-flight origin fetches.  Its
    handlers interleave at their [await]s, so a handler is cut into the
    pieces between them, and a scheduler step runs one piece.  Response
    bodies are streams in a shared store: a stream can be read by one
    consumer, [tee]/[clone] lock it, and [new Response(stream)] refuses a
    locked stream (Fetch standard, "extract a body"). *)

Module Coalescing.

Definition ORIGIN_URL : string := "https://w0rk3rsb4ckd00r.global.ssl.fastly.net".
Definition CACHE_DURATION_browser : N := 300.
Definition CACHE_DURATION_edge : N := 86400 * 365.
Definition CACHE_DURATION_staleWhileRevalidate : N := 86400 * 7.

Record Stream := mkStream { data : string; locked : bool }.

(** A response whose body is a reference into the stream store. *)
Abbreviation SResp := (Response nat).

(** The promise of one async fetch: the key its [finally] block deletes and
    how it has settled, if it has. *)
Record Promise := mkPromise {
  pkey : string;
  pstate : option (Settled SResp)
}.

(** A reading of [Date.now()] and [new Date().toUTCString()]. *)
Record Clock := mkClock { now_ms : N; now_utc : string }.

(** Where a handler run stands. *)
Inductive Task :=
| AwaitingCache (request : Request)
| AwaitingInflight (request : Request) (p : nat)
| Finished (response : SResp)
| Failed (t : Thrown).

Record World := mkWorld {
  inflightRequests : gmap string nat;
  promises : list Promise;
  streams : list Stream;
  origin_calls : list (string * FetchInit);
  background_puts : list (KeyRequest * SResp);
  tasks : list Task
}.

Definition initial : World :=
  {| inflightRequests := ∅; promises := []; streams := []; origin_calls := [];
     background_puts := []; tasks := [] |}.

Definition set_streams (ss : list Stream) (w : World) : World :=
  {| inflightRequests := inflightRequests w; promises := promises w;
     streams := ss; origin_calls := origin_calls w;
     background_puts := background_puts w; tasks := tasks w |}.

Definition set_tasks (ts : list Task) (w : World) : World :=
  {| inflightRequests := inflightRequests w; promises := promises w;
     streams := streams w; origin_calls := origin_calls w;
     background_puts := background_puts w; tasks := ts |}.

Abbreviation W := (Prog World).

(** A new stream carrying [text]. *)
Definition alloc (text : string) : W nat :=
  fun w => (Ok (length (streams w)),
            set_streams (streams w ++ [mkStream text false]) w).

Definition alloc_body (b : option string) : W (option nat) :=
  match b with
  | Some text => s <- alloc text ;; ret (Some s)
  | None => ret None
  end.

Definition locked_error : Thrown :=
  Err (mkError "This ReadableStream is currently locked to a reader.").

(** [new Response(stream, { status, statusText, headers })]. *)
Definition new_Response (b : option nat) (st : nat) (stText : string)
    (h : Headers) : W SResp :=
  fun w =>
    match b with
    | None => (Ok {| status := st; statusText := stText; rheaders := h;
                     body := None |}, w)
    | Some s =>
        match streams w !! s with
        | Some str =>
            if locked str then (Throw locked_error, w)
            else (Ok {| status := st; statusText := stText; rheaders := h;
                        body := Some s |}, w)
        | None => (Throw locked_error, w)
        end
    end.

(** [new Response(text, { status, headers })]. *)
Definition textResponse (text : string) (st : nat) (h : Headers) : W SResp :=
  s <- alloc text ;;
  ret (text_response (fun _ => s) text st h).

(** [r.clone()]: the body of [r] is teed; [r] keeps one branch and the copy
    gets the other, the stream they came from stays locked. *)
Definition clone (r : SResp) : W (SResp * SResp) :=
  match body r with
  | None => ret (r, r)
  | Some s =>
      fun w =>
        match streams w !! s with
        | Some str =>
            if locked str then (Throw locked_error, w)
            else
              let n := length (streams w) in
              let ss := <[s := mkStream (data str) true]> (streams w)
                        ++ [mkStream (data str) false; mkStream (data str) false] in
              (Ok ({| status := status r; statusText := statusText r;
                      rheaders := rheaders r; body := Some n |},
                   {| status := status r; statusText := statusText r;
                      rheaders := rheaders r; body := Some (S n) |}),
               set_streams ss w)
        | None => (Throw locked_error, w)
        end
  end.

(** [waitUntil(cache.put(key, r))]. *)
Definition waitUntil_put (key : KeyRequest) (r : SResp) : W unit :=
  fun w =>
    (Ok tt,
     {| inflightRequests := inflightRequests w; promises := promises w;
        streams := streams w; origin_calls := origin_calls w;
        background_puts := background_puts w ++ [(key, r)];
        tasks := tasks w |}).

Definition rangeHeader (request : Request) : option string :=
  hget "range" (headers request).

(** Cache key: URL + Range header. *)
Definition cacheKey (request : Request) : KeyRequest :=
  {| kurl := href (url request);
     kmethod := "GET";
     kheaders := if truthy (rangeHeader request)
                 then headers_of [("range", default "" (rangeHeader request))]
                 else ∅ |}.

(** The Range value that enters the keys: empty when the header is missing. *)
Definition rangeValue (request : Request) : string :=
  if truthy (rangeHeader request) then default "" (rangeHeader request) else "".

(** The key of the in-flight map. *)
Definition cacheKeyString (request : Request) : string :=
  kurl (cacheKey request) +:+ default "" (js_or (rangeHeader request) (Some "")).

Definition headersToProxy : list string :=
  ["accept"; "accept-encoding"; "user-agent"; "if-none-match";
   "if-modified-since"].

Definition originHeaders (request : Request) : Headers :=
  let h := if truthy (rangeHeader request)
           then hset "Range" (default "" (rangeHeader request)) ∅
           else ∅ in
  foldl (fun acc header =>
           let value := hget header (headers request) in
           if truthy value then hset header (default "" value) acc else acc)
        h headersToProxy.

Definition originInit (request : Request) : FetchInit :=
  {| furl := ORIGIN_URL +:+ pathname (url request) +:+ search (url request);
     fmethod := method request;
     fheaders := originHeaders request;
     fcf := {| cacheTtl := CACHE_DURATION_edge; cacheEverything := true;
               polish := Some "off"; minify := Some (false, false, false) |} |}.

(** The coalescing point: wait on the fetch registered under [k], or start
    one.  The async function runs up to its [await fetch(...)], so the
    subrequest is sent before the promise is stored in the map. *)
Definition join (k : string) (init : FetchInit) : W nat :=
  fun w =>
    match inflightRequests w !! k with
    | Some p => (Ok p, w)
    | None =>
        let p := length (promises w) in
        (Ok p,
         {| inflightRequests := <[k := p]> (inflightRequests w);
            promises := promises w ++ [mkPromise k None];
            streams := streams w;
            origin_calls := origin_calls w ++ [(k, init)];
            background_puts := background_puts w;
            tasks := tasks w |})
    end.

(** The fetch of promise [p] settles as [out]; the [finally] block removes
    the key from the map and the promise settles the same way. *)
Definition settle (p : nat) (out : Settled Resp) (w : World) : World :=
  match promises w !! p with
  | Some (mkPromise k None) =>
      let '(s, w1) :=
        match out with
        | Fulfilled r =>
            match body r with
            | Some text =>
                (Fulfilled {| status := status r; statusText := statusText r;
                              rheaders := rheaders r;
                              body := Some (length (streams w)) |},
                 set_streams (streams w ++ [mkStream text false]) w)
            | None =>
                (Fulfilled {| status := status r; statusText := statusText r;
                              rheaders := rheaders r; body := None |}, w)
            end
        | Rejected e => (Rejected e, w)
        end in
      {| inflightRequests := delete k (inflightRequests w1);
         promises := <[p := mkPromise k (Some s)]> (promises w1);
         streams := streams w1; origin_calls := origin_calls w1;
         background_puts := background_puts w1; tasks := tasks w1 |}
  | _ => w
  end.

Definition errorHeaders : Headers :=
  headers_of [("Content-Type", "text/plain"); ("X-Cache", "ERROR");
              ("Cache-Control", "no-store")].

Definition forbidden : W SResp :=
  textResponse "Forbidden" 403
    (headers_of [("Content-Type", "text/plain"); ("Cache-Control", "no-store")]).

(** The [catch (error)] block of the handler. *)
Definition onError (err : Thrown) : W Task :=
  match err with
  | Err e =>
      r <- textResponse ("CDN Error: " +:+ message e) 500 errorHeaders ;;
      ret (Finished r)
  | Undefined => throw (Err (mkError "Cannot read properties of undefined"))
  end.

(** Runs a piece of the handler inside its [try]. *)
Definition run_handler (m : W Task) (w : World) : Task * World :=
  match try_catch m onError w with
  | (Ok t, w') => (t, w')
  | (Throw t, w') => (Failed t, w')
  end.

(** From the start of the handler to [await cache.match(cacheKey)]. *)
Definition start (request : Request) : W Task :=
  let u := url request in
  if negb (String.eqb (method request) "GET")
     && negb (String.eqb (method request) "HEAD")
  then r <- textResponse "Method not allowed" 405 ∅ ;; ret (Finished r)
  else if String.eqb (pathname u) "/health" || String.eqb (pathname u) "/"
  then r <- textResponse "x" 200
              (headers_of [("Content-Type", "text/plain");
                           ("X-Powered-By", "Cloudflare-Pages-CDN")]) ;;
       ret (Finished r)
  else
    let lpath := toLowerCase (pathname u) in
    if negb (endsWith lpath ".jpg") && negb (endsWith lpath ".jpeg")
    then r <- forbidden ;; ret (Finished r)
    else
      let referer :=
        js_or (hget "referer" (headers request))
              (hget "referrer" (headers request)) in
      if negb (truthy referer)
      then r <- forbidden ;; ret (Finished r)
      else ret (AwaitingCache request).

(** From the answer of the cache to [await inflightPromise]. *)
Definition afterCache (request : Request) (ans : Settled (option Resp))
    : W Task :=
  response <- await ans ;;
  match response with
  | Some response =>
      b <- alloc_body (body response) ;;
      let h := hset "CF-Cache-Status" "HIT" (rheaders response) in
      r <- new_Response b (status response) (statusText response) h ;;
      ret (Finished r)
  | None =>
      p <- join (cacheKeyString request) (originInit request) ;;
      ret (AwaitingInflight request p)
  end.

(** The clean headers of a response built from the origin's. *)
Definition responseHeaders (now : Clock) (originResponse : SResp) : Headers :=
  let oh := rheaders originResponse in
  let h := ∅ in
  let h := if truthy (hget "content-length" oh)
           then hset "Content-Length" (default "" (hget "content-length" oh)) h
           else h in
  let h := if truthy (hget "content-range" oh)
           then hset "Content-Range" (default "" (hget "content-range" oh)) h
           else h in
  let h :=
    if (status originResponse =? 200) || (status originResponse =? 206)
    then
      let h := hset "Cache-Control"
                 ("public, max-age=" +:+ pretty CACHE_DURATION_browser
                  +:+ ", s-maxage=3600") h in
      let h := if truthy (hget "etag" oh)
               then hset "ETag" (default "" (hget "etag" oh)) h
               else hset "ETag" (dquote +:+ pretty (now_ms now) +:+ dquote) h in
      if truthy (hget "last-modified" oh)
      then hset "Last-Modified" (default "" (hget "last-modified" oh)) h
      else hset "Last-Modified" (now_utc now) h
    else h in
  let h := hset "Access-Control-Allow-Origin" "*" h in
  let h := hset "Access-Control-Allow-Methods" "GET, HEAD, OPTIONS" h in
  let h := hset "Access-Control-Max-Age" "86400" h in
  let h := hset "Accept-Ranges" "bytes" h in
  let h := hset "Content-Type" "image/jpeg" h in
  hset "CF-Cache-Status" "MISS" h.

(** From the settling of the awaited promise to the end of the handler. *)
Definition afterFetch (request : Request) (now : Clock)
    (s : Settled SResp) : W Task :=
  originResponse <- await s ;;
  if negb (ok originResponse) && negb (status originResponse =? 206)
     && negb (status originResponse =? 304)
  then
    r <- textResponse ("Origin Error: " +:+ pretty (status originResponse))
           (status originResponse) errorHeaders ;;
    ret (Finished r)
  else
    newResponse <- new_Response (body originResponse) (status originResponse)
                     (statusText originResponse)
                     (responseHeaders now originResponse) ;;
    if (status originResponse =? 200) || (status originResponse =? 206)
    then
      both <- clone newResponse ;;
      waitUntil_put (cacheKey request) both.2 ;;;
      ret (Finished both.1)
    else ret (Finished newResponse).

(** What the scheduler can do next. *)
Inductive Step :=
| Arrive (request : Request)
| CacheAnswers (t : nat) (ans : Settled (option Resp))
| OriginSettles (p : nat) (out : Settled Resp)
| Resume (t : nat) (now : Clock).

Definition step (w : World) (e : Step) : World :=
  match e with
  | Arrive request =>
      let '(tk, w') := run_handler (start request) w in
      set_tasks (tasks w' ++ [tk]) w'
  | CacheAnswers t ans =>
      match tasks w !! t with
      | Some (AwaitingCache request) =>
          let '(tk, w') := run_handler (afterCache request ans) w in
          set_tasks (<[t := tk]> (tasks w')) w'
      | _ => w
      end
  | OriginSettles p out => settle p out w
  | Resume t now =>
      match tasks w !! t with
      | Some (AwaitingInflight request p) =>
          match promises w !! p with
          | Some (mkPromise _ (Some s)) =>
              let '(tk, w') := run_handler (afterFetch request now s) w in
              set_tasks (<[t := tk]> (tasks w')) w'
          | _ => w
          end
      | _ => w
      end
  end.

Definition run (w : World) (es : list Step) : World := foldl step w es.

(** The worlds the handlers can produce. *)
Definition reachable (w : World) : Prop := exists es, w = run initial es.

(** Subrequests sent to the origin for the in-flight key [k]. *)
Definition calls_for (k : string) (w : World) : nat :=
  length (filter (fun c => bool_decide (c.1 = k)) (origin_calls w)).

(** Promise [p] is a fetch for the key [k] that has not settled yet. *)
Definition in_flight (w : World) (k : string) (p : nat) : Prop :=
  promises w !! p = Some (mkPromise k None).

(** The map holds exactly the fetches that have not settled, and every
    promise stands for one subrequest, in order. *)
Definition coherent (w : World) : Prop :=
  (forall k p, inflightRequests w !! k = Some p <-> in_flight w k p)
  /\ (origin_calls w).*1 = pkey <$> promises w.

(** No fetch for the key [k] settles while the steps [es] run from [w]. *)
Fixpoint quiet (k : string) (w : World) (es : list Step) : Prop :=
  match es with
  | [] => True
  | e :: es' =>
      match e with
      | OriginSettles p _ => pkey <$> promises w !! p <> Some k
      | _ => True
      end /\ quiet k (step w e) es'
  end.

(** Task [t] has not passed the coalescing point for the key [k], or it
    waits on a fetch for [k] that has not settled, or it is done. *)
Definition tracked (k : string) (w : World) (t : nat) : Prop :=
  match tasks w !! t with
  | Some (AwaitingCache request) => cacheKeyString request = k
  | Some (AwaitingInflight _ p) => in_flight w k p
  | Some _ => True
  | None => False
  end.

(** Whether the map has an entry for [k], as a number. *)
Definition registered (k : string) (w : World) : nat :=
  match inflightRequests w !! k with
  | Some _ => 1
  | None => 0
  end.

(** Task [t] is suspended at [await inflightPromise] on promise [p]. *)
Definition waits_on (w : World) (t p : nat) : Prop :=
  exists request, tasks w !! t = Some (AwaitingInflight request p).

(** The content a client reads from a response. *)
Definition content (w : World) (r : SResp) : option string :=
  match body r with
  | Some s => data <$> streams w !! s
  | None => None
  end.

End Coalescing.

(** ** src/examples/performance-test.js, lines 289-447 (v2 Stable) *)

Module Stable.

Definition ORIGIN_URL : string := "https://webr00t.global.ssl.fastly.net".

Definition corsHeaders : list (string * string) :=
  [ ("Access-Control-Allow-Origin", "*");
    ("Access-Control-Allow-Methods", "GET, HEAD, OPTIONS");
    ("Access-Control-Allow-Headers",
     "Content-Type, Range, User-Agent, X-Requested-With");
    ("Access-Control-Expose-Headers",
     "Content-Length, Content-Range, ETag, Last-Modified");
    ("Access-Control-Max-Age", "86400") ].

(** [new Request(url.toString(), request)]. *)
Definition cacheKey (request : Request) : KeyRequest :=
  {| kurl := href (url request);
     kmethod := method request;
     kheaders := headers request |}.

Definition allowedForwardHeaders : list string :=
  ["range"; "user-agent"; "accept"; "accept-encoding"].

Definition originHeaders (request : Request) : Headers :=
  foldl (fun acc h =>
           let val := hget h (headers request) in
           if truthy val then hset h (default "" val) acc else acc)
        ∅ allowedForwardHeaders.

Definition originInit (request : Request) : FetchInit :=
  {| furl := ORIGIN_URL +:+ pathname (url request) +:+ search (url request);
     fmethod := method request;
     fheaders := originHeaders request;
     fcf := {| cacheTtl := 31536000%N; cacheEverything := true;
               polish := None; minify := None |} |}.

Definition responseHeaders (originResponse : Resp) : Headers :=
  let h := rheaders originResponse in
  let h := hdelete_all ["set-cookie"; "via"; "server"; "x-powered-by"] h in
  let h := hset_all corsHeaders h in
  hset "CF-Cache-Status" "MISS" h.

(** The response served on a cache hit. *)
Definition hitResponse (response : Resp) : Resp :=
  let newHeaders := hset "CF-Cache-Status" "HIT" (rheaders response) in
  let newHeaders := hset_all corsHeaders newHeaders in
  {| status := status response; statusText := statusText response;
     rheaders := newHeaders; body := body response |}.

Definition errorResponse (e : JsError) : Resp :=
  text_response id ("CDN Proxy Error: " +:+ message e) 500
    (headers_of corsHeaders).

Definition onRequest (env : Env) (request : Request) : M Resp :=
  let u := url request in
  if String.eqb (method request) "OPTIONS"
  then ret {| status := 204; statusText := "";
              rheaders := headers_of corsHeaders; body := None |}
  else if negb (String.eqb (method request) "GET")
          && negb (String.eqb (method request) "HEAD")
  then ret (text_response id "Method Not Allowed" 405 (headers_of corsHeaders))
  else if String.eqb (pathname u) "/health" || String.eqb (pathname u) "/"
  then ret (text_response id "OK" 200 (headers_of corsHeaders))
  else
    try_catch
      (let key := cacheKey request in
       response <- cacheMatch env key ;;
       match response with
       | Some response => ret (hitResponse response)
       | None =>
           originResponse <- fetch env (originInit request) ;;
           let rh := responseHeaders originResponse in
           if negb (ok originResponse)
           then ret {| status := status originResponse;
                       statusText := statusText originResponse;
                       rheaders := rh; body := body originResponse |}
           else
             match body originResponse with
             | None =>
                 ret {| status := status originResponse; statusText := "";
                        rheaders := rh; body := None |}
             | Some b =>
                 let clientStream := b in
                 let cacheStream := b in
                 waitUntil
                   (if status originResponse =? 200
                    then [(key, {| status := status originResponse;
                                   statusText := "";
                                   rheaders := rh;
                                   body := Some cacheStream |})]
                    else []) ;;;
                 ret {| status := status originResponse;
                        statusText := statusText originResponse;
                        rheaders := rh; body := Some clientStream |}
             end
       end)
      (fun err =>
         match err with
         | Err e => ret (errorResponse e)
         | Undefined =>
             throw (Err (mkError "Cannot read properties of undefined"))
         end).

End Stable.

(** ** src/examples/performance-test.js, lines 1-286: the test script

    The statistics the script keeps.  The network is a collaborator: the
    [k]-th request the script sends settles as [net k url].  Console output
    and the pauses between requests are not modelled. *)

Module PerformanceTest.

Definition CDN_URL : string := "https://cdn-proxy.your-subdomain.workers.dev".

Definition testFiles : list string :=
  ["/test/image1.jpg"; "/test/image2.jpg"; "/test/image3.jpg";
   "/test/video.ts"; "/test/thumbnail.jpg"].

Definition iterations : nat := 10.
Definition concurrency : nat := 5.
Definition warmupRequests : nat := 2.

(** What [request(url)] resolves to; [size] is the parsed Content-Length,
    which only the log line uses. *)
Record Measured := mkMeasured {
  statusCode : nat;
  duration : nat;
  cacheStatus : string;
  size : option nat;
  mheaders : Headers
}.

(** [res.headers['x-cache'] || 'UNKNOWN']. *)
Definition cacheStatusOf (h : Headers) : string :=
  default "UNKNOWN" (js_or (h !! "x-cache") (Some "UNKNOWN")).

Record Results := mkResults {
  total : nat;
  success : nat;
  failed : nat;
  cacheHit : nat;
  cacheMiss : nat;
  totalTime : nat;
  times : list nat;
  errors : list (string * string)
}.

Definition noResults : Results :=
  {| total := 0; success := 0; failed := 0; cacheHit := 0; cacheMiss := 0;
     totalTime := 0; times := []; errors := [] |}.

(** The script's state: its statistics and how many requests it has sent. *)
Definition State : Type := Results * nat.

(** [testFile(filePath, iteration)]. *)
Definition testFile (net : nat -> string -> Settled Measured)
    (filePath : string) (st : State) : State :=
  let results := st.1 in
  match net st.2 (CDN_URL +:+ filePath) with
  | Fulfilled result =>
      ({| total := total results + 1;
          success := success results + 1;
          failed := failed results;
          cacheHit := if String.eqb (cacheStatus result) "HIT"
                      then cacheHit results + 1 else cacheHit results;
          cacheMiss := if String.eqb (cacheStatus result) "HIT"
                       then cacheMiss results
                       else if String.eqb (cacheStatus result) "MISS"
                            then cacheMiss results + 1 else cacheMiss results;
          totalTime := totalTime results + duration result;
          times := times results ++ [duration result];
          errors := errors results |},
       S st.2)
  | Rejected error =>
      ({| total := total results + 1;
          success := success results;
          failed := failed results + 1;
          cacheHit := cacheHit results;
          cacheMiss := cacheMiss results;
          totalTime := totalTime results;
          times := times results;
          errors := errors results ++ [(filePath, message error)] |},
       S st.2)
  end.

(** [warmup()]: each file is requested [warmupRequests] times. *)
Definition warmup (net : nat -> string -> Settled Measured) (st : State)
    : State :=
  foldl (fun st file => Nat.iter warmupRequests (testFile net file) st)
        st testFiles.

(** [runTest()] up to [printResults()]: the warm-up, the reset of the
    statistics, and [iterations] rounds over the files. *)
Definition runTest (net : nat -> string -> Settled Measured) (st : State)
    : State :=
  let st := warmup net st in
  let st := (noResults, st.2) in
  foldl (fun st iteration =>
           foldl (fun st file => testFile net file st) st testFiles)
        st (seq 1 iterations).


End PerformanceTest.

(** Every header of [o] is in [h] with the value [o] gives it. *)
Definition carries (o : list (string * string)) (h : Headers) : Prop :=
  forall name value, (name, value) ∈ o -> hget name h = Some value.

(** The requests that _middleware.js and the coalescing variant let through
    to their cache and origin logic: GET or HEAD, not the health check, a
    path ending in .jpg or .jpeg whatever its case, and a referer. *)
Definition passes_guards (request : Request) : bool :=
  let u := url request in
  let lpath := toLowerCase (pathname u) in
  (String.eqb (method request) "GET" || String.eqb (method request) "HEAD")
  && negb (String.eqb (pathname u) "/health" || String.eqb (pathname u) "/")
  && (endsWith lpath ".jpg" || endsWith lpath ".jpeg")
  && truthy (js_or (hget "referer" (headers request))
                   (hget "referrer" (headers request))).

(** ** Sample inputs *)

Module Samples.

Definition cdn : string := "https://cdn.example.com".

Definition get (path : string) (q : option string) (hs : list (string * string))
    : Request :=
  {| method := "GET";
     url := {| origin := cdn; pathname := path; query := q |};
     headers := headers_of hs |}.

(** A segment request that passes the extension and referer checks. *)
Definition segment : Request :=
  get "/video/seg-0001.jpg" None [("Referer", "https://player.example.com/")].

Definition reply (st : nat) (hs : list (string * string)) (b : option string)
    : Resp :=
  {| status := st; statusText := ""; rheaders := headers_of hs; body := b |}.

Definition empty_cache : KeyRequest -> Settled (option Resp) :=
  fun _ => Fulfilled None.

(** An origin that answers 503 twice and then 200. *)
Definition flaky : Env :=
  {| cache_match := empty_cache;
     origin_fetch := fun k _ =>
       match k with
       | 0 | 1 => Fulfilled (reply 503 [] (Some "busy"))
       | _ => Fulfilled (reply 200 [("Content-Length", "5")] (Some "bytes"))
       end |}.

(** An origin that cannot be reached. *)
Definition unreachable : Env :=
  {| cache_match := empty_cache;
     origin_fetch := fun _ _ => Rejected (mkError "connection refused") |}.

(** An origin that does not have the file. *)
Definition missing : Env :=
  {| cache_match := empty_cache;
     origin_fetch := fun _ _ => Fulfilled (reply 404 [] (Some "not found")) |}.

(** The same segment and the same playlist asked for with two tokens. *)
Definition segmentA : Request := get "/segment001.ts" (Some "token=A") [].
Definition segmentB : Request := get "/segment001.ts" (Some "token=B") [].
Definition playlistA : Request := get "/live.m3u8" (Some "token=A") [].
Definition playlistB : Request := get "/live.m3u8" (Some "token=B") [].

(** The same segment asked for with two byte ranges. *)
Definition rangeA : Request :=
  get "/video/seg-0001.jpg" None
    [("Referer", "https://player.example.com/"); ("Range", "bytes=0-99")].
Definition rangeB : Request :=
  get "/video/seg-0001.jpg" None
    [("Referer", "https://player.example.com/"); ("Range", "bytes=100-199")].

(** An origin that serves the segment, behind an empty cache. *)
Definition served : Resp :=
  reply 200 [("Content-Length", "5"); ("Server", "nginx")] (Some "bytes").

Definition fresh : Env :=
  {| cache_match := empty_cache;
     origin_fetch := fun _ _ => Fulfilled served |}.

(** The entry the retrying variant stores for [segment], and a cache that
    holds it in front of an unreachable origin. *)
Definition stored : Resp :=
  {| status := 200; statusText := "";
     rheaders := Middleware.responseHeaders (url segment) served;
     body := Some "bytes" |}.

Definition warm : Env :=
  {| cache_match := fun _ => Fulfilled (Some stored);
     origin_fetch := fun _ _ => Rejected (mkError "connection refused") |}.

Definition health : Request := get "/health" None [].

Definition miss : Settled (option Resp) := Fulfilled None.

Definition noon : Coalescing.Clock :=
  {| Coalescing.now_ms := 1700000000000;
     Coalescing.now_utc := "Tue, 14 Nov 2023 22:13:20 GMT" |}.

(** Three requests for the same segment have arrived and wait for the
    cache. *)
Definition three_arrived : Coalescing.World :=
  Coalescing.run Coalescing.initial
    [Coalescing.Arrive segment; Coalescing.Arrive segment;
     Coalescing.Arrive segment].

(** Each of them is told that the cache has no entry. *)
Definition three_misses : list Coalescing.Step :=
  [Coalescing.CacheAnswers 0 miss; Coalescing.CacheAnswers 1 miss;
   Coalescing.CacheAnswers 2 miss].

(** Two requests for the same segment miss the cache, the one origin fetch
    answers 200 with a body, and both handlers resume. *)
Definition two_coalesced (out : Settled Resp) : list Coalescing.Step :=
  [Coalescing.Arrive segment; Coalescing.Arrive segment;
   Coalescing.CacheAnswers 0 miss; Coalescing.CacheAnswers 1 miss;
   Coalescing.OriginSettles 0 out;
   Coalescing.Resume 0 noon; Coalescing.Resume 1 noon].

Definition options : Request :=
  {| method := "OPTIONS"; url := url segment; headers := headers segment |}.

(** Two requests for the same segment have arrived and wait for the
    cache. *)
Definition two_arrived : Coalescing.World :=
  Coalescing.run Coalescing.initial
    [Coalescing.Arrive segment; Coalescing.Arrive segment].

(** The first is told that the cache has no entry and starts the fetch,
    which settles as [out] before the cache tells the second the same. *)
Definition late_miss (out : Settled Resp) : list Coalescing.Step :=
  [Coalescing.CacheAnswers 0 miss; Coalescing.OriginSettles 0 out;
   Coalescing.CacheAnswers 1 miss].

End Samples.

(** What an allow-list lets through: the client's value of an allowed
    header that is present and not empty. *)
Definition forwarded (allowed : list string) (hs : Headers) (name : string)
    : option string :=
  if bool_decide (name ∈ allowed) && truthy (hs !! name) then hs !! name
  else None.

(** Whether a promise of the coalescing variant has not settled. *)
Definition unsettled (pr : Coalescing.Promise) : bool :=
  match Coalescing.pstate pr with
  | None => true
  | Some _ => false
  end.

(** The fetches for the key [k] that have settled. *)
Definition settled_for (k : string) (w : Coalescing.World) : nat :=
  length (filter (fun pr => bool_decide (Coalescing.pkey pr = k)
                            && negb (unsettled pr))
                 (Coalescing.promises w)).

Module MoreSamples.

(** A HEAD request for a byte range of a segment. *)
Definition head_range : Request :=
  {| method := "HEAD";
     url := {| origin := Samples.cdn; pathname := "/video/seg-0001.ts";
               query := Some "token=A" |};
     headers := headers_of [("Range", "bytes=0-99"); ("Cookie", "session=1");
                            ("User-Agent", "player/1.0")] |}.

(** An origin that answers 206 without a body, as to a HEAD request. *)
Definition partial_no_body : Env :=
  {| cache_match := Samples.empty_cache;
     origin_fetch := fun _ _ =>
       Fulfilled (Samples.reply 206 [("Content-Range", "bytes 0-99/5000");
                                     ("Set-Cookie", "origin=1")] None) |}.

(** An origin that answers 503. *)
Definition overloaded : Settled Resp :=
  Fulfilled (Samples.reply 503 [("Retry-After", "5")] (Some "busy")).

(** A cache that fails. *)
Definition broken_cache : Env :=
  {| cache_match := fun _ => Rejected (mkError "cache unavailable");
     origin_fetch := fun _ _ => Fulfilled Samples.served |}.

(** A network on which every second request fails, and the others hit. *)
Definition lossy (k : nat) (u : string) : Settled PerformanceTest.Measured :=
  if Nat.even k
  then Fulfilled {| PerformanceTest.statusCode := 200;
                    PerformanceTest.duration := 12;
                    PerformanceTest.cacheStatus := "HIT";
                    PerformanceTest.size := Some 5;
                    PerformanceTest.mheaders := headers_of [("X-Cache", "HIT")] |}
  else Rejected (mkError "socket hang up").

(** The entry part_000 stores for [Samples.segmentA] when the origin serves
    it, and a cache that holds it in front of an unreachable origin. *)
Definition stored_segment : Resp :=
  {| status := 200; statusText := "";
     rheaders := hset "Cache-Control" "public, max-age=31536000"
                   (QueryIgnoring.responseHeaders (url Samples.segmentA)
                      Samples.served);
     body := Some "bytes" |}.

Definition warm_segment : Env :=
  {| cache_match := fun _ => Fulfilled (Some stored_segment);
     origin_fetch := fun _ _ => Rejected (mkError "connection refused") |}.

(** The entry the v2 variant stores for [Samples.segment], and a cache that
    holds it. *)
Definition stored_stable : Resp :=
  {| status := 200; statusText := "";
     rheaders := Stable.responseHeaders Samples.served;
     body := Some "bytes" |}.

Definition warm_stable : Env :=
  {| cache_match := fun _ => Fulfilled (Some stored_stable);
     origin_fetch := fun _ _ => Rejected (mkError "connection refused") |}.

(** Two handlers of the coalescing variant wait on the one fetch for
    [Samples.segment], which has just settled as [out]. *)
Definition two_waiting (out : Settled Resp) : Coalescing.World :=
  Coalescing.run Coalescing.initial
    [Coalescing.Arrive Samples.segment; Coalescing.Arrive Samples.segment;
     Coalescing.CacheAnswers 0 Samples.miss;
     Coalescing.CacheAnswers 1 Samples.miss;
     Coalescing.OriginSettles 0 out].

End MoreSamples.

(** * Properties *)

#[local] Arguments Nat.leb : simpl never.
#[local] Arguments Nat.mul : simpl never.
#[local] Arguments Nat.pow : simpl never.

(** ** Traces *)

Lemma fetches_app (tr1 tr2 : list Event) :
  fetches (tr1 ++ tr2) = fetches tr1 + fetches tr2.
Proof. unfold fetches. by rewrite filter_app, length_app. Qed.

Lemma sleeps_app (tr1 tr2 : list Event) :
  sleeps (tr1 ++ tr2) = sleeps tr1 ++ sleeps tr2.
Proof.
  induction tr1 as [|e tr1 IH]; [done|].
  destruct e; simpl; by rewrite ?IH.
Qed.

Lemma cache_puts_app (tr1 tr2 : list Event) :
  cache_puts (tr1 ++ tr2) = cache_puts tr1 ++ cache_puts tr2.
Proof.
  induction tr1 as [|e tr1 IH]; [done|].
  destruct e; simpl; rewrite ?IH; try done.
  by rewrite app_assoc.
Qed.

(** ** The retry loop of src/functions/_middleware.js *)

Section Retry.
Import Middleware.
Variable env : Env.
Variable init : FetchInit.

Lemma failed_rounds_S i n :
  failed_rounds init i (S n) =
  EvFetch init :: EvSleep (100 * 2 ^ i) :: failed_rounds init (S i) n.
Proof. reflexivity. Qed.

Lemma fetches_failed_rounds i n : fetches (failed_rounds init i n) = n.
Proof.
  revert i; induction n as [|n IH]; intros i; [done|].
  rewrite failed_rounds_S.
  change (EvFetch init :: EvSleep (100 * 2 ^ i) :: failed_rounds init (S i) n)
    with ([EvFetch init; EvSleep (100 * 2 ^ i)] ++ failed_rounds init (S i) n).
  rewrite fetches_app, IH. reflexivity.
Qed.

Lemma sleeps_failed_rounds i n :
  sleeps (failed_rounds init i n) = map (fun j => 100 * 2 ^ j) (seq i n).
Proof.
  revert i; induction n as [|n IH]; intros i; [done|].
  rewrite failed_rounds_S. simpl. by rewrite IH.
Qed.

(** One failed iteration: the subrequest, the sleep, and the rest of the
    loop with the error of this attempt. *)
Lemma retry_loop_failed n i last tr :
  fetches tr = i ->
  retried (origin_fetch env i init) = true ->
  retry_loop env init (S n) i last tr =
  retry_loop env init n (S i) (attempt_error (origin_fetch env i init))
    (tr ++ [EvFetch init; EvSleep (100 * 2 ^ i)]).
Proof.
  intros Hi Hr. simpl.
  unfold try_catch, bind, fetch. rewrite Hi.
  destruct (origin_fetch env i init) as [res|e]; simpl in *.
  - rewrite Hr. simpl. unfold sleep. by rewrite <- app_assoc.
  - unfold sleep. by rewrite <- app_assoc.
Qed.

Lemma retry_loop_returns n i last tr res :
  fetches tr = i ->
  origin_fetch env i init = Fulfilled res ->
  (500 <=? status res) = false ->
  retry_loop env init (S n) i last tr = (Ok res, tr ++ [EvFetch init]).
Proof.
  intros Hi Ho Hs. simpl.
  unfold try_catch, bind, fetch. rewrite Hi, Ho. simpl. by rewrite Hs.
Qed.

(** All [n] remaining attempts fail: the last error is thrown after [n]
    rounds of subrequest and sleep. *)
Lemma retry_loop_exhausted n :
  forall i last tr,
    fetches tr = i ->
    (forall j, j < n -> retried (origin_fetch env (i + j) init) = true) ->
    retry_loop env init n i last tr =
    (Throw (match n with
            | 0 => last
            | S m => attempt_error (origin_fetch env (i + m) init)
            end),
     tr ++ failed_rounds init i n).
Proof.
  induction n as [|n IH]; intros i last tr Hi Hall.
  - simpl. unfold throw. by rewrite app_nil_r.
  - rewrite retry_loop_failed; [|done|].
    2:{ specialize (Hall 0). rewrite Nat.add_0_r in Hall. apply Hall. lia. }
    rewrite IH.
    + rewrite failed_rounds_S, <- app_assoc. simpl.
      destruct n as [|m]; [by rewrite Nat.add_0_r|by rewrite Nat.add_succ_r].
    + rewrite fetches_app, Hi. simpl. unfold fetches. simpl. lia.
    + intros j Hj. replace (S i + j) with (i + S j) by lia.
      apply Hall. lia.
Qed.

(** The first [m] attempts fail and attempt [m] gets a status below 500:
    that response is returned. *)
Lemma retry_loop_succeeds m :
  forall n i last tr res,
    fetches tr = i ->
    m < n ->
    (forall j, j < m -> retried (origin_fetch env (i + j) init) = true) ->
    origin_fetch env (i + m) init = Fulfilled res ->
    (500 <=? status res) = false ->
    retry_loop env init n i last tr =
    (Ok res, tr ++ failed_rounds init i m ++ [EvFetch init]).
Proof.
  induction m as [|m IH]; intros n i last tr res Hi Hmn Hall Ho Hs.
  - destruct n as [|n]; [lia|].
    rewrite Nat.add_0_r in Ho.
    by rewrite (retry_loop_returns n i last tr res).
  - destruct n as [|n]; [lia|].
    rewrite retry_loop_failed; [|done|].
    2:{ specialize (Hall 0). rewrite Nat.add_0_r in Hall. apply Hall. lia. }
    rewrite (IH n (S i) _ _ res).
    + rewrite failed_rounds_S, <- !app_assoc. reflexivity.
    + rewrite fetches_app, Hi. unfold fetches. simpl. lia.
    + lia.
    + intros j Hj. replace (S i + j) with (i + S j) by lia.
      apply Hall. lia.
    + replace (S i + m) with (i + S m) by lia. done.
    + done.
Qed.

(** What a whole loop of [n] attempts does: [f] failed rounds, then either
    a returned response or, after [n] failures, the last error. *)
Lemma retry_loop_cases n last :
  exists f,
    f <= n /\
    (forall j, j < f -> retried (origin_fetch env j init) = true) /\
    ((f < n /\ exists res,
        origin_fetch env f init = Fulfilled res /\
        (500 <=? status res) = false /\
        retry_loop env init n 0 last [] =
        (Ok res, failed_rounds init 0 f ++ [EvFetch init]))
     \/
     (f = n /\
      retry_loop env init n 0 last [] =
      (Throw (match n with
              | 0 => last
              | S m => attempt_error (origin_fetch env m init)
              end),
       failed_rounds init 0 n))).
Proof.
  assert (Hfirst : forall k, k <= n ->
    (exists f, f < k /\
       (forall j, j < f -> retried (origin_fetch env j init) = true) /\
       retried (origin_fetch env f init) = false)
    \/ (forall j, j < k -> retried (origin_fetch env j init) = true)).
  { induction k as [|k IHk]; intros Hk.
    - right. intros j Hj. lia.
    - destruct IHk as [(f & Hf & Hpre & Hstop)|Hall]; [lia| |].
      + left. exists f. split; [lia|done].
      + destruct (retried (origin_fetch env k init)) eqn:Hk'.
        * right. intros j Hj.
          destruct (decide (j = k)) as [->|]; [done|]. apply Hall. lia.
        * left. exists k. split; [lia|done]. }
  destruct (Hfirst n (le_n n)) as [(f & Hf & Hpre & Hstop)|Hall].
  - exists f. split; [lia|]. split; [done|]. left. split; [done|].
    destruct (origin_fetch env f init) as [res|e] eqn:Ho; [|done].
    exists res. split; [done|]. split; [done|].
    by rewrite (retry_loop_succeeds f n 0 last [] res).
  - exists n. split; [done|]. split; [done|]. right. split; [done|].
    by rewrite (retry_loop_exhausted n 0 last []).
Qed.

End Retry.

Lemma retried_transient (o : Settled Resp) :
  Middleware.transient_failure o -> Middleware.retried o = true.
Proof.
  destruct o as [res|e]; simpl; [|done].
  intros [H _]. by apply Nat.leb_le.
Qed.

Lemma transient_retried (o : Settled Resp) :
  (forall res, o = Fulfilled res -> status res <= 599) ->
  Middleware.retried o = true -> Middleware.transient_failure o.
Proof.
  destruct o as [res|e]; simpl; [|done].
  intros Hv H. apply Nat.leb_le in H. split; [done|]. by apply Hv.
Qed.

Example fetchWithRetry_flaky :
  Middleware.fetchWithRetry Samples.flaky "/video/seg-0001.jpg" Samples.segment [] =
  (let init := Middleware.originInit "/video/seg-0001.jpg" Samples.segment in
   (Ok (Samples.reply 200 [("Content-Length", "5")] (Some "bytes")),
    [EvFetch init; EvSleep 100; EvFetch init; EvSleep 200; EvFetch init])).
Proof. reflexivity. Qed.

Example fetchWithRetry_missing :
  Middleware.fetchWithRetry Samples.missing "/video/seg-0001.jpg" Samples.segment [] =
  (Ok (Samples.reply 404 [] (Some "not found")),
   [EvFetch (Middleware.originInit "/video/seg-0001.jpg" Samples.segment)]).
Proof. reflexivity. Qed.

(** C3: [fetchWithRetry] sends at least one and at most [MAX_RETRIES] = 3
    subrequests; another attempt follows attempt [k] exactly when attempts
    remain and attempt [k] got a 5xx status or a network failure; a 4xx first
    response is returned after exactly one subrequest and no sleep; retry
    attempt [i] (counted from 0) comes right after a sleep of 100 * 2^i ms,
    and all sleeps follow that schedule; when all attempts fail the error of
    the last attempt is thrown to the caller.  Statuses of origin responses
    are taken to be HTTP statuses (at most 599). *)
Theorem fetchWithRetry_policy (env : Env) (path : string) (request : Request) :
  let init := Middleware.originInit path request in
  let attempt := fun k => origin_fetch env k init in
  let out := Middleware.fetchWithRetry env path request [] in
  let calls := fetches out.2 in
  (forall k res, attempt k = Fulfilled res -> status res <= 599) ->
  1 <= calls <= Middleware.MAX_RETRIES
  /\ (forall k, k < calls ->
       (S k < calls <->
        S k < Middleware.MAX_RETRIES /\ Middleware.transient_failure (attempt k)))
  /\ (forall res, attempt 0 = Fulfilled res -> 400 <= status res <= 499 ->
       out = (Ok res, [EvFetch init]))
  /\ (forall i, S i < calls ->
       out.2 !! (2 * i + 1) = Some (EvSleep (100 * 2 ^ i)) /\
       out.2 !! (2 * i + 2) = Some (EvFetch init))
  /\ sleeps out.2 = map (fun i => 100 * 2 ^ i) (seq 0 (length (sleeps out.2)))
  /\ ((forall k, k < Middleware.MAX_RETRIES -> Middleware.transient_failure (attempt k)) ->
       out.1 = Throw (Middleware.attempt_error (attempt (Middleware.MAX_RETRIES - 1)))).
Proof.
  intros init attempt out calls Hvalid.
  destruct (retry_loop_cases env init Middleware.MAX_RETRIES Undefined)
    as (f & Hf & Hpre & [(Hlt & res & Ho & Hs & Hrun)|(-> & Hrun)]).
  - (* attempt f returns *)
    assert (Hout : out = (Ok res, Middleware.failed_rounds init 0 f ++ [EvFetch init]))
      by exact Hrun.
    assert (Hcalls : calls = f + 1).
    { unfold calls. rewrite Hout. simpl.
      rewrite fetches_app, fetches_failed_rounds. reflexivity. }
    assert (Hstop : Middleware.retried (attempt f) = false).
    { unfold attempt. rewrite Ho. exact Hs. }
    unfold Middleware.MAX_RETRIES in *.
    repeat split.
    + lia.
    + lia.
    + lia.
    + apply transient_retried; [apply Hvalid|]. apply Hpre. lia.
    + intros [_ Ht]. apply retried_transient in Ht.
      destruct (decide (k = f)) as [->|]; [congruence|lia].
    + intros res0 Ho0 Hst0.
      destruct f as [|f].
      * rewrite Hout. unfold attempt in Ho0. rewrite Ho in Ho0.
        by inversion Ho0.
      * specialize (Hpre 0 ltac:(lia)). unfold attempt in Ho0.
        rewrite Ho0 in Hpre. simpl in Hpre. apply Nat.leb_le in Hpre. lia.
    + rewrite Hout. simpl.
      destruct f as [|[|[|f]]]; [lia| | |lia];
        destruct i as [|[|i]]; try lia; reflexivity.
    + rewrite Hout. simpl.
      destruct f as [|[|[|f]]]; [lia| | |lia];
        destruct i as [|[|i]]; try lia; reflexivity.
    + rewrite Hout. simpl.
      rewrite sleeps_app, sleeps_failed_rounds. simpl.
      by rewrite app_nil_r, length_map, length_seq.
    + intros Hall. specialize (Hall f Hlt). apply retried_transient in Hall.
      congruence.
  - (* all attempts fail *)
    assert (Hout : out = (Throw (Middleware.attempt_error (attempt 2)),
                          Middleware.failed_rounds init 0 3)) by exact Hrun.
    assert (Hcalls : calls = 3).
    { unfold calls. rewrite Hout. simpl. apply fetches_failed_rounds. }
    unfold Middleware.MAX_RETRIES in *.
    repeat split.
    + lia.
    + lia.
    + lia.
    + apply transient_retried; [apply Hvalid|]. apply Hpre. lia.
    + lia.
    + intros res0 Ho0 Hst0.
      specialize (Hpre 0 ltac:(lia)). unfold attempt in Ho0.
      rewrite Ho0 in Hpre. simpl in Hpre. apply Nat.leb_le in Hpre. lia.
    + rewrite Hout. destruct i as [|[|i]]; try lia; reflexivity.
    + rewrite Hout. destruct i as [|[|i]]; try lia; reflexivity.
    + rewrite Hout. reflexivity.
    + intros _. by rewrite Hout.
Qed.

Lemma fetchWithRetry_policy_witness :
  let env := Samples.flaky in
  let init := Middleware.originInit "/video/seg-0001.jpg" Samples.segment in
  let out := Middleware.fetchWithRetry env "/video/seg-0001.jpg" Samples.segment [] in
  (forall k res, origin_fetch env k init = Fulfilled res -> status res <= 599)
  /\ 1 <= fetches out.2 <= Middleware.MAX_RETRIES
  /\ sleeps out.2 = [100; 200].
Proof.
  intros env init out.
  assert (Hvalid : forall k res,
             origin_fetch env k init = Fulfilled res -> status res <= 599).
  { intros k res H. destruct k as [|[|k]]; simpl in H; inversion H; simpl; lia. }
  split; [exact Hvalid|].
  split; [|reflexivity].
  exact (proj1 (fetchWithRetry_policy env "/video/seg-0001.jpg" Samples.segment Hvalid)).
Defined.

(** C10: when all [MAX_RETRIES] attempts of [fetchWithRetry] fail, the sleep
    runs after every one of them, the last included: the trace is three
    rounds of subrequest and sleep, the delays are 100, 200 and 400 ms (as
    many as attempts), and the last error is thrown only after the final
    sleep of 100 * 2^(MAX_RETRIES - 1) = 400 ms. *)
Theorem fetchWithRetry_sleeps_after_last_attempt
    (env : Env) (path : string) (request : Request) :
  let init := Middleware.originInit path request in
  let out := Middleware.fetchWithRetry env path request [] in
  (forall k, k < Middleware.MAX_RETRIES ->
     Middleware.retried (origin_fetch env k init) = true) ->
  out = (Throw (Middleware.attempt_error
                  (origin_fetch env (Middleware.MAX_RETRIES - 1) init)),
         [EvFetch init; EvSleep 100; EvFetch init; EvSleep 200;
          EvFetch init; EvSleep 400])
  /\ sleeps out.2 = [100; 200; 400]
  /\ length (sleeps out.2) = Middleware.MAX_RETRIES
  /\ last out.2 = Some (EvSleep (100 * 2 ^ (Middleware.MAX_RETRIES - 1))).
Proof.
  intros init out Hall.
  assert (Hout : out = (Throw (Middleware.attempt_error (origin_fetch env 2 init)),
                        Middleware.failed_rounds init 0 3)).
  { unfold out, init, Middleware.fetchWithRetry.
    rewrite (retry_loop_exhausted env _ Middleware.MAX_RETRIES 0 Undefined []);
      [reflexivity|reflexivity|].
    intros j Hj. by apply Hall. }
  rewrite Hout. repeat split.
Qed.

Lemma fetchWithRetry_sleeps_after_last_attempt_witness :
  let env := Samples.unreachable in
  let out := Middleware.fetchWithRetry env "/video/seg-0001.jpg" Samples.segment [] in
  out.1 = Throw (Err (mkError "connection refused"))
  /\ sleeps out.2 = [100; 200; 400].
Proof.
  intros env out.
  assert (Hall : forall k, k < Middleware.MAX_RETRIES ->
            Middleware.retried
              (origin_fetch env k
                 (Middleware.originInit "/video/seg-0001.jpg" Samples.segment)) = true)
    by (intros k _; reflexivity).
  pose proof (fetchWithRetry_sleeps_after_last_attempt
                env "/video/seg-0001.jpg" Samples.segment Hall) as (H1 & H2 & _).
  split; [|exact H2].
  fold out in H1. rewrite H1. reflexivity.
Defined.

(** ** Cache keys *)

Lemma href_same_path (u1 u2 : URL) :
  origin u1 = origin u2 -> pathname u1 = pathname u2 ->
  href u1 = href u2 -> query u1 = query u2.
Proof.
  unfold href. intros -> -> H.
  do 2 apply String.app_inj in H.
  destruct (query u1) as [q1|], (query u2) as [q2|]; try done.
  by apply String.app_inj in H; subst.
Qed.

Example segment_keys_collapse :
  QueryIgnoring.cacheKey Samples.segmentA = QueryIgnoring.cacheKey Samples.segmentB.
Proof. reflexivity. Qed.

Example segment_token_forwarded :
  furl (QueryIgnoring.originInit Samples.segmentA) =
  "https://webr00t.global.ssl.fastly.net/segment001.ts?token=A".
Proof. reflexivity. Qed.

(** C4: in part_000, two requests for the same path on the same host get the
    same cache key when the path is a segment (not a playlist), whatever
    their query strings, while the subrequest a miss sends to the origin
    still carries the full query string; when the path is a playlist
    (.m3u8), requests with different query strings get different keys. *)
Theorem cacheKey_query_policy (r1 r2 : Request) :
  origin (url r1) = origin (url r2) ->
  pathname (url r1) = pathname (url r2) ->
  (QueryIgnoring.isPlaylist (url r1) = false ->
     QueryIgnoring.cacheKey r1 = QueryIgnoring.cacheKey r2
     /\ furl (QueryIgnoring.originInit r1) =
        QueryIgnoring.ORIGIN_URL +:+ pathname (url r1) +:+ search (url r1)
     /\ forall env, method r1 ∈ ["GET"; "HEAD"] ->
          cache_match env (QueryIgnoring.cacheKey r1) = Fulfilled None ->
          take 2 (QueryIgnoring.onRequest env r1 []).2 =
          [EvCacheMatch (QueryIgnoring.cacheKey r1);
           EvFetch (QueryIgnoring.originInit r1)])
  /\ (QueryIgnoring.isPlaylist (url r1) = true ->
      query (url r1) <> query (url r2) ->
      QueryIgnoring.cacheKey r1 <> QueryIgnoring.cacheKey r2).
Proof.
  intros Ho Hp. split.
  - intros Hseg.
    assert (Hseg2 : QueryIgnoring.isPlaylist (url r2) = false).
    { unfold QueryIgnoring.isPlaylist in *. by rewrite <- Hp. }
    split; [|split; [reflexivity|]].
    + unfold QueryIgnoring.cacheKey. rewrite Hseg, Hseg2. simpl.
      unfold href, clear_search. simpl. by rewrite Ho, Hp.
    + intros env Hm Hmiss.
      unfold QueryIgnoring.onRequest.
      destruct (String.eqb_spec (method r1) "OPTIONS") as [Heq|_].
      { rewrite Heq in Hm.
        apply (bool_decide_pack ("OPTIONS" ∈ ["GET"; "HEAD"])) in Hm.
        vm_compute in Hm. destruct Hm. }
      rewrite (bool_decide_eq_true_2 _ Hm). simpl.
      unfold try_catch, bind, cacheMatch. rewrite Hmiss. simpl.
      unfold fetch.
      destruct (origin_fetch env _ _) as [res|e]; simpl; [|reflexivity].
      destruct (ok res); simpl; [|reflexivity].
      destruct (body res); reflexivity.
  - intros Hpl Hq Hk.
    assert (Hpl2 : QueryIgnoring.isPlaylist (url r2) = true).
    { unfold QueryIgnoring.isPlaylist in *. by rewrite <- Hp. }
    unfold QueryIgnoring.cacheKey in Hk. rewrite Hpl, Hpl2 in Hk. simpl in Hk.
    apply Hq, href_same_path; [done|done|congruence].
Qed.

Lemma cacheKey_query_policy_witness :
  QueryIgnoring.cacheKey Samples.segmentA = QueryIgnoring.cacheKey Samples.segmentB
  /\ QueryIgnoring.cacheKey Samples.playlistA <> QueryIgnoring.cacheKey Samples.playlistB.
Proof.
  split.
  - exact (proj1 (proj1 (cacheKey_query_policy Samples.segmentA Samples.segmentB
                           eq_refl eq_refl) eq_refl)).
  - apply (proj2 (cacheKey_query_policy Samples.playlistA Samples.playlistB
                    eq_refl eq_refl)); [reflexivity|discriminate].
Defined.

Lemma rangeValue_or (request : Request) :
  default "" (js_or (Coalescing.rangeHeader request) (Some "")) =
  Coalescing.rangeValue request.
Proof.
  unfold Coalescing.rangeValue, js_or.
  by destruct (truthy (Coalescing.rangeHeader request)).
Qed.

Lemma truthy_rangeValue (request : Request) :
  truthy (Coalescing.rangeHeader request) = true ->
  Coalescing.rangeValue request <> "".
Proof.
  unfold Coalescing.rangeValue. intros H. rewrite H.
  destruct (Coalescing.rangeHeader request) as [v|]; [|done]. simpl in *.
  intros ->. done.
Qed.

(** The key request of the coalescing variant depends on the request through
    its URL and its Range value only. *)
Lemma coalescing_cacheKey_spec (request : Request) :
  Coalescing.cacheKey request =
  {| kurl := href (url request); kmethod := "GET";
     kheaders := if String.eqb (Coalescing.rangeValue request) "" then ∅
                 else {["range" := Coalescing.rangeValue request]} |}.
Proof.
  unfold Coalescing.cacheKey. f_equal.
  destruct (truthy (Coalescing.rangeHeader request)) eqn:Ht.
  - pose proof (truthy_rangeValue request Ht) as Hne.
    destruct (String.eqb_spec (Coalescing.rangeValue request) "") as [|_]; [done|].
    unfold Coalescing.rangeValue. rewrite Ht. reflexivity.
  - unfold Coalescing.rangeValue. rewrite Ht. reflexivity.
Qed.

Example middleware_key_keeps_range :
  Middleware.cacheKey Samples.rangeA <> Middleware.cacheKey Samples.rangeB.
Proof.
  intros H. apply (f_equal (fun k => kheaders k !! "range")) in H.
  vm_compute in H. discriminate.
Qed.

(** C5, as stated, fails on the coalescing variant: two requests that differ
    only in their Range header get different cache keys there. *)
Lemma range_header_in_coalescing_key :
  differ_only_in_range Samples.rangeA Samples.rangeB
  /\ Coalescing.cacheKey Samples.rangeA <> Coalescing.cacheKey Samples.rangeB
  /\ Coalescing.cacheKeyString Samples.rangeA <> Coalescing.cacheKeyString Samples.rangeB.
Proof.
  split; [|split].
  - repeat split.
  - intros H. apply (f_equal (fun k => kheaders k !! "range")) in H.
    vm_compute in H. discriminate.
  - vm_compute. discriminate.
Qed.

(** C5 amended: in part_000 the key request has method GET and no headers,
    so two requests that differ only in their Range header get the same
    cache key.  In the coalescing variant both the cache key and the key of
    the in-flight map are the URL plus the Range header: two such requests
    get the same key exactly when their Range values are equal, a missing
    Range counting as the empty one. *)
Theorem cacheKey_range_policy (r1 r2 : Request) :
  differ_only_in_range r1 r2 ->
  QueryIgnoring.cacheKey r1 = QueryIgnoring.cacheKey r2
  /\ (Coalescing.cacheKey r1 = Coalescing.cacheKey r2 <->
      Coalescing.rangeValue r1 = Coalescing.rangeValue r2)
  /\ (Coalescing.cacheKeyString r1 = Coalescing.cacheKeyString r2 <->
      Coalescing.rangeValue r1 = Coalescing.rangeValue r2).
Proof.
  intros (Hm & Hu & Hh). split; [|split].
  - unfold QueryIgnoring.cacheKey. by rewrite Hu.
  - rewrite !coalescing_cacheKey_spec, Hu. split.
    + intros H. apply (f_equal (fun k => kheaders k !! "range")) in H.
      simpl in H.
      destruct (String.eqb_spec (Coalescing.rangeValue r1) "") as [E1|N1],
               (String.eqb_spec (Coalescing.rangeValue r2) "") as [E2|N2].
      * congruence.
      * by rewrite lookup_empty, lookup_singleton_eq in H.
      * by rewrite lookup_empty, lookup_singleton_eq in H.
      * rewrite !lookup_singleton_eq in H. congruence.
    + by intros ->.
  - unfold Coalescing.cacheKeyString. rewrite !rangeValue_or.
    unfold Coalescing.cacheKey. simpl. rewrite Hu. split.
    + intros H. by apply String.app_inj in H.
    + by intros ->.
Qed.

Lemma cacheKey_range_policy_witness :
  differ_only_in_range Samples.rangeA Samples.rangeB
  /\ QueryIgnoring.cacheKey Samples.rangeA = QueryIgnoring.cacheKey Samples.rangeB.
Proof.
  assert (H : differ_only_in_range Samples.rangeA Samples.rangeB)
    by (repeat split).
  split; [exact H|].
  exact (proj1 (cacheKey_range_policy Samples.rangeA Samples.rangeB H)).
Defined.

(** ** The handler of part_000, case by case *)

Section QueryIgnoringCases.
Import QueryIgnoring.
Variable env : Env.
Variable request : Request.

Let key := cacheKey request.
Let init := originInit request.

Lemma get_or_head_not_options :
  method request ∈ ["GET"; "HEAD"] ->
  String.eqb (method request) "OPTIONS" = false.
Proof.
  intros Hm. destruct (String.eqb_spec (method request) "OPTIONS") as [Heq|]; [|done].
  rewrite Heq in Hm.
  apply (bool_decide_pack ("OPTIONS" ∈ ["GET"; "HEAD"])) in Hm.
  vm_compute in Hm. destruct Hm.
Qed.

Lemma onRequest_options :
  method request = "OPTIONS" ->
  onRequest env request [] =
  (Ok {| status := 204; statusText := ""; rheaders := headers_of corsHeaders;
         body := None |}, []).
Proof. intros Hm. unfold onRequest. by rewrite Hm. Qed.

Lemma onRequest_other_method :
  method request ∉ ["GET"; "HEAD"; "OPTIONS"] ->
  onRequest env request [] =
  (Ok (text_response id "Method Not Allowed" 405 (headers_of corsHeaders)), []).
Proof.
  intros Hm. unfold onRequest.
  destruct (String.eqb_spec (method request) "OPTIONS") as [Heq|_].
  { exfalso. apply Hm. rewrite Heq. by repeat constructor. }
  rewrite bool_decide_eq_false_2; [done|].
  intros Hin. apply Hm.
  apply elem_of_cons in Hin as [->|Hin]; [by constructor|].
  apply list_elem_of_singleton in Hin as ->. by repeat constructor.
Qed.

(** A GET or HEAD request enters the [try] block. *)
Lemma onRequest_get_or_head :
  method request ∈ ["GET"; "HEAD"] ->
  onRequest env request [] =
  match cache_match env key with
  | Rejected e => (Ok (errorResponse e), [EvCacheMatch key])
  | Fulfilled (Some stored) => (Ok (hitResponse stored), [EvCacheMatch key])
  | Fulfilled None =>
      match origin_fetch env 0 init with
      | Rejected e => (Ok (errorResponse e), [EvCacheMatch key; EvFetch init])
      | Fulfilled res =>
          let rh := responseHeaders (url request) res in
          match ok res, body res with
          | true, Some b =>
              (Ok {| status := status res; statusText := ""; rheaders := rh;
                     body := Some b |},
               [EvCacheMatch key; EvFetch init;
                EvWaitUntil
                  (if status res =? 200
                   then [(key,
                          {| status := status res; statusText := "";
                             rheaders :=
                               hset "Cache-Control"
                                 ("public, max-age=" +:+
                                  pretty (cacheTtlOf (url request))) rh;
                             body := Some b |})]
                   else [])])
          | true, None =>
              (Ok {| status := 200; statusText := ""; rheaders := rh;
                     body := None |},
               [EvCacheMatch key; EvFetch init])
          | false, _ =>
              (Ok {| status := status res; statusText := ""; rheaders := rh;
                     body := body res |},
               [EvCacheMatch key; EvFetch init])
          end
      end
  end.
Proof.
  intros Hm. unfold onRequest.
  rewrite (get_or_head_not_options Hm), (bool_decide_eq_true_2 _ Hm). simpl.
  unfold try_catch, bind, cacheMatch. fold key. simpl.
  destruct (cache_match env key) as [[stored|]|e]; simpl; try reflexivity.
  unfold fetch. fold init. simpl.
  change (fetches [EvCacheMatch key]) with 0.
  destruct (origin_fetch env 0 init) as [res|e]; simpl; [|reflexivity].
  destruct (ok res); simpl; [|reflexivity].
  destruct (body res); reflexivity.
Qed.

End QueryIgnoringCases.

(** ** Cache writes *)

Section CoalescingWrites.
Import Coalescing.

Ltac run_piece :=
  unfold run_handler, try_catch, bind, onError, textResponse, forbidden,
    alloc_body, alloc, new_Response, clone, waitUntil_put, join, await,
    ret, throw.

Lemma start_puts request w :
  background_puts (run_handler (start request) w).2 = background_puts w.
Proof.
  unfold start. run_piece.
  repeat (match goal with |- context [if ?b then _ else _] => destruct b end;
          simpl; try reflexivity).
Qed.

Lemma afterCache_puts request ans w :
  background_puts (run_handler (afterCache request ans) w).2 = background_puts w.
Proof.
  unfold afterCache. run_piece.
  destruct ans as [[response|]|e]; simpl; try reflexivity.
  - destruct (body response); simpl.
    + rewrite lookup_app_r by done. rewrite Nat.sub_diag. reflexivity.
    + reflexivity.
  - destruct (inflightRequests w !! cacheKeyString request); reflexivity.
Qed.

Lemma settle_puts p out w :
  background_puts (settle p out w) = background_puts w.
Proof.
  unfold settle.
  destruct (promises w !! p) as [[k [s|]]|]; try reflexivity.
  destruct out as [r|e]; [|reflexivity].
  destruct (body r); reflexivity.
Qed.

(** The last piece of the handler writes to the cache at most once, and
    only a copy of a 200 or 206 origin response. *)
Lemma afterFetch_puts request now s w :
  let out := run_handler (afterFetch request now s) w in
  background_puts out.2 = background_puts w
  \/ exists originResponse copy r,
       s = Fulfilled originResponse
       /\ (status originResponse = 200 \/ status originResponse = 206)
       /\ background_puts out.2 = background_puts w ++ [(cacheKey request, copy)]
       /\ status copy = status originResponse
       /\ out.1 = Finished r
       /\ status r = status originResponse.
Proof.
  unfold afterFetch. run_piece.
  destruct s as [originResponse|e]; simpl; [|by left].
  destruct (negb (ok originResponse) && negb (status originResponse =? 206)
            && negb (status originResponse =? 304)); simpl; [by left|].
  destruct (body originResponse) as [b|] eqn:Hb; simpl.
  - destruct (streams w !! b) as [str|] eqn:Hstr; simpl; [|by left].
    destruct (locked str) eqn:Hl; simpl; [by left|].
    destruct ((status originResponse =? 200) || (status originResponse =? 206))
      eqn:Hst; simpl; [|by left].
    rewrite Hstr, Hl. simpl. right.
    eexists originResponse, _, _.
    split; [done|]. split.
    { apply orb_true_iff in Hst as [H|H]; apply Nat.eqb_eq in H; auto. }
    repeat split.
  - destruct ((status originResponse =? 200) || (status originResponse =? 206))
      eqn:Hst; simpl; [|by left].
    right. eexists originResponse, _, _.
    split; [done|]. split.
    { apply orb_true_iff in Hst as [H|H]; apply Nat.eqb_eq in H; auto. }
    repeat split.
Qed.

(** An origin response with a 4xx or 5xx status is never written. *)
Lemma afterFetch_error_status request now originResponse w :
  400 <= status originResponse ->
  background_puts (run_handler (afterFetch request now (Fulfilled originResponse)) w).2
  = background_puts w.
Proof.
  intros Hst. unfold afterFetch. run_piece. simpl.
  assert (Hok : ok originResponse = false).
  { unfold ok. apply andb_false_iff. right. apply Nat.leb_gt. lia. }
  assert (H206 : (status originResponse =? 206) = false) by (apply Nat.eqb_neq; lia).
  assert (H304 : (status originResponse =? 304) = false) by (apply Nat.eqb_neq; lia).
  rewrite Hok, H206, H304. reflexivity.
Qed.

Lemma step_puts w e :
  background_puts (step w e) = background_puts w
  \/ exists t now request p k originResponse copy r,
       e = Resume t now
       /\ tasks w !! t = Some (AwaitingInflight request p)
       /\ promises w !! p = Some (mkPromise k (Some (Fulfilled originResponse)))
       /\ (status originResponse = 200 \/ status originResponse = 206)
       /\ background_puts (step w e) = background_puts w ++ [(cacheKey request, copy)]
       /\ status copy = status originResponse
       /\ tasks (step w e) !! t = Some (Finished r)
       /\ status r = status originResponse.
Proof.
  destruct e as [request|t ans|p out|t now]; simpl.
  - left. pose proof (start_puts request w) as H.
    destruct (run_handler (start request) w) as [tk w']. exact H.
  - destruct (tasks w !! t) as [[request|request p|r|th]|]; try by left.
    left. pose proof (afterCache_puts request ans w) as H.
    destruct (run_handler (afterCache request ans) w) as [tk w']. exact H.
  - left. apply settle_puts.
  - destruct (tasks w !! t) as [[request|request p|r|th]|] eqn:Ht; try by left.
    destruct (promises w !! p) as [[k [s|]]|] eqn:Hp; try by left.
    pose proof (afterFetch_puts request now s w) as H.
    assert (Hlen : length (tasks (run_handler (afterFetch request now s) w).2)
                   = length (tasks w)).
    { clear. unfold afterFetch. run_piece.
      destruct s as [o|e]; simpl; [|reflexivity].
      repeat (match goal with
              | |- context [if ?b then _ else _] => destruct b
              | |- context [match ?o with Some _ => _ | None => _ end] => destruct o
              end; simpl; try reflexivity). }
    destruct (run_handler (afterFetch request now s) w) as [tk w'].
    simpl in *.
    destruct H as [H|(originResponse & copy & r & -> & Hst & Hputs & Hc & -> & Hr)].
    + by left.
    + right. exists t, now, request, p, k, originResponse, copy, r.
      repeat split; try done.
      apply list_lookup_insert_eq. rewrite Hlen.
      by apply lookup_lt_Some in Ht.
Qed.

End CoalescingWrites.

Lemma queryIgnoring_puts env request key entry :
  (key, entry) ∈ cache_puts (QueryIgnoring.onRequest env request []).2 ->
  exists originResponse b client,
    origin_fetch env 0 (QueryIgnoring.originInit request) = Fulfilled originResponse
    /\ status originResponse = 200
    /\ body originResponse = Some b
    /\ key = QueryIgnoring.cacheKey request
    /\ status entry = 200
    /\ body entry = Some b
    /\ QueryIgnoring.onRequest env request [] =
       (Ok client,
        [EvCacheMatch key; EvFetch (QueryIgnoring.originInit request);
         EvWaitUntil [(key, entry)]])
    /\ status client = 200
    /\ body client = Some b.
Proof.
  destruct (decide (method request ∈ ["GET"; "HEAD"])) as [Hm|Hm].
  - rewrite (onRequest_get_or_head env request Hm).
    destruct (cache_match env _) as [[stored|]|e]; simpl;
      try (intros H; by apply not_elem_of_nil in H).
    destruct (origin_fetch env 0 _) as [res|e] eqn:Ho; simpl;
      try (intros H; by apply not_elem_of_nil in H).
    destruct (ok res), (body res) as [b|] eqn:Hb; simpl;
      try (intros H; by apply not_elem_of_nil in H).
    destruct (Nat.eqb_spec (status res) 200) as [Hst|Hst]; simpl;
      try (intros H; by apply not_elem_of_nil in H).
    intros H. apply list_elem_of_singleton in H. inversion H; subst.
    eexists res, b, _. rewrite Hst. repeat split; try done.
  - destruct (decide (method request = "OPTIONS")) as [Ho|Ho].
    + rewrite (onRequest_options env request Ho). simpl.
      intros H. by apply not_elem_of_nil in H.
    + rewrite (onRequest_other_method env request). 
      * simpl. intros H. by apply not_elem_of_nil in H.
      * intros Hin. apply Hm.
        apply elem_of_cons in Hin as [->|Hin]; [by constructor|].
        apply elem_of_cons in Hin as [->|Hin]; [by repeat constructor|].
        by apply list_elem_of_singleton in Hin.
Qed.

(** C6: a cache entry is written only from an origin response with status
    200 (part_000) or 200/206 (coalescing variant); a 4xx or 5xx origin
    response is never written; and a write is only ever handed to
    [waitUntil], as the last effect of a handler that returns the client
    response with the origin's status without waiting for the write. *)
Theorem cache_write_policy :
  (forall env request key entry,
     (key, entry) ∈ cache_puts (QueryIgnoring.onRequest env request []).2 ->
     exists originResponse b client,
       origin_fetch env 0 (QueryIgnoring.originInit request) = Fulfilled originResponse
       /\ status originResponse = 200
       /\ body originResponse = Some b
       /\ key = QueryIgnoring.cacheKey request
       /\ status entry = 200
       /\ body entry = Some b
       /\ QueryIgnoring.onRequest env request [] =
          (Ok client,
           [EvCacheMatch key; EvFetch (QueryIgnoring.originInit request);
            EvWaitUntil [(key, entry)]])
       /\ status client = 200
       /\ body client = Some b)
  /\ (forall env request originResponse,
        origin_fetch env 0 (QueryIgnoring.originInit request) = Fulfilled originResponse ->
        400 <= status originResponse ->
        cache_puts (QueryIgnoring.onRequest env request []).2 = [])
  /\ (forall w e,
        Coalescing.background_puts (Coalescing.step w e) = Coalescing.background_puts w
        \/ exists t now request p k originResponse copy r,
             e = Coalescing.Resume t now
             /\ Coalescing.tasks w !! t = Some (Coalescing.AwaitingInflight request p)
             /\ Coalescing.promises w !! p =
                Some (Coalescing.mkPromise k (Some (Fulfilled originResponse)))
             /\ (status originResponse = 200 \/ status originResponse = 206)
             /\ Coalescing.background_puts (Coalescing.step w e) =
                Coalescing.background_puts w ++ [(Coalescing.cacheKey request, copy)]
             /\ status copy = status originResponse
             /\ Coalescing.tasks (Coalescing.step w e) !! t = Some (Coalescing.Finished r)
             /\ status r = status originResponse)
  /\ (forall w t now request p k originResponse,
        Coalescing.tasks w !! t = Some (Coalescing.AwaitingInflight request p) ->
        Coalescing.promises w !! p =
          Some (Coalescing.mkPromise k (Some (Fulfilled originResponse))) ->
        400 <= status originResponse ->
        Coalescing.background_puts (Coalescing.step w (Coalescing.Resume t now)) =
        Coalescing.background_puts w).
Proof.
  split; [exact queryIgnoring_puts|]. split; [|split; [exact step_puts|]].
  - intros env request originResponse Ho Hst.
    destruct (cache_puts (QueryIgnoring.onRequest env request []).2)
      as [|[key entry] rest] eqn:Hputs; [done|].
    destruct (queryIgnoring_puts env request key entry)
      as (res & b & client & Ho' & Hst' & _).
    { rewrite Hputs. by constructor. }
    rewrite Ho in Ho'. inversion Ho'; subst. lia.
  - intros w t now request p k originResponse Ht Hp Hst.
    destruct (step_puts w (Coalescing.Resume t now))
      as [H|(t' & now' & request' & p' & k' & res & copy & r & He & Ht' & Hp' & Hs & _)];
      [done|].
    inversion He; subst t' now'.
    rewrite Ht in Ht'. inversion Ht'; subst.
    rewrite Hp in Hp'. inversion Hp'; subst. lia.
Qed.

(** ** Cache hits *)

(** On a hit, part_000 serves the stored status and body with refreshed
    headers, and sends nothing to the origin. *)
Lemma queryIgnoring_hit_refreshed env request stored :
  method request ∈ ["GET"; "HEAD"] ->
  cache_match env (QueryIgnoring.cacheKey request) = Fulfilled (Some stored) ->
  exists r,
    QueryIgnoring.onRequest env request [] =
      (Ok r, [EvCacheMatch (QueryIgnoring.cacheKey request)])
    /\ status r = status stored
    /\ body r = body stored
    /\ hget "CF-Cache-Status" (rheaders r) = Some "HIT"
    /\ forall name value, (name, value) ∈ QueryIgnoring.corsHeaders ->
         hget name (rheaders r) = Some value.
Proof.
  intros Hm Hhit. exists (QueryIgnoring.hitResponse stored).
  rewrite (onRequest_get_or_head env request Hm), Hhit.
  split; [done|]. split; [done|]. split; [done|]. split.
  - unfold QueryIgnoring.hitResponse, hget, hset_all, hset. simpl.
    by repeat (rewrite lookup_insert_ne by done); rewrite lookup_insert_eq.
  - intros name value Hin.
    unfold QueryIgnoring.hitResponse, QueryIgnoring.corsHeaders, hget,
      hset_all, hset in *. simpl.
    repeat (apply elem_of_cons in Hin as [Heq|Hin];
            [inversion Heq; subst; simpl;
             by repeat (rewrite lookup_insert_ne by done); rewrite lookup_insert_eq|]).
    by apply not_elem_of_nil in Hin.
Qed.

(** On a hit, the retrying variant returns the stored response object
    itself: the header copy it marks as a hit is dropped. *)
Lemma middleware_hit_returns_stored env request stored :
  let u := url request in
  method request ∈ ["GET"; "HEAD"] ->
  pathname u <> "/health" -> pathname u <> "/" ->
  endsWith (toLowerCase (pathname u)) ".jpg" = true ->
  truthy (hget "referer" (headers request)) = true ->
  cache_match env (Middleware.cacheKey request) = Fulfilled (Some stored) ->
  Middleware.onRequest env request [] =
  (Ok stored, [EvCacheMatch (Middleware.cacheKey request)]).
Proof.
  intros u Hm Hh Hr Hext Href Hhit. unfold Middleware.onRequest. fold u.
  assert (Hmeth : negb (String.eqb (method request) "GET")
                  && negb (String.eqb (method request) "HEAD") = false).
  { apply elem_of_cons in Hm as [->|Hm]; [done|].
    apply list_elem_of_singleton in Hm as ->. done. }
  rewrite Hmeth.
  destruct (String.eqb_spec (pathname u) "/health") as [|_]; [done|].
  destruct (String.eqb_spec (pathname u) "/") as [|_]; [done|].
  simpl. rewrite Hext. simpl.
  unfold js_or. rewrite Href, Href. simpl.
  unfold try_catch, bind, cacheMatch. rewrite Hhit. reflexivity.
Qed.

Example middleware_miss_then_store :
  let key := Middleware.cacheKey Samples.segment in
  let init := Middleware.originInit "/video/seg-0001.jpg" Samples.segment in
  Middleware.onRequest Samples.fresh Samples.segment [] =
  (Ok Samples.stored,
   [EvCacheMatch key; EvFetch init; EvWaitUntil [(key, Samples.stored)]]).
Proof. reflexivity. Qed.

(** C7 on the retrying variant: after the miss-then-store cycle above, a
    repeat request is a hit; the handler sends nothing to the origin and
    returns the stored entry as it is, with the CF-Cache-Status: MISS it was
    stored with and no refreshed header. *)
Theorem middleware_hit_headers_stale :
  let out := Middleware.onRequest Samples.warm Samples.segment [] in
  out = (Ok Samples.stored, [EvCacheMatch (Middleware.cacheKey Samples.segment)])
  /\ fetches out.2 = 0
  /\ hget "CF-Cache-Status" (rheaders Samples.stored) = Some "MISS"
  /\ hget "Access-Control-Allow-Methods" (rheaders Samples.stored) = None.
Proof. repeat split. Qed.

(** ** Errors *)

Lemma errorResponse_cors (e : JsError) :
  status (QueryIgnoring.errorResponse e) = 500
  /\ body (QueryIgnoring.errorResponse e) =
     Some (JSON_stringify [("error", "Proxy Error"); ("detail", message e)])
  /\ forall name value, (name, value) ∈ QueryIgnoring.corsHeaders ->
       hget name (rheaders (QueryIgnoring.errorResponse e)) = Some value.
Proof.
  split; [done|]. split; [done|].
  intros name value Hin.
  repeat (apply elem_of_cons in Hin as [Heq|Hin];
          [inversion Heq; subst; reflexivity|]).
  by apply not_elem_of_nil in Hin.
Qed.

(** In part_000, a failure of the cache lookup or of the origin fetch inside
    the [try] block becomes the 500 response with the CORS headers, and the
    handler itself never throws. *)
Lemma queryIgnoring_errors_caught env request :
  method request ∈ ["GET"; "HEAD"] ->
  (forall e, cache_match env (QueryIgnoring.cacheKey request) = Rejected e ->
     (QueryIgnoring.onRequest env request []).1 = Ok (QueryIgnoring.errorResponse e))
  /\ (forall e, cache_match env (QueryIgnoring.cacheKey request) = Fulfilled None ->
       origin_fetch env 0 (QueryIgnoring.originInit request) = Rejected e ->
       (QueryIgnoring.onRequest env request []).1 = Ok (QueryIgnoring.errorResponse e))
  /\ exists r, (QueryIgnoring.onRequest env request []).1 = Ok r.
Proof.
  intros Hm. rewrite (onRequest_get_or_head env request Hm).
  split; [|split].
  - by intros e ->.
  - by intros e -> ->.
  - destruct (cache_match env _) as [[stored|]|e]; simpl; eauto.
    destruct (origin_fetch env 0 _) as [res|e]; simpl; eauto.
    destruct (ok res), (body res); simpl; eauto.
Qed.

(** C8 on the retrying variant: with the origin unreachable, the error that
    [fetchWithRetry] throws is caught and answered with status 502 and the
    text of the error, and the response carries no CORS header. *)
Theorem middleware_error_without_cors :
  let out := Middleware.onRequest Samples.unreachable Samples.segment [] in
  exists r,
    out.1 = Ok r
    /\ status r = 502
    /\ body r = Some "Proxy Error: connection refused"
    /\ rheaders r = {["content-type" := "text/plain;charset=UTF-8"]}
    /\ hget "Access-Control-Allow-Origin" (rheaders r) = None.
Proof. eexists. repeat split. Qed.

(** ** Method dispatch *)

Lemma middleware_other_method env request :
  method request ∉ ["GET"; "HEAD"; "OPTIONS"] ->
  Middleware.onRequest env request [] =
  (Ok (text_response id "Method Not Allowed" 405 ∅), []).
Proof.
  intros Hm. unfold Middleware.onRequest.
  destruct (String.eqb_spec (method request) "GET") as [Heq|_].
  { exfalso. apply Hm. rewrite Heq. by constructor. }
  destruct (String.eqb_spec (method request) "HEAD") as [Heq|_].
  { exfalso. apply Hm. rewrite Heq. by repeat constructor. }
  reflexivity.
Qed.

Lemma middleware_health env request :
  method request ∈ ["GET"; "HEAD"] ->
  pathname (url request) ∈ ["/health"; "/"] ->
  Middleware.onRequest env request [] = (Ok (text_response id "OK" 200 ∅), []).
Proof.
  intros Hm Hp. unfold Middleware.onRequest.
  assert (Hmeth : negb (String.eqb (method request) "GET")
                  && negb (String.eqb (method request) "HEAD") = false).
  { apply elem_of_cons in Hm as [->|Hm]; [done|].
    apply list_elem_of_singleton in Hm as ->. done. }
  rewrite Hmeth.
  apply elem_of_cons in Hp as [->|Hp]; [done|].
  apply list_elem_of_singleton in Hp as ->. done.
Qed.

Example middleware_options_rejected :
  (Middleware.onRequest Samples.fresh Samples.options []).1 =
  Ok (text_response id "Method Not Allowed" 405 ∅).
Proof. reflexivity. Qed.

(** C9, as stated, fails on part_000: it has no health-check path, so a GET
    of /health goes through the cache and to the origin, whose answer (here
    a 404) is what the client gets. *)
Lemma queryIgnoring_no_health_check :
  let out := QueryIgnoring.onRequest Samples.missing Samples.health [] in
  exists r,
    out.1 = Ok r
    /\ status r = 404
    /\ body r = Some "not found"
    /\ out.2 = [EvCacheMatch (QueryIgnoring.cacheKey Samples.health);
               EvFetch (QueryIgnoring.originInit Samples.health)].
Proof. eexists. repeat split. Qed.

(** C9 amended: a request whose method is not GET, HEAD or OPTIONS gets 405
    from both variants; in part_000 an OPTIONS request gets 204 with the CORS
    headers and no body; in _middleware.js a GET or HEAD request for /health
    or / gets 200 with body OK.  Each of these answers is given before any
    cache or origin logic runs (the trace is empty). *)
Theorem method_dispatch (env : Env) (request : Request) :
  (method request ∉ ["GET"; "HEAD"; "OPTIONS"] ->
     (exists r, QueryIgnoring.onRequest env request [] = (Ok r, []) /\ status r = 405)
     /\ (exists r, Middleware.onRequest env request [] = (Ok r, []) /\ status r = 405))
  /\ (method request = "OPTIONS" ->
      exists r,
        QueryIgnoring.onRequest env request [] = (Ok r, [])
        /\ status r = 204
        /\ body r = None
        /\ forall name value, (name, value) ∈ QueryIgnoring.corsHeaders ->
             hget name (rheaders r) = Some value)
  /\ (method request ∈ ["GET"; "HEAD"] ->
      pathname (url request) ∈ ["/health"; "/"] ->
      exists r,
        Middleware.onRequest env request [] = (Ok r, [])
        /\ status r = 200
        /\ body r = Some "OK").
Proof.
  split; [|split].
  - intros Hm. split.
    + eexists. by rewrite (onRequest_other_method env request Hm).
    + eexists. by rewrite (middleware_other_method env request Hm).
  - intros Hm. eexists. rewrite (onRequest_options env request Hm).
    split; [done|]. split; [done|]. split; [done|].
    intros name value Hin. simpl.
    repeat (apply elem_of_cons in Hin as [Heq|Hin];
            [inversion Heq; subst; reflexivity|]).
    by apply not_elem_of_nil in Hin.
  - intros Hm Hp. eexists. by rewrite (middleware_health env request Hm Hp).
Qed.

Lemma method_dispatch_witness :
  (exists r, QueryIgnoring.onRequest Samples.fresh Samples.options [] = (Ok r, [])
             /\ status r = 204)
  /\ (exists r, Middleware.onRequest Samples.fresh Samples.health [] = (Ok r, [])
                /\ status r = 200 /\ body r = Some "OK").
Proof.
  split.
  - destruct (proj1 (proj2 (method_dispatch Samples.fresh Samples.options)) eq_refl)
      as (r & Hr & Hs & _).
    exists r. by split.
  - apply (proj2 (proj2 (method_dispatch Samples.fresh Samples.health))).
    + by constructor.
    + by constructor.
Defined.

(** ** The in-flight map of the coalescing variant *)

Section CoalescingRegistry.
Import Coalescing.

Ltac run_piece :=
  unfold run_handler, try_catch, bind, onError, textResponse, forbidden,
    alloc_body, alloc, new_Response, clone, waitUntil_put, join, await,
    ret, throw.

Ltac split_ifs :=
  repeat (match goal with
          | |- context [if ?b then _ else _] => destruct b
          | |- context [match ?o with Some _ => _ | None => _ end] => destruct o
          end; simpl; try done).

(** The pieces before and after the coalescing point leave the map, the
    promises, the subrequest log and the task table alone. *)
Lemma start_frame request w :
  let w' := (run_handler (start request) w).2 in
  inflightRequests w' = inflightRequests w /\ promises w' = promises w
  /\ origin_calls w' = origin_calls w /\ tasks w' = tasks w.
Proof. unfold start. run_piece. split_ifs. Qed.

Lemma afterFetch_frame request now s w :
  let w' := (run_handler (afterFetch request now s) w).2 in
  inflightRequests w' = inflightRequests w /\ promises w' = promises w
  /\ origin_calls w' = origin_calls w /\ tasks w' = tasks w.
Proof.
  unfold afterFetch. run_piece. destruct s as [o|e]; simpl; [|done]. split_ifs.
Qed.

(** The piece that holds the coalescing point: a hit or a failed lookup ends
    the handler; a miss waits on the registered fetch when there is one and
    otherwise sends one subrequest and registers it. *)
Lemma afterCache_spec request ans w :
  let out := run_handler (afterCache request ans) w in
  let k := cacheKeyString request in
  tasks out.2 = tasks w /\
  ((ans <> Fulfilled None
    /\ inflightRequests out.2 = inflightRequests w /\ promises out.2 = promises w
    /\ origin_calls out.2 = origin_calls w
    /\ match out.1 with Finished _ | Failed _ => True | _ => False end)
   \/ (ans = Fulfilled None
       /\ exists p, inflightRequests w !! k = Some p
       /\ inflightRequests out.2 = inflightRequests w /\ promises out.2 = promises w
       /\ origin_calls out.2 = origin_calls w
       /\ out.1 = AwaitingInflight request p)
   \/ (ans = Fulfilled None
       /\ inflightRequests w !! k = None
       /\ inflightRequests out.2 = <[k := length (promises w)]> (inflightRequests w)
       /\ promises out.2 = promises w ++ [mkPromise k None]
       /\ origin_calls out.2 = origin_calls w ++ [(k, originInit request)]
       /\ out.1 = AwaitingInflight request (length (promises w)))).
Proof.
  unfold afterCache. run_piece.
  destruct ans as [[response|]|e]; simpl.
  - split; [split_ifs|]. left. split; [done|]. split_ifs.
  - destruct (inflightRequests w !! cacheKeyString request) as [p|] eqn:Hk; simpl.
    + split; [done|]. right. left. split; [done|]. by exists p.
    + split; [done|]. right. right. done.
  - split; [done|]. left. done.
Qed.

(** Settling a fetch that has not settled removes its key from the map and
    settles its promise the way the fetch did; anything else is ignored. *)
Lemma settle_spec p out w :
  tasks (settle p out w) = tasks w
  /\ origin_calls (settle p out w) = origin_calls w
  /\ match promises w !! p with
     | Some (mkPromise k None) =>
         inflightRequests (settle p out w) = delete k (inflightRequests w)
         /\ exists s,
              promises (settle p out w) = <[p := mkPromise k (Some s)]> (promises w)
              /\ match out with
                 | Fulfilled r => exists r', s = Fulfilled r' /\ status r' = status r
                 | Rejected e => s = Rejected e
                 end
     | _ => settle p out w = w
     end.
Proof.
  unfold settle.
  destruct (promises w !! p) as [[k [s|]]|] eqn:Hp; try done.
  destruct out as [r|e]; simpl.
  - destruct (body r); simpl; repeat split; eauto.
  - repeat split; eauto.
Qed.

Lemma coherent_initial : coherent initial.
Proof.
  split; [|done]. intros k p. unfold in_flight. simpl.
  by rewrite lookup_empty, lookup_nil.
Qed.

Lemma coherent_same w w' :
  inflightRequests w' = inflightRequests w -> promises w' = promises w ->
  origin_calls w' = origin_calls w -> coherent w -> coherent w'.
Proof.
  unfold coherent, in_flight. by intros -> -> ->.
Qed.

Lemma coherent_join w w' k c :
  coherent w ->
  inflightRequests w !! k = None ->
  inflightRequests w' = <[k := length (promises w)]> (inflightRequests w) ->
  promises w' = promises w ++ [mkPromise k None] ->
  origin_calls w' = origin_calls w ++ [(k, c)] ->
  coherent w'.
Proof.
  intros [Hreg Hlog] Hnone Hi Hp Ho. unfold coherent, in_flight in *.
  rewrite Hi, Hp, Ho. split.
  - intros k' p'.
    destruct (decide (p' < length (promises w))) as [Hlt|Hge].
    + rewrite lookup_app_l by done.
      destruct (decide (k = k')) as [<-|Hne].
      * rewrite lookup_insert_eq. split.
        -- intros [= <-]. lia.
        -- intros H. apply Hreg in H. congruence.
      * rewrite lookup_insert_ne by done. apply Hreg.
    + rewrite lookup_app_r by lia.
      destruct (decide (k = k')) as [<-|Hne].
      * rewrite lookup_insert_eq. split.
        -- intros [= <-]. by rewrite Nat.sub_diag.
        -- intros H. destruct (p' - length (promises w)) as [|n] eqn:Hd; [|done].
           f_equal. lia.
      * rewrite lookup_insert_ne by done. split.
        -- intros H. apply Hreg in H. apply lookup_lt_Some in H. lia.
        -- intros H. destruct (p' - length (promises w)) as [|n]; [|done].
           simpl in H. congruence.
  - by rewrite !fmap_app, Hlog.
Qed.

Lemma coherent_settle w p out : coherent w -> coherent (settle p out w).
Proof.
  intros Hc. pose proof Hc as [Hreg Hlog].
  destruct (settle_spec p out w) as (_ & Ho & Hs).
  destruct (promises w !! p) as [[k [s|]]|] eqn:Hp; try by rewrite Hs.
  destruct Hs as (Hi & s & Hps & _).
  unfold coherent, in_flight in *. rewrite Hi, Hps, Ho. split.
  - intros k' p'.
    destruct (decide (p' = p)) as [->|Hpp].
    + rewrite list_lookup_insert_eq by (by apply lookup_lt_Some in Hp).
      split; [|done].
      intros H. destruct (decide (k = k')) as [<-|Hne].
      * by rewrite lookup_delete_eq in H.
      * rewrite lookup_delete_ne in H by done. apply Hreg in H. congruence.
    + rewrite list_lookup_insert_ne by done.
      destruct (decide (k = k')) as [<-|Hne].
      * rewrite lookup_delete_eq. split; [done|].
        intros H. apply Hreg in H. apply Hreg in Hp. congruence.
      * rewrite lookup_delete_ne by done. apply Hreg.
  - rewrite Hlog. rewrite list_fmap_insert. simpl.
    symmetry. apply list_insert_id. by rewrite list_lookup_fmap, Hp.
Qed.

Lemma coherent_step w e : coherent w -> coherent (step w e).
Proof.
  intros Hc. destruct e as [request|t ans|p out|t now]; simpl.
  - pose proof (start_frame request w) as (Hi & Hp & Ho & _).
    destruct (run_handler (start request) w) as [tk w']. simpl in *.
    by apply (coherent_same w).
  - destruct (tasks w !! t) as [[request|request p|r|th]|]; try done.
    pose proof (afterCache_spec request ans w) as (_ & H).
    destruct (run_handler (afterCache request ans) w) as [tk w']. simpl in *.
    destruct H as [(_ & Hi & Hp & Ho & _)|[(_ & p & _ & Hi & Hp & Ho & _)
                                          |(_ & Hn & Hi & Hp & Ho & _)]].
    + by apply (coherent_same w).
    + by apply (coherent_same w).
    + by apply (coherent_join w _ (cacheKeyString request) (originInit request)).
  - by apply coherent_settle.
  - destruct (tasks w !! t) as [[request|request p|r|th]|]; try done.
    destruct (promises w !! p) as [[k [s|]]|]; try done.
    pose proof (afterFetch_frame request now s w) as (Hi & Hp & Ho & _).
    destruct (run_handler (afterFetch request now s) w) as [tk w']. simpl in *.
    by apply (coherent_same w).
Qed.

Lemma coherent_run es : forall w, coherent w -> coherent (run w es).
Proof.
  induction es as [|e es IH]; intros w Hc; [done|].
  simpl. apply IH. by apply coherent_step.
Qed.

Lemma reachable_coherent w : reachable w -> coherent w.
Proof. intros [es ->]. apply coherent_run, coherent_initial. Qed.

End CoalescingRegistry.

(** ** Exactly one subrequest per in-flight window *)

Section CoalescingOnce.
Import Coalescing.

Lemma calls_for_app k w w' k' c :
  origin_calls w' = origin_calls w ++ [(k', c)] ->
  calls_for k w' = calls_for k w + (if decide (k' = k) then 1 else 0).
Proof.
  intros H. unfold calls_for. rewrite H, filter_app, length_app. f_equal.
  destruct (decide (k' = k)) as [->|Hne].
  - rewrite filter_cons_True; [done|]. simpl. by apply bool_decide_pack.
  - rewrite filter_cons_False; [done|]. simpl. intros Hx.
    by apply bool_decide_unpack in Hx.
Qed.

Lemma calls_for_same k w w' :
  origin_calls w' = origin_calls w -> calls_for k w' = calls_for k w.
Proof. unfold calls_for. by intros ->. Qed.

Lemma registered_same k w w' :
  inflightRequests w' = inflightRequests w -> registered k w' = registered k w.
Proof. unfold registered. by intros ->. Qed.

Ltac same_registry w :=
  match goal with
  | |- calls_for ?k ?a + _ = _ + registered ?k ?a =>
      rewrite (calls_for_same k w a), (registered_same k w a) by done; done
  end.

(** A subrequest is sent only by a handler that finds no entry for its key,
    and that handler registers its fetch. *)
Lemma step_starts_fetch w e :
  origin_calls (step w e) = origin_calls w
  \/ exists t request,
       e = CacheAnswers t (Fulfilled None)
       /\ tasks w !! t = Some (AwaitingCache request)
       /\ inflightRequests w !! cacheKeyString request = None
       /\ origin_calls (step w e) =
          origin_calls w ++ [(cacheKeyString request, originInit request)]
       /\ inflightRequests (step w e) !! cacheKeyString request =
          Some (length (promises w)).
Proof.
  destruct e as [request|t ans|p out|t now]; simpl.
  - left. pose proof (start_frame request w) as (_ & _ & Ho & _).
    by destruct (run_handler (start request) w).
  - destruct (tasks w !! t) as [[request|request p|r|th]|] eqn:Ht; try by left.
    pose proof (afterCache_spec request ans w) as (_ & H).
    destruct (run_handler (afterCache request ans) w) as [tk w']. simpl in *.
    destruct H as [(_ & _ & _ & Ho & _)|[(_ & p & _ & _ & _ & Ho & _)
                                        |(-> & Hn & Hi & _ & Ho & _)]].
    + by left.
    + by left.
    + right. exists t, request. rewrite Hi, lookup_insert_eq. done.
  - left. apply settle_spec.
  - destruct (tasks w !! t) as [[request|request p|r|th]|]; try by left.
    destruct (promises w !! p) as [[k [s|]]|]; try by left.
    left. pose proof (afterFetch_frame request now s w) as (_ & _ & Ho & _).
    by destruct (run_handler (afterFetch request now s) w).
Qed.

(** While no fetch for [k] settles, subrequests for [k] and entries for [k]
    go together. *)
Lemma calls_step k w e :
  coherent w ->
  match e with
  | OriginSettles p _ => pkey <$> promises w !! p <> Some k
  | _ => True
  end ->
  calls_for k (step w e) + registered k w = calls_for k w + registered k (step w e).
Proof.
  intros Hc Hq. destruct e as [request|t ans|p out|t now]; simpl.
  - pose proof (start_frame request w) as (Hi & _ & Ho & _).
    destruct (run_handler (start request) w) as [tk w']. simpl in *.
    same_registry w.
  - destruct (tasks w !! t) as [[request|request p|r|th]|] eqn:Ht; try done.
    pose proof (afterCache_spec request ans w) as (_ & H).
    destruct (run_handler (afterCache request ans) w) as [tk w']. simpl in *.
    destruct H as [(_ & Hi & _ & Ho & _)|[(_ & p & _ & Hi & _ & Ho & _)
                                        |(_ & Hn & Hi & _ & Ho & _)]].
    + same_registry w.
    + same_registry w.
    + match goal with
      | |- calls_for ?k ?a + _ = _ => rewrite (calls_for_app k w a _ _ Ho)
      end.
      unfold registered. simpl. rewrite Hi.
      destruct (decide (cacheKeyString request = k)) as [<-|Hne].
      * rewrite Hn, lookup_insert_eq. lia.
      * rewrite lookup_insert_ne by done. lia.
  - destruct (settle_spec p out w) as (_ & Ho & Hs).
    rewrite (calls_for_same k w) by done. f_equal.
    destruct (promises w !! p) as [[k' [s|]]|] eqn:Hp; try by rewrite Hs.
    destruct Hs as (Hi & _). unfold registered. rewrite Hi.
    rewrite lookup_delete_ne; [done|]. intros ->. by apply Hq.
  - destruct (tasks w !! t) as [[request|request p|r|th]|]; try done.
    destruct (promises w !! p) as [[k' [s|]]|]; try done.
    pose proof (afterFetch_frame request now s w) as (Hi & _ & Ho & _).
    destruct (run_handler (afterFetch request now s) w) as [tk w']. simpl in *.
    same_registry w.
Qed.

Lemma calls_run k es :
  forall w, coherent w -> quiet k w es ->
  calls_for k (run w es) + registered k w = calls_for k w + registered k (run w es).
Proof.
  induction es as [|e es IH]; intros w Hc Hq; [done|].
  destruct Hq as [He Hq]. simpl.
  pose proof (calls_step k w e Hc He).
  pose proof (IH (step w e) (coherent_step w e Hc) Hq).
  lia.
Qed.

End CoalescingOnce.

Section CoalescingWaiters.
Import Coalescing.

Lemma tracked_ext k w w' t :
  tasks w' !! t = tasks w !! t ->
  (forall p, in_flight w k p -> in_flight w' k p) ->
  tracked k w t -> tracked k w' t.
Proof.
  unfold tracked. intros -> Hp.
  destruct (tasks w !! t) as [[request|request p|r|th]|]; auto.
Qed.

Lemma tracked_is_task k w t : tracked k w t -> t < length (tasks w).
Proof.
  unfold tracked. destruct (tasks w !! t) eqn:Ht; [|done].
  intros _. by apply lookup_lt_Some in Ht.
Qed.

(** While no fetch for [k] settles, a task that has passed the coalescing
    point for [k] keeps waiting on a fetch that has not settled. *)
Lemma tracked_step k w e t :
  coherent w ->
  match e with
  | OriginSettles p _ => pkey <$> promises w !! p <> Some k
  | _ => True
  end ->
  tracked k w t -> tracked k (step w e) t.
Proof.
  intros Hc Hq Ht. pose proof (tracked_is_task k w t Ht) as Hlt.
  destruct e as [request|t' ans|p' out|t' now]; simpl.
  - pose proof (start_frame request w) as (_ & Hp & _ & Hts).
    destruct (run_handler (start request) w) as [tk w']. simpl in *.
    apply (tracked_ext k w); [|by unfold in_flight; simpl; rewrite Hp|done].
    simpl. rewrite Hts. by apply lookup_app_l.
  - destruct (tasks w !! t') as [[request|request p|r|th]|] eqn:Ht'; try done.
    pose proof (afterCache_spec request ans w) as (Hts & H).
    destruct (run_handler (afterCache request ans) w) as [tk w']. simpl in *.
    assert (Hmono : forall p, in_flight w k p -> in_flight w' k p).
    { unfold in_flight.
      destruct H as [(_ & _ & Hp & _)|[(_ & p & _ & _ & Hp & _)
                                      |(_ & _ & _ & Hp & _)]]; rewrite Hp; try done.
      intros p Hin. rewrite lookup_app_l; [done|]. by apply lookup_lt_Some in Hin. }
    destruct (decide (t = t')) as [->|Hne].
    + unfold tracked in *. simpl. rewrite Hts.
      rewrite list_lookup_insert_eq by done. rewrite Ht' in Ht.
      destruct H as [(_ & _ & _ & _ & Hdone)|[(_ & p & Hk & _ & Hp & _ & ->)
                                             |(_ & _ & _ & Hp & _ & ->)]].
      * by destruct tk.
      * unfold in_flight. simpl. rewrite Hp. rewrite Ht in Hk. by apply Hc.
      * unfold in_flight. simpl. rewrite Hp, Ht.
        rewrite lookup_app_r by done. by rewrite Nat.sub_diag.
    + apply (tracked_ext k w); [|done|done].
      simpl. rewrite Hts. by apply list_lookup_insert_ne.
  - destruct (settle_spec p' out w) as (Hts & _ & Hs).
    apply (tracked_ext k w); [by rewrite Hts| |done].
    destruct (promises w !! p') as [[k' [s|]]|] eqn:Hp'; try by rewrite Hs.
    destruct Hs as (_ & s & Hps & _). unfold in_flight. rewrite Hps.
    intros p Hin. rewrite list_lookup_insert_ne; [done|].
    intros ->. rewrite Hp' in Hin. inversion Hin; subst. by apply Hq.
  - destruct (tasks w !! t') as [[request|request p|r|th]|] eqn:Ht'; try done.
    destruct (promises w !! p) as [[k' [s|]]|] eqn:Hp; try done.
    pose proof (afterFetch_frame request now s w) as (_ & Hps & _ & Hts).
    destruct (run_handler (afterFetch request now s) w) as [tk w']. simpl in *.
    destruct (decide (t = t')) as [->|Hne].
    + unfold tracked, in_flight in Ht. rewrite Ht' in Ht. congruence.
    + apply (tracked_ext k w); [|by unfold in_flight; simpl; rewrite Hps|done].
      simpl. rewrite Hts. by apply list_lookup_insert_ne.
Qed.

Lemma tracked_run k t es :
  forall w, coherent w -> quiet k w es -> tracked k w t ->
  tracked k (run w es) t.
Proof.
  induction es as [|e es IH]; intros w Hc Hq Ht; [done|].
  destruct Hq as [He Hq].
  simpl. apply IH; [by apply coherent_step|done|by apply tracked_step].
Qed.

(** A handler that is told of a miss waits on the fetch registered under its
    key. *)
Lemma miss_joins w t request :
  tasks w !! t = Some (AwaitingCache request) ->
  exists p,
    tasks (step w (CacheAnswers t (Fulfilled None))) !! t =
      Some (AwaitingInflight request p)
    /\ inflightRequests (step w (CacheAnswers t (Fulfilled None)))
         !! cacheKeyString request = Some p.
Proof.
  intros Ht. simpl. rewrite Ht.
  pose proof (afterCache_spec request (Fulfilled None) w) as (Hts & H).
  destruct (run_handler (afterCache request (Fulfilled None)) w) as [tk w'].
  simpl in *.
  assert (Hlt : t < length (tasks w')).
  { rewrite Hts. by apply lookup_lt_Some in Ht. }
  destruct H as [(Hne & _)|[(_ & p & Hk & Hi & _ & _ & ->)
                           |(_ & _ & Hi & _ & _ & ->)]]; [done| |].
  - exists p. rewrite list_lookup_insert_eq by done. by rewrite Hi.
  - eexists. rewrite list_lookup_insert_eq by done.
    by rewrite Hi, lookup_insert_eq.
Qed.

(** When a fetch that has not settled does, its key leaves the map and its
    promise settles the same way. *)
Lemma settle_removes w k p out :
  coherent w -> in_flight w k p ->
  inflightRequests (step w (OriginSettles p out)) !! k = None
  /\ exists s,
       promises (step w (OriginSettles p out)) !! p = Some (mkPromise k (Some s))
       /\ match out with
          | Fulfilled r => exists r', s = Fulfilled r' /\ status r' = status r
          | Rejected e => s = Rejected e
          end.
Proof.
  intros Hc Hin. simpl. destruct (settle_spec p out w) as (_ & _ & Hs).
  unfold in_flight in Hin. rewrite Hin in Hs. destruct Hs as (Hi & s & Hps & Hout).
  rewrite Hi, lookup_delete_eq. split; [done|]. exists s. split; [|done].
  rewrite Hps. apply list_lookup_insert_eq. by apply lookup_lt_Some in Hin.
Qed.

End CoalescingWaiters.

(** C1, as stated, fails: two requests with the same key have arrived
    together and wait for the cache, which has no entry, and the in-flight
    map is empty.  The first misses and starts the fetch; the fetch settles,
    and its [finally] block removes the entry, before the cache answers the
    second.  Nothing has been written to the cache, so the second misses
    too, finds no entry in the map and starts a fetch of its own: the origin
    is called twice for the key, and the two handlers wait on different
    fetches. *)
Lemma coalescing_refetch_after_settle :
  let k := Coalescing.cacheKeyString Samples.segment in
  let w := Samples.two_arrived in
  let w' := Coalescing.run w (Samples.late_miss (Fulfilled Samples.served)) in
  Coalescing.reachable w
  /\ Coalescing.tasks w = [Coalescing.AwaitingCache Samples.segment;
                           Coalescing.AwaitingCache Samples.segment]
  /\ Coalescing.inflightRequests w !! k = None
  /\ Coalescing.calls_for k w = 0
  /\ Coalescing.background_puts w' = []
  /\ Coalescing.calls_for k w' = 2
  /\ Coalescing.waits_on w' 0 0
  /\ Coalescing.waits_on w' 1 1.
Proof.
  intros k w w'. split; [eexists; reflexivity|].
  repeat (split; [reflexivity|]).
  split; exists Samples.segment; reflexivity.
Qed.

(** C1 amended: in every world the handlers can reach, the in-flight map
    holds exactly the fetches that have not settled, so at most one per key;
    a subrequest is sent only by a handler that finds no entry for its key,
    while a handler that finds one waits on it; when a fetch settles,
    fulfilled or rejected, its entry is removed.  Hence, for requests with
    the same key that are waiting for the cache while the map has no entry
    for the key, and any schedule in which no fetch for that key settles:
    once at least one of them waits at the coalescing point, the origin has
    been called exactly once for the key, and all of them that wait, wait on
    that one fetch. *)
Theorem coalescing_single_flight :
  (forall w, Coalescing.reachable w ->
     (forall k p, Coalescing.inflightRequests w !! k = Some p
                  <-> Coalescing.in_flight w k p)
     /\ (forall k p1 p2, Coalescing.in_flight w k p1 ->
                         Coalescing.in_flight w k p2 -> p1 = p2))
  /\ (forall w e,
        Coalescing.origin_calls (Coalescing.step w e) = Coalescing.origin_calls w
        \/ exists t request,
             e = Coalescing.CacheAnswers t (Fulfilled None)
             /\ Coalescing.tasks w !! t = Some (Coalescing.AwaitingCache request)
             /\ Coalescing.inflightRequests w !! Coalescing.cacheKeyString request = None
             /\ Coalescing.origin_calls (Coalescing.step w e) =
                Coalescing.origin_calls w ++
                [(Coalescing.cacheKeyString request, Coalescing.originInit request)]
             /\ Coalescing.inflightRequests (Coalescing.step w e)
                  !! Coalescing.cacheKeyString request =
                Some (length (Coalescing.promises w)))
  /\ (forall w t request,
        Coalescing.tasks w !! t = Some (Coalescing.AwaitingCache request) ->
        exists p,
          Coalescing.tasks (Coalescing.step w (Coalescing.CacheAnswers t (Fulfilled None)))
            !! t = Some (Coalescing.AwaitingInflight request p)
          /\ Coalescing.inflightRequests
               (Coalescing.step w (Coalescing.CacheAnswers t (Fulfilled None)))
               !! Coalescing.cacheKeyString request = Some p)
  /\ (forall w k p out,
        Coalescing.reachable w -> Coalescing.in_flight w k p ->
        Coalescing.inflightRequests (Coalescing.step w (Coalescing.OriginSettles p out))
          !! k = None
        /\ exists s,
             Coalescing.promises (Coalescing.step w (Coalescing.OriginSettles p out))
               !! p = Some (Coalescing.mkPromise k (Some s))
             /\ match out with
                | Fulfilled r => exists r', s = Fulfilled r' /\ status r' = status r
                | Rejected e => s = Rejected e
                end)
  /\ (forall w k (ts : list nat) es,
        Coalescing.reachable w ->
        Coalescing.inflightRequests w !! k = None ->
        (forall t, t ∈ ts ->
           exists request,
             Coalescing.tasks w !! t = Some (Coalescing.AwaitingCache request)
             /\ Coalescing.cacheKeyString request = k) ->
        Coalescing.quiet k w es ->
        (exists t p, t ∈ ts /\ Coalescing.waits_on (Coalescing.run w es) t p) ->
        Coalescing.calls_for k (Coalescing.run w es) = Coalescing.calls_for k w + 1
        /\ exists p,
             Coalescing.inflightRequests (Coalescing.run w es) !! k = Some p
             /\ Coalescing.in_flight (Coalescing.run w es) k p
             /\ forall t p', t ∈ ts ->
                  Coalescing.waits_on (Coalescing.run w es) t p' -> p' = p).
Proof.
  split; [|split; [exact step_starts_fetch|split; [exact miss_joins|split]]].
  - intros w Hr. destruct (reachable_coherent w Hr) as [Hreg _].
    split; [exact Hreg|].
    intros k p1 p2 H1 H2. apply Hreg in H1, H2. congruence.
  - intros w k p out Hr. apply settle_removes. by apply reachable_coherent.
  - intros w k ts es Hr Hnone Hts Hq (t0 & p0 & Hin0 & Hw0).
    pose proof (reachable_coherent w Hr) as Hc.
    pose proof (coherent_run es w Hc) as Hc'.
    assert (Htr : forall t p', t ∈ ts ->
              Coalescing.waits_on (Coalescing.run w es) t p' ->
              Coalescing.in_flight (Coalescing.run w es) k p').
    { intros t p' Hin [request Hw].
      assert (Ht : Coalescing.tracked k w t).
      { destruct (Hts t Hin) as (rq & Hrq & Hk).
        unfold Coalescing.tracked. by rewrite Hrq. }
      pose proof (tracked_run k t es w Hc Hq Ht) as Ht'.
      unfold Coalescing.tracked in Ht'. by rewrite Hw in Ht'. }
    pose proof (Htr t0 p0 Hin0 Hw0) as Hp0.
    assert (Hreg0 : Coalescing.inflightRequests (Coalescing.run w es) !! k = Some p0)
      by (by apply Hc').
    split.
    + pose proof (calls_run k es w Hc Hq) as H.
      unfold Coalescing.registered in H. rewrite Hnone, Hreg0 in H. lia.
    + exists p0. split; [done|]. split; [done|].
      intros t p' Hin Hw. pose proof (Htr t p' Hin Hw) as Hp'.
      apply Hc' in Hp'. congruence.
Qed.

Lemma coalescing_single_flight_witness :
  let k := Coalescing.cacheKeyString Samples.segment in
  let w := Samples.three_arrived in
  let w' := Coalescing.run w Samples.three_misses in
  Coalescing.calls_for k w = 0
  /\ Coalescing.calls_for k w' = 1
  /\ forall t p', t ∈ [0; 1; 2] -> Coalescing.waits_on w' t p' -> p' = 0.
Proof.
  intros k w w'.
  assert (Hr : Coalescing.reachable w) by (eexists; reflexivity).
  assert (Hnone : Coalescing.inflightRequests w !! k = None) by reflexivity.
  assert (Hts : forall t, t ∈ [0; 1; 2] ->
            exists request,
              Coalescing.tasks w !! t = Some (Coalescing.AwaitingCache request)
              /\ Coalescing.cacheKeyString request = k).
  { intros t Hin. exists Samples.segment.
    apply elem_of_cons in Hin as [->|Hin]; [by split|].
    apply elem_of_cons in Hin as [->|Hin]; [by split|].
    apply list_elem_of_singleton in Hin as ->. by split. }
  assert (Hq : Coalescing.quiet k w Samples.three_misses) by (simpl; tauto).
  assert (Hw : exists t p, t ∈ [0; 1; 2] /\ Coalescing.waits_on w' t p).
  { exists 0, 0. split; [by constructor|]. by exists Samples.segment. }
  destruct (proj2 (proj2 (proj2 (proj2 coalescing_single_flight)))
              w k [0; 1; 2] Samples.three_misses Hr Hnone Hts Hq Hw)
    as (Hcalls & p & Hreg & _ & Hall).
  split; [reflexivity|]. split; [exact Hcalls|].
  intros t p' Hin Hwait. rewrite (Hall t p' Hin Hwait).
  vm_compute in Hreg. by inversion Hreg.
Defined.

(** ** What the coalesced callers receive *)

(** A rejected fetch reaches every handler that waits on it: each one
    answers 500 with the text of the error. *)
Lemma rejection_delivered w t request p k e now :
  Coalescing.tasks w !! t = Some (Coalescing.AwaitingInflight request p) ->
  Coalescing.promises w !! p = Some (Coalescing.mkPromise k (Some (Rejected e))) ->
  let w' := Coalescing.step w (Coalescing.Resume t now) in
  exists r,
    Coalescing.tasks w' !! t = Some (Coalescing.Finished r)
    /\ status r = 500
    /\ Coalescing.content w' r = Some ("CDN Error: " +:+ message e).
Proof.
  intros Ht Hp. simpl. rewrite Ht, Hp. simpl.
  eexists. split; [|split].
  - apply list_lookup_insert_eq. by apply lookup_lt_Some in Ht.
  - reflexivity.
  - unfold Coalescing.content. simpl.
    rewrite lookup_app_r by done. by rewrite Nat.sub_diag.
Qed.

Example coalesced_rejection :
  let w := Coalescing.run Coalescing.initial
             (Samples.two_coalesced (Rejected (mkError "reset"))) in
  length (Coalescing.origin_calls w) = 1
  /\ (Coalescing.content w <$> (Coalescing.tasks w ≫= fun tk =>
        match tk with Coalescing.Finished r => [r] | _ => [] end))
     = [Some "CDN Error: reset"; Some "CDN Error: reset"].
Proof. split; reflexivity. Qed.

(** C2 on the coalescing variant: two requests for the same segment miss the
    cache and are coalesced onto one origin fetch, which answers 200 with
    the body [bytes].  The handler that resumes first clones its response
    for the cache, which locks the origin body they share; it returns 200
    with the body.  The second handler cannot build a response from the
    locked body: the error is caught and it returns 500 with an error
    text. *)
Theorem coalesced_follower_gets_error :
  let w := Coalescing.run Coalescing.initial
             (Samples.two_coalesced (Fulfilled Samples.served)) in
  length (Coalescing.origin_calls w) = 1
  /\ (exists r0,
        Coalescing.tasks w !! 0 = Some (Coalescing.Finished r0)
        /\ status r0 = 200
        /\ Coalescing.content w r0 = Some "bytes")
  /\ (exists r1,
        Coalescing.tasks w !! 1 = Some (Coalescing.Finished r1)
        /\ status r1 = 500
        /\ Coalescing.content w r1 =
           Some "CDN Error: This ReadableStream is currently locked to a reader.").
Proof.
  split; [reflexivity|]. split; eexists; repeat split.
Qed.

Lemma cache_write_policy_witness :
  let out := QueryIgnoring.onRequest Samples.fresh Samples.segmentA [] in
  exists key entry,
    cache_puts out.2 = [(key, entry)]
    /\ kurl key = "https://cdn.example.com/segment001.ts"
    /\ status entry = 200
    /\ body entry = Some "bytes".
Proof.
  intros out.
  destruct (cache_puts out.2) as [|[key entry] rest] eqn:Hputs;
    [vm_compute in Hputs; discriminate|].
  assert (Hin : (key, entry) ∈ cache_puts out.2)
    by (rewrite Hputs; constructor).
  destruct (proj1 cache_write_policy Samples.fresh Samples.segmentA key entry Hin)
    as (res & b & client & Ho & Hst & Hb & Hk & Hse & Hbe & _).
  exists key, entry.
  assert (rest = []) as -> by (vm_compute in Hputs; by inversion Hputs).
  split; [reflexivity|]. split; [by rewrite Hk|]. split; [exact Hse|].
  rewrite Hbe. vm_compute in Ho. inversion Ho; subst res.
  vm_compute in Hb. by inversion Hb.
Defined.


(** * Further properties of the handlers *)

(** Writes the lower-case form of the literal header names. *)
Ltac lower_names :=
  repeat match goal with
         | |- context [toLowerCase ?s] =>
             let v := eval vm_compute in (toLowerCase s) in
             progress change (toLowerCase s) with v
         end.

(** Looks a literal header name up in a stack of [hset] and [hdelete]. *)
Ltac hlookup :=
  unfold carries, hget, hhas, hset_all, hdelete_all, hset, hdelete, headers_of;
  simpl;
  repeat first [rewrite lookup_insert_ne by done
               |rewrite lookup_delete_ne by done];
  first [by rewrite lookup_insert_eq | by rewrite lookup_delete_eq | done].

(** ** src/functions/_middleware.js *)

Lemma retry_loop_from env init n last tr :
  fetches tr = 0 ->
  Middleware.retry_loop env init n 0 last tr =
  ((Middleware.retry_loop env init n 0 last []).1,
   tr ++ (Middleware.retry_loop env init n 0 last []).2).
Proof.
  intros Htr.
  destruct (retry_loop_cases env init n last)
    as (f & Hf & Hpre & [(Hlt & res & Ho & Hs & Hrun)|(-> & Hrun)]).
  - rewrite Hrun. simpl.
    by rewrite (retry_loop_succeeds env init f n 0 last tr res).
  - rewrite Hrun. simpl.
    by rewrite (retry_loop_exhausted env init n 0 last tr).
Qed.

(** [fetchWithRetry] throws an error, never [undefined]. *)
Lemma fetchWithRetry_throws_error env path request t :
  (Middleware.fetchWithRetry env path request []).1 = Throw t ->
  exists e, t = Err e.
Proof.
  unfold Middleware.fetchWithRetry.
  destruct (retry_loop_cases env (Middleware.originInit path request)
              Middleware.MAX_RETRIES Undefined)
    as (f & Hf & Hpre & [(Hlt & res & Ho & Hs & Hrun)|(_ & Hrun)]);
    rewrite Hrun; simpl; [done|].
  intros [= <-]. unfold Middleware.attempt_error.
  destruct (origin_fetch env 2 _); eauto.
Qed.

Lemma passes_guards_spec request :
  passes_guards request = true ->
  (negb (String.eqb (method request) "GET")
   && negb (String.eqb (method request) "HEAD")) = false
  /\ (String.eqb (pathname (url request)) "/health"
      || String.eqb (pathname (url request)) "/") = false
  /\ (negb (endsWith (toLowerCase (pathname (url request))) ".jpg")
      && negb (endsWith (toLowerCase (pathname (url request))) ".jpeg")) = false
  /\ negb (truthy (js_or (hget "referer" (headers request))
                         (hget "referrer" (headers request)))) = false.
Proof.
  unfold passes_guards. intros H.
  repeat (apply andb_true_iff in H as [H ?]).
  repeat split.
  - by destruct (String.eqb (method request) "GET"),
               (String.eqb (method request) "HEAD").
  - by apply negb_true_iff.
  - by destruct (endsWith _ ".jpg"), (endsWith _ ".jpeg").
  - by apply negb_false_iff.
Qed.

(** What the handler does with a request that passes its guards. *)
Lemma middleware_admitted env request :
  passes_guards request = true ->
  let u := url request in
  let key := Middleware.cacheKey request in
  Middleware.onRequest env request [] =
  match cache_match env key with
  | Rejected e =>
      (Ok (text_response id ("Proxy Error: " +:+ message e) 502 ∅),
       [EvCacheMatch key])
  | Fulfilled (Some stored) => (Ok stored, [EvCacheMatch key])
  | Fulfilled None =>
      let out := Middleware.fetchWithRetry env (pathname u +:+ search u) request [] in
      let tr := EvCacheMatch key :: out.2 in
      match out.1 with
      | Throw (Err e) =>
          (Ok (text_response id ("Proxy Error: " +:+ message e) 502 ∅), tr)
      | Throw Undefined =>
          (Throw (Err (mkError "Cannot read properties of undefined")), tr)
      | Ok res =>
          if negb (ok res) then (Ok res, tr)
          else
            let rh := Middleware.responseHeaders u res in
            match body res with
            | None =>
                (Ok {| status := status res; statusText := ""; rheaders := rh;
                       body := None |}, tr)
            | Some b =>
                let client := {| status := status res;
                                 statusText := statusText res;
                                 rheaders := rh; body := Some b |} in
                (Ok client,
                 tr ++ (if status res =? 200 then [EvWaitUntil [(key, client)]]
                        else []))
            end
      end
  end.
Proof.
  intros Hg u key. destruct (passes_guards_spec request Hg) as (H1 & H2 & H3 & H4).
  subst u key. unfold Middleware.onRequest. cbv zeta. rewrite H1, H2, H3, H4.
  unfold try_catch, bind, cacheMatch. simpl.
  set (key := Middleware.cacheKey request).
  destruct (cache_match env key) as [[stored|]|e]; simpl; try reflexivity.
  unfold Middleware.fetchWithRetry.
  rewrite (retry_loop_from env _ _ _ [EvCacheMatch key]) by reflexivity.
  destruct (Middleware.retry_loop env _ Middleware.MAX_RETRIES 0 Undefined [])
    as [[res|[|e]] tr]; simpl; try reflexivity.
  destruct (ok res); simpl; [|reflexivity].
  destruct (body res) as [b|]; simpl; [|reflexivity].
  destruct (status res =? 200); simpl; [reflexivity|].
  by rewrite app_nil_r.
Qed.

Lemma fetchWithRetry_exhausted env path request :
  (forall k, k < Middleware.MAX_RETRIES ->
     Middleware.retried
       (origin_fetch env k (Middleware.originInit path request)) = true) ->
  exists e,
    Middleware.attempt_error
      (origin_fetch env 2 (Middleware.originInit path request)) = Err e
    /\ Middleware.fetchWithRetry env path request [] =
       (Throw (Err e),
        Middleware.failed_rounds (Middleware.originInit path request) 0 3).
Proof.
  intros Hall. unfold Middleware.fetchWithRetry.
  rewrite (retry_loop_exhausted env _ Middleware.MAX_RETRIES 0 Undefined []);
    [|reflexivity|by intros j Hj; apply Hall].
  simpl. unfold Middleware.attempt_error.
  destruct (origin_fetch env 2 _); eauto.
Qed.

(** The guards of _middleware.js, case by case. *)
Lemma middleware_guards_cases (env : Env) (request : Request) :
  let out := Middleware.onRequest env request [] in
  (out.2 = [] <-> passes_guards request = false)
  /\ (passes_guards request = false ->
      exists r, out.1 = Ok r
                /\ (status r = 405 \/ status r = 200 \/ status r = 403)).
Proof.
  intros out. destruct (passes_guards request) eqn:Hg.
  - split; [|done]. split; [|done].
    unfold out. rewrite (middleware_admitted env request Hg).
    destruct (cache_match env _) as [[stored|]|e]; simpl; try done.
    destruct (Middleware.fetchWithRetry env _ request []) as [[res|[|e]] tr];
      simpl; try done.
    destruct (ok res); simpl; [|done]. by destruct (body res).
  - assert (H : out.2 = []
                /\ exists r, out.1 = Ok r
                   /\ (status r = 405 \/ status r = 200 \/ status r = 403)).
    { unfold out, Middleware.onRequest. cbv zeta.
      destruct (negb (String.eqb (method request) "GET")
                && negb (String.eqb (method request) "HEAD")) eqn:H1.
      { split; [reflexivity|]. eexists. split; [reflexivity|].
        cbn [status text_response]. auto. }
      destruct (String.eqb (pathname (url request)) "/health"
                || String.eqb (pathname (url request)) "/") eqn:H2.
      { split; [reflexivity|]. eexists. split; [reflexivity|].
        cbn [status text_response]. auto. }
      destruct (negb (endsWith (toLowerCase (pathname (url request))) ".jpg")
                && negb (endsWith (toLowerCase (pathname (url request))) ".jpeg"))
        eqn:H3.
      { split; [reflexivity|]. eexists. split; [reflexivity|].
        cbn [status text_response]. auto. }
      destruct (negb (truthy (js_or (hget "referer" (headers request))
                                    (hget "referrer" (headers request))))) eqn:H4.
      { split; [reflexivity|]. eexists. split; [reflexivity|].
        cbn [status text_response]. auto. }
      exfalso. unfold passes_guards in Hg. cbv zeta in Hg. rewrite H2 in Hg.
      destruct (String.eqb (method request) "GET"),
               (String.eqb (method request) "HEAD"),
               (endsWith (toLowerCase (pathname (url request))) ".jpg"),
               (endsWith (toLowerCase (pathname (url request))) ".jpeg"),
               (truthy (js_or (hget "referer" (headers request))
                              (hget "referrer" (headers request))));
        cbn [negb andb orb] in *; discriminate. }
    destruct H as [Htr Hr]. split; [by split|]. by intros _.
Qed.

(** The cache and the origin are reached by exactly the requests that pass
    the guards; any other request is answered at once with 405, 200 or 403. *)
Theorem middleware_guards (env : Env) (request : Request) :
  let out := Middleware.onRequest env request [] in
  (out.2 = [] <-> passes_guards request = false)
  /\ (passes_guards request = false ->
      exists r, out.1 = Ok r
                /\ (status r = 405 \/ status r = 200 \/ status r = 403)).
Proof. exact (middleware_guards_cases env request). Qed.

(** The handler always answers: a failed cache lookup, and an origin that
    fails on all three attempts, both end in a 502 whose text carries the
    message of the (last) error; nothing is written to the cache. *)
Theorem middleware_always_answers (env : Env) (request : Request) :
  let out := Middleware.onRequest env request [] in
  let key := Middleware.cacheKey request in
  let init := Middleware.originInit
                (pathname (url request) +:+ search (url request)) request in
  (exists r, out.1 = Ok r)
  /\ (passes_guards request = true ->
      forall e, cache_match env key = Rejected e ->
      out = (Ok (text_response id ("Proxy Error: " +:+ message e) 502 ∅),
             [EvCacheMatch key]))
  /\ (passes_guards request = true ->
      cache_match env key = Fulfilled None ->
      (forall k, k < Middleware.MAX_RETRIES ->
         Middleware.retried (origin_fetch env k init) = true) ->
      exists e,
        Middleware.attempt_error (origin_fetch env 2 init) = Err e
        /\ out.1 = Ok (text_response id ("Proxy Error: " +:+ message e) 502 ∅)
        /\ fetches out.2 = 3
        /\ cache_puts out.2 = []).
Proof.
  intros out key init. split; [|split].
  - destruct (passes_guards request) eqn:Hg.
    + unfold out. rewrite (middleware_admitted env request Hg).
      destruct (cache_match env _) as [[stored|]|e]; simpl; eauto.
      destruct (Middleware.fetchWithRetry env _ request []) as [[res|t] tr] eqn:Hrun;
        simpl.
      * destruct (ok res); simpl; eauto. destruct (body res); simpl; eauto.
      * destruct (fetchWithRetry_throws_error env
                    (pathname (url request) +:+ search (url request)) request t)
          as [e ->]; [by rewrite Hrun|]. eauto.
    + destruct (middleware_guards_cases env request) as [_ H].
      destruct (H Hg) as (r & Hr & _). eauto.
  - intros Hg e He. unfold out.
    rewrite (middleware_admitted env request Hg). fold key. by rewrite He.
  - intros Hg Hmiss Hall. unfold out.
    rewrite (middleware_admitted env request Hg). fold key. rewrite Hmiss.
    destruct (fetchWithRetry_exhausted env
                (pathname (url request) +:+ search (url request)) request Hall)
      as (e & He & Hrun).
    exists e. split; [exact He|]. rewrite Hrun. simpl. repeat split.
Qed.

(** The retry loop up to the first attempt that is not retried. *)
Lemma retry_first_answer (env : Env) (path : string)
    (request : Request) (f : nat) (res : Resp) :
  let init := Middleware.originInit path request in
  f < Middleware.MAX_RETRIES ->
  (forall j, j < f -> Middleware.retried (origin_fetch env j init) = true) ->
  origin_fetch env f init = Fulfilled res ->
  status res < 500 ->
  Middleware.fetchWithRetry env path request [] =
    (Ok res, Middleware.failed_rounds init 0 f ++ [EvFetch init])
  /\ fetches (Middleware.fetchWithRetry env path request []).2 = f + 1.
Proof.
  intros init Hf Hpre Ho Hst. subst init.
  set (init := Middleware.originInit path request) in *.
  assert (Hrun : Middleware.fetchWithRetry env path request [] =
                 (Ok res, Middleware.failed_rounds init 0 f ++ [EvFetch init])).
  { unfold Middleware.fetchWithRetry. fold init.
    rewrite (retry_loop_succeeds env init f Middleware.MAX_RETRIES 0 Undefined [] res);
      try done.
    by apply Nat.leb_gt. }
  split; [done|]. rewrite Hrun. simpl.
  by rewrite fetches_app, fetches_failed_rounds.
Qed.

(** [fetchWithRetry] returns the response of the first attempt that is not
    retried, whatever happened before it: after [f] failed attempts it has
    sent [f + 1] subrequests. *)
Theorem fetchWithRetry_first_answer (env : Env) (path : string)
    (request : Request) (f : nat) (res : Resp) :
  let init := Middleware.originInit path request in
  f < Middleware.MAX_RETRIES ->
  (forall j, j < f -> Middleware.retried (origin_fetch env j init) = true) ->
  origin_fetch env f init = Fulfilled res ->
  status res < 500 ->
  Middleware.fetchWithRetry env path request [] =
    (Ok res, Middleware.failed_rounds init 0 f ++ [EvFetch init])
  /\ fetches (Middleware.fetchWithRetry env path request []).2 = f + 1.
Proof. exact (retry_first_answer env path request f res). Qed.

Lemma fetchWithRetry_first_answer_witness :
  let out := Middleware.fetchWithRetry Samples.flaky "/video/seg-0001.jpg"
               Samples.segment [] in
  (exists res, out.1 = Ok res /\ status res = 200) /\ fetches out.2 = 3.
Proof.
  intros out.
  destruct (fetchWithRetry_first_answer Samples.flaky "/video/seg-0001.jpg"
              Samples.segment 2
              (Samples.reply 200 [("Content-Length", "5")] (Some "bytes")))
    as [Hrun Hn].
  - unfold Middleware.MAX_RETRIES. lia.
  - intros j Hj. destruct j as [|[|j]]; [reflexivity|reflexivity|lia].
  - reflexivity.
  - simpl. lia.
  - split; [|exact Hn]. eexists. unfold out. rewrite Hrun. by split.
Defined.

Lemma sum_list_append (l1 l2 : list nat) :
  sum_list (l1 ++ l2) = sum_list l1 + sum_list l2.
Proof. induction l1 as [|x l1 IH]; simpl; [done|]. rewrite IH. lia. Qed.

Lemma sum_backoff n :
  sum_list (map (fun j => 100 * 2 ^ j) (seq 0 n)) = 100 * (2 ^ n - 1).
Proof.
  induction n as [|n IH]; [done|].
  rewrite seq_S, map_app, sum_list_append, IH. simpl sum_list.
  rewrite Nat.pow_succ_r'.
  assert (1 <= 2 ^ n) by (apply Nat.neq_0_lt_0, Nat.pow_nonzero; lia). lia.
Qed.

(** The time [fetchWithRetry] spends sleeping is 100 * (2^f - 1) ms for [f]
    failed attempts: 0, 100, 300 or 700 ms, never more. *)
Theorem fetchWithRetry_total_backoff (env : Env) (path : string)
    (request : Request) :
  let out := Middleware.fetchWithRetry env path request [] in
  sum_list (sleeps out.2) = 100 * (2 ^ length (sleeps out.2) - 1)
  /\ length (sleeps out.2) <= Middleware.MAX_RETRIES
  /\ sum_list (sleeps out.2) <= 700
  /\ (sum_list (sleeps out.2) = 700 <-> exists t, out.1 = Throw t).
Proof.
  intros out. unfold out, Middleware.fetchWithRetry.
  destruct (retry_loop_cases env (Middleware.originInit path request)
              Middleware.MAX_RETRIES Undefined)
    as (f & Hf & Hpre & [(Hlt & res & Ho & Hs & Hrun)|(-> & Hrun)]);
    rewrite Hrun; simpl fst; simpl snd.
  - rewrite sleeps_app, sleeps_failed_rounds. simpl. rewrite app_nil_r.
    rewrite length_map, length_seq, sum_backoff.
    unfold Middleware.MAX_RETRIES in *.
    split; [done|]. split; [lia|].
    destruct f as [|[|[|f]]]; [| | |lia];
      (split; [vm_compute; lia|]);
      (split; [intros H; vm_compute in H; lia|intros [t Ht]; discriminate]).
  - rewrite sleeps_failed_rounds, length_map, length_seq, sum_backoff.
    unfold Middleware.MAX_RETRIES.
    split; [done|]. split; [lia|]. split; [vm_compute; lia|]. split; eauto.
Qed.

Lemma failed_rounds_events init e a n :
  e ∈ Middleware.failed_rounds init a n ->
  e = EvFetch init \/ exists ms, e = EvSleep ms.
Proof.
  revert a. induction n as [|n IH]; intros a He.
  - by apply not_elem_of_nil in He.
  - rewrite failed_rounds_S in He.
    apply elem_of_cons in He as [->|He]; [by left|].
    apply elem_of_cons in He as [->|He]; [right; eauto|].
    by apply (IH (S a)).
Qed.

(** The trace of [fetchWithRetry] holds subrequests with the one [init] and
    sleeps, nothing else. *)
Lemma fetchWithRetry_events env path request e :
  e ∈ (Middleware.fetchWithRetry env path request []).2 ->
  e = EvFetch (Middleware.originInit path request) \/ exists ms, e = EvSleep ms.
Proof.
  unfold Middleware.fetchWithRetry.
  destruct (retry_loop_cases env (Middleware.originInit path request)
              Middleware.MAX_RETRIES Undefined)
    as (f & Hf & Hpre & [(Hlt & res & Ho & Hs & Hrun)|(-> & Hrun)]);
    rewrite Hrun; simpl.
  - intros He. apply elem_of_app in He as [He|He].
    + by apply failed_rounds_events in He.
    + apply list_elem_of_singleton in He. by left.
  - apply failed_rounds_events.
Qed.

Lemma fetchWithRetry_no_puts env path request :
  cache_puts (Middleware.fetchWithRetry env path request []).2 = [].
Proof.
  assert (H : forall tr, (forall e, e ∈ tr ->
                e = EvFetch (Middleware.originInit path request)
                \/ exists ms, e = EvSleep ms) -> cache_puts tr = []).
  { induction tr as [|e tr IH]; intros Hall; [done|].
    destruct (Hall e) as [->|[ms ->]]; [by constructor| |]; simpl;
      apply IH; intros e' He'; apply Hall; by constructor. }
  apply H. intros e. apply fetchWithRetry_events.
Qed.

(** An origin answer that is neither retried nor successful (a 3xx or 4xx,
    say) goes to the client as it came, and nothing is written to the
    cache. *)
Theorem middleware_passes_origin_errors (env : Env) (request : Request)
    (f : nat) (res : Resp) :
  let init := Middleware.originInit
                (pathname (url request) +:+ search (url request)) request in
  passes_guards request = true ->
  cache_match env (Middleware.cacheKey request) = Fulfilled None ->
  f < Middleware.MAX_RETRIES ->
  (forall j, j < f -> Middleware.retried (origin_fetch env j init) = true) ->
  origin_fetch env f init = Fulfilled res ->
  status res < 500 ->
  ok res = false ->
  (Middleware.onRequest env request []).1 = Ok res
  /\ cache_puts (Middleware.onRequest env request []).2 = [].
Proof.
  intros init Hg Hmiss Hf Hpre Ho Hst Hok.
  rewrite (middleware_admitted env request Hg), Hmiss.
  pose proof (fetchWithRetry_no_puts env
                (pathname (url request) +:+ search (url request)) request) as Hputs.
  destruct (retry_first_answer env
              (pathname (url request) +:+ search (url request)) request f res
              Hf Hpre Ho Hst) as [Hrun _].
  rewrite Hrun in *. simpl in *. rewrite Hok. simpl. by split.
Qed.

Lemma middleware_passes_origin_errors_witness :
  (Middleware.onRequest Samples.missing Samples.segment []).1 =
  Ok (Samples.reply 404 [] (Some "not found")).
Proof.
  refine (proj1 (middleware_passes_origin_errors Samples.missing Samples.segment 0
                   (Samples.reply 404 [] (Some "not found")) _ _ _ _ _ _ _)).
  - reflexivity.
  - reflexivity.
  - unfold Middleware.MAX_RETRIES. lia.
  - intros j Hj. lia.
  - reflexivity.
  - simpl. lia.
  - reflexivity.
Defined.

(** Whatever the client sends, every subrequest of the handler has the
    client's method and carries two headers at most: the fixed User-Agent,
    and the client's Range when there is one. *)
Theorem middleware_forwards_only_range (env : Env) (request : Request)
    (init : FetchInit) :
  EvFetch init ∈ (Middleware.onRequest env request []).2 ->
  fmethod init = method request
  /\ forall name,
       fheaders init !! name =
       if decide (name = "user-agent") then Some "Cloudflare-Pages-CDN"
       else if decide (name = "range") then headers request !! "range"
       else None.
Proof.
  intros Hin.
  assert (Hinit : init = Middleware.originInit
                    (pathname (url request) +:+ search (url request)) request).
  { destruct (passes_guards request) eqn:Hg.
    - rewrite (middleware_admitted env request Hg) in Hin.
      assert (Hretry : forall tr,
                EvFetch init ∈ EvCacheMatch (Middleware.cacheKey request)
                  :: (Middleware.fetchWithRetry env
                        (pathname (url request) +:+ search (url request))
                        request []).2 ++ tr ->
                (forall i, EvFetch i ∉ tr) ->
                init = Middleware.originInit
                         (pathname (url request) +:+ search (url request)) request).
      { intros tr H Htr. apply elem_of_cons in H as [H|H]; [done|].
        apply elem_of_app in H as [H|H]; [|by apply Htr in H].
        apply fetchWithRetry_events in H as [H|[ms H]]; [|done]. by inversion H. }
      destruct (cache_match env _) as [[stored|]|e]; simpl in Hin;
        try (apply list_elem_of_singleton in Hin; discriminate).
      destruct (Middleware.fetchWithRetry env _ request []) as [[res|[|e]] tr]
        eqn:Hrun; simpl in *.
      + destruct (ok res); simpl in Hin.
        * destruct (body res); simpl in Hin.
          -- apply (Hretry (if status res =? 200
                            then [EvWaitUntil
                                    [(Middleware.cacheKey request,
                                      {| status := status res;
                                         statusText := statusText res;
                                         rheaders := Middleware.responseHeaders
                                                       (url request) res;
                                         body := Some s |})]]
                            else [])); [done|].
             intros i Hi. destruct (status res =? 200).
             ++ apply list_elem_of_singleton in Hi. discriminate.
             ++ by apply not_elem_of_nil in Hi.
          -- apply (Hretry []); [by rewrite app_nil_r|].
             intros i. apply not_elem_of_nil.
        * apply (Hretry []); [by rewrite app_nil_r|].
          intros i. apply not_elem_of_nil.
      + apply (Hretry []); [by rewrite app_nil_r|].
        intros i. apply not_elem_of_nil.
      + apply (Hretry []); [by rewrite app_nil_r|].
        intros i. apply not_elem_of_nil.
    - destruct (middleware_guards_cases env request) as [[_ Htr] _].
      rewrite (Htr Hg) in Hin. by apply not_elem_of_nil in Hin. }
  subst init. split; [done|].
  intros name. simpl. unfold Middleware.originHeaders, hget, hset. lower_names.
  destruct (headers request !! "range") as [v|] eqn:Hr.
  - destruct (decide (name = "user-agent")) as [->|Hua]; [by rewrite lookup_insert_eq|].
    rewrite lookup_insert_ne by done.
    destruct (decide (name = "range")) as [->|Hrg]; [by rewrite lookup_insert_eq|].
    by rewrite lookup_insert_ne, lookup_empty by done.
  - destruct (decide (name = "user-agent")) as [->|Hua]; [by rewrite lookup_insert_eq|].
    rewrite lookup_insert_ne by done. rewrite lookup_empty.
    by destruct (decide (name = "range")).
Qed.

Lemma middleware_forwards_only_range_witness :
  let init := Middleware.originInit "/video/seg-0001.jpg" Samples.rangeA in
  fheaders init !! "range" = Some "bytes=0-99"
  /\ fheaders init !! "referer" = None.
Proof.
  intros init.
  assert (Hin : EvFetch init ∈ (Middleware.onRequest Samples.fresh Samples.rangeA []).2).
  { vm_compute. apply list_elem_of_further, list_elem_of_here. }
  destruct (middleware_forwards_only_range Samples.fresh Samples.rangeA init Hin)
    as [_ H].
  split; rewrite H; reflexivity.
Defined.

(** The response headers of _middleware.js, name by name. *)
Lemma middleware_headers_pointwise (u : URL) (o : Resp) :
  let h := Middleware.responseHeaders u o in
  h !! "set-cookie" = None /\ h !! "server" = None /\ h !! "via" = None
  /\ h !! "cache-control" = Some "public, max-age=300, s-maxage=31536000"
  /\ h !! "access-control-allow-origin" = Some "*"
  /\ h !! "content-type" = Some "image/jpeg"
  /\ h !! "cf-cache-status" = Some "MISS"
  /\ h !! "etag" =
     Some (match rheaders o !! "etag" with
           | Some v => v
           | None =>
               dquote +:+ pathname u +:+ "-" +:+
               (if truthy (rheaders o !! "content-length")
                then default "" (rheaders o !! "content-length") else "0")
               +:+ dquote
           end)
  /\ forall name,
       name ∉ ["set-cookie"; "server"; "via"; "cache-control";
               "access-control-allow-origin"; "content-type"; "etag";
               "cf-cache-status"] ->
       h !! name = rheaders o !! name.
Proof.
  intros h. subst h. unfold Middleware.responseHeaders, hhas, hget, hset, hdelete.
  lower_names. cbv zeta.
  assert (Hetag : forall m : Headers,
            <["content-type":="image/jpeg"]>
              (<["access-control-allow-origin":="*"]>
                 (<["cache-control":="public, max-age=300, s-maxage=31536000"]>
                    (delete "via" (delete "server" (delete "set-cookie" m)))))
            !! "etag" = m !! "etag").
  { intros m. by rewrite !lookup_insert_ne, !lookup_delete_ne by done. }
  assert (Hlen : forall m : Headers,
            <["content-type":="image/jpeg"]>
              (<["access-control-allow-origin":="*"]>
                 (<["cache-control":="public, max-age=300, s-maxage=31536000"]>
                    (delete "via" (delete "server" (delete "set-cookie" m)))))
            !! "content-length" = m !! "content-length").
  { intros m. by rewrite !lookup_insert_ne, !lookup_delete_ne by done. }
  rewrite Hetag, Hlen.
  destruct (rheaders o !! "etag") as [v|] eqn:He; simpl.
  - repeat split;
      try (repeat first [rewrite lookup_insert_ne by done
                        |rewrite lookup_delete_ne by done];
           first [by rewrite lookup_insert_eq|by rewrite lookup_delete_eq|done]).
    intros name Hn.
    repeat (apply not_elem_of_cons in Hn as [? Hn]).
    by rewrite !lookup_insert_ne, !lookup_delete_ne by done.
  - repeat split;
      try (repeat first [rewrite lookup_insert_ne by done
                        |rewrite lookup_delete_ne by done];
           first [by rewrite lookup_insert_eq|by rewrite lookup_delete_eq|done]).
    + rewrite lookup_insert_ne by done. rewrite lookup_insert_eq.
      unfold js_or.
      destruct (rheaders o !! "content-length") as [v|]; simpl; [|done].
      by destruct (String.eqb v "").
    + intros name Hn.
      repeat (apply not_elem_of_cons in Hn as [? Hn]).
      by rewrite !lookup_insert_ne, !lookup_delete_ne by done.
Qed.

(** The headers of a successful miss: Set-Cookie, Server and Via are gone;
    the cache policy, the CORS origin, the content type and the MISS mark
    are set; an ETag of the origin is kept and a missing one is made from
    the path and the content length (0 when unknown); every other header of
    the origin passes unchanged. *)
Theorem middleware_responseHeaders (u : URL) (o : Resp) :
  let h := Middleware.responseHeaders u o in
  h !! "set-cookie" = None /\ h !! "server" = None /\ h !! "via" = None
  /\ h !! "cache-control" = Some "public, max-age=300, s-maxage=31536000"
  /\ h !! "access-control-allow-origin" = Some "*"
  /\ h !! "content-type" = Some "image/jpeg"
  /\ h !! "cf-cache-status" = Some "MISS"
  /\ h !! "etag" =
     Some (match rheaders o !! "etag" with
           | Some v => v
           | None =>
               dquote +:+ pathname u +:+ "-" +:+
               (if truthy (rheaders o !! "content-length")
                then default "" (rheaders o !! "content-length") else "0")
               +:+ dquote
           end)
  /\ forall name,
       name ∉ ["set-cookie"; "server"; "via"; "cache-control";
               "access-control-allow-origin"; "content-type"; "etag";
               "cf-cache-status"] ->
       h !! name = rheaders o !! name.
Proof. exact (middleware_headers_pointwise u o). Qed.

(** What the handler writes to the cache is the response it sends to the
    client, for a status of 200 only; when the cache later returns that
    entry, the client gets it back unchanged and the origin is left alone. *)
Theorem middleware_store_then_hit (env env' : Env) (request : Request)
    (key : KeyRequest) (entry : Resp) :
  (key, entry) ∈ cache_puts (Middleware.onRequest env request []).2 ->
  cache_match env' (Middleware.cacheKey request) = Fulfilled (Some entry) ->
  key = Middleware.cacheKey request
  /\ (Middleware.onRequest env request []).1 = Ok entry
  /\ status entry = 200
  /\ rheaders entry !! "cf-cache-status" = Some "MISS"
  /\ Middleware.onRequest env' request [] = (Ok entry, [EvCacheMatch key]).
Proof.
  intros Hin Hhit.
  destruct (passes_guards request) eqn:Hg.
  2:{ destruct (middleware_guards_cases env request) as [[_ Htr] _].
      rewrite (Htr Hg) in Hin. by apply not_elem_of_nil in Hin. }
  rewrite (middleware_admitted env' request Hg), Hhit.
  rewrite (middleware_admitted env request Hg) in Hin |- *.
  pose proof (fetchWithRetry_no_puts env
                (pathname (url request) +:+ search (url request)) request) as Hputs.
  destruct (cache_match env _) as [[stored|]|e]; simpl in Hin;
    try (by apply not_elem_of_nil in Hin).
  destruct (Middleware.fetchWithRetry env _ request []) as [[res|[|e]] tr];
    simpl in *; try (rewrite Hputs in Hin; by apply not_elem_of_nil in Hin).
  destruct (ok res); simpl in *;
    try (rewrite Hputs in Hin; by apply not_elem_of_nil in Hin).
  destruct (body res) as [b|]; simpl in *;
    try (rewrite Hputs in Hin; by apply not_elem_of_nil in Hin).
  rewrite cache_puts_app, Hputs in Hin. simpl in Hin.
  destruct (Nat.eqb_spec (status res) 200) as [Hst|Hst]; simpl in Hin;
    [|by apply not_elem_of_nil in Hin].
  apply list_elem_of_singleton in Hin. inversion Hin; subst key entry.
  repeat split; try done.
  apply (middleware_headers_pointwise (url request) res).
Qed.

Lemma middleware_store_then_hit_witness :
  Middleware.onRequest Samples.warm Samples.segment [] =
  (Ok Samples.stored, [EvCacheMatch (Middleware.cacheKey Samples.segment)]).
Proof.
  refine (proj2 (proj2 (proj2 (proj2
            (middleware_store_then_hit Samples.fresh Samples.warm Samples.segment
               (Middleware.cacheKey Samples.segment) Samples.stored _ _))))).
  - vm_compute. apply list_elem_of_here.
  - reflexivity.
Defined.

(** ** src/unnamed/part_000 *)

(** Solves a lookup of a literal name in a stack of header updates. *)
Ltac hsolve :=
  unfold carries, hget, hhas, hset_all, hdelete_all, hset, hdelete, headers_of;
  cbn [foldl fst snd]; lower_names;
  repeat first [rewrite lookup_insert_ne by done
               |rewrite lookup_delete_ne by done];
  first [by rewrite lookup_insert_eq | by rewrite lookup_delete_eq
        |by rewrite lookup_empty | done].

Ltac each_header Hin :=
  repeat (apply elem_of_cons in Hin as [Hin|Hin];
          [inversion Hin; subst; clear Hin; hsolve|]);
  by apply not_elem_of_nil in Hin.

Lemma queryIgnoring_cors_set (h : Headers) :
  carries QueryIgnoring.corsHeaders (hset_all QueryIgnoring.corsHeaders h).
Proof.
  intros name value Hin. unfold QueryIgnoring.corsHeaders in *. each_header Hin.
Qed.

Lemma queryIgnoring_cors_responseHeaders u o :
  carries QueryIgnoring.corsHeaders (QueryIgnoring.responseHeaders u o).
Proof.
  intros name value Hin. unfold QueryIgnoring.responseHeaders.
  unfold QueryIgnoring.corsHeaders in *. each_header Hin.
Qed.

Lemma queryIgnoring_cors_text text st :
  carries QueryIgnoring.corsHeaders
    (rheaders (text_response id text st (headers_of QueryIgnoring.corsHeaders))).
Proof.
  intros name value Hin. unfold text_response. cbn [rheaders].
  assert (Hno : hhas "Content-Type" (headers_of QueryIgnoring.corsHeaders) = false)
    by reflexivity.
  rewrite Hno. unfold QueryIgnoring.corsHeaders in *. each_header Hin.
Qed.

(** Every answer of part_000 carries the CORS headers, and the handler never
    throws: preflight, 405, hit, miss, origin error and caught error alike. *)
Theorem queryIgnoring_always_cors (env : Env) (request : Request) :
  exists r,
    (QueryIgnoring.onRequest env request []).1 = Ok r
    /\ carries QueryIgnoring.corsHeaders (rheaders r).
Proof.
  destruct (decide (method request ∈ ["GET"; "HEAD"])) as [Hm|Hm].
  - rewrite (onRequest_get_or_head env request Hm).
    destruct (cache_match env _) as [[stored|]|e].
    + eexists. split; [reflexivity|]. apply queryIgnoring_cors_set.
    + destruct (origin_fetch env 0 _) as [res|e].
      * cbn zeta.
        destruct (ok res), (body res); eexists; (split; [reflexivity|]);
          apply queryIgnoring_cors_responseHeaders.
      * eexists. split; [reflexivity|]. apply queryIgnoring_cors_text.
    + eexists. split; [reflexivity|]. apply queryIgnoring_cors_text.
  - destruct (decide (method request = "OPTIONS")) as [Ho|Ho].
    + rewrite (onRequest_options env request Ho). eexists. split; [reflexivity|].
      apply (queryIgnoring_cors_set ∅).
    + rewrite (onRequest_other_method env request).
      * eexists. split; [reflexivity|]. apply queryIgnoring_cors_text.
      * intros Hin. apply Hm.
        apply elem_of_cons in Hin as [->|Hin]; [by constructor|].
        apply elem_of_cons in Hin as [->|Hin]; [by repeat constructor|].
        by apply list_elem_of_singleton in Hin.
Qed.

(** The response headers of part_000, name by name. *)
Lemma queryIgnoring_headers_pointwise (u : URL) (o : Resp) :
  let h := QueryIgnoring.responseHeaders u o in
  (forall name,
     name ∈ ["set-cookie"; "via"; "server"; "x-powered-by"; "cf-cache-status";
             "cf-ray"; "age"] -> h !! name = None)
  /\ carries QueryIgnoring.corsHeaders h
  /\ h !! "cache-control" =
     Some (if QueryIgnoring.isPlaylist u
           then "public, max-age=2, must-revalidate"
           else "public, max-age=31536000, immutable")
  /\ forall name,
       name ∉ ["set-cookie"; "via"; "server"; "x-powered-by"; "cf-cache-status";
               "cf-ray"; "age"; "access-control-allow-origin";
               "access-control-allow-methods"; "access-control-allow-headers";
               "access-control-expose-headers"; "access-control-max-age";
               "cache-control"] ->
       h !! name = rheaders o !! name.
Proof.
  intros h. split; [|split; [apply queryIgnoring_cors_responseHeaders|split]].
  - intros name Hin. subst h.
    unfold QueryIgnoring.responseHeaders, QueryIgnoring.corsHeaders.
    repeat (apply elem_of_cons in Hin as [->|Hin]; [hsolve|]).
    by apply not_elem_of_nil in Hin.
  - subst h. unfold QueryIgnoring.responseHeaders, QueryIgnoring.cacheTtlOf.
    unfold hset at 1. lower_names. rewrite lookup_insert_eq.
    by destruct (QueryIgnoring.isPlaylist u).
  - intros name Hn. subst h.
    unfold QueryIgnoring.responseHeaders, QueryIgnoring.corsHeaders.
    repeat (apply not_elem_of_cons in Hn as [? Hn]).
    unfold hset_all, hdelete_all, hset, hdelete. cbn [foldl fst snd]. lower_names.
    by rewrite !lookup_insert_ne, !lookup_delete_ne by done.
Qed.

(** The headers part_000 builds from an origin response: the seven
    origin-internal headers are gone (so a miss carries no CF-Cache-Status
    at all), the CORS headers are set, Cache-Control follows the class of
    the path, and every other origin header passes through unchanged. *)
Theorem queryIgnoring_responseHeaders (u : URL) (o : Resp) :
  let h := QueryIgnoring.responseHeaders u o in
  (forall name,
     name ∈ ["set-cookie"; "via"; "server"; "x-powered-by"; "cf-cache-status";
             "cf-ray"; "age"] -> h !! name = None)
  /\ carries QueryIgnoring.corsHeaders h
  /\ h !! "cache-control" =
     Some (if QueryIgnoring.isPlaylist u
           then "public, max-age=2, must-revalidate"
           else "public, max-age=31536000, immutable")
  /\ forall name,
       name ∉ ["set-cookie"; "via"; "server"; "x-powered-by"; "cf-cache-status";
               "cf-ray"; "age"; "access-control-allow-origin";
               "access-control-allow-methods"; "access-control-allow-headers";
               "access-control-expose-headers"; "access-control-max-age";
               "cache-control"] ->
       h !! name = rheaders o !! name.
Proof. exact (queryIgnoring_headers_pointwise u o). Qed.

Lemma queryIgnoring_fetch_events env request init :
  EvFetch init ∈ (QueryIgnoring.onRequest env request []).2 ->
  init = QueryIgnoring.originInit request.
Proof.
  destruct (decide (method request ∈ ["GET"; "HEAD"])) as [Hm|Hm].
  - rewrite (onRequest_get_or_head env request Hm).
    destruct (cache_match env _) as [[stored|]|e]; cbn [snd];
      try (intros H; apply list_elem_of_singleton in H; discriminate).
    assert (Hpre : forall tr, (forall i, EvFetch i ∉ tr) ->
              EvFetch init ∈ EvCacheMatch (QueryIgnoring.cacheKey request)
                :: EvFetch (QueryIgnoring.originInit request) :: tr ->
              init = QueryIgnoring.originInit request).
    { intros tr Htr H. apply elem_of_cons in H as [H|H]; [done|].
      apply elem_of_cons in H as [H|H]; [by inversion H|]. by apply Htr in H. }
    destruct (origin_fetch env 0 _) as [res|e]; cbn [snd];
      [|apply Hpre; intros i; apply not_elem_of_nil].
    cbn zeta. destruct (ok res), (body res); cbn [snd];
      try (apply Hpre; intros i; apply not_elem_of_nil).
    apply Hpre. intros i Hi. apply list_elem_of_singleton in Hi. discriminate.
  - destruct (decide (method request = "OPTIONS")) as [Ho|Ho].
    + rewrite (onRequest_options env request Ho). cbn [snd].
      intros H. by apply not_elem_of_nil in H.
    + rewrite (onRequest_other_method env request).
      * cbn [snd]. intros H. by apply not_elem_of_nil in H.
      * intros Hin. apply Hm.
        apply elem_of_cons in Hin as [->|Hin]; [by constructor|].
        apply elem_of_cons in Hin as [->|Hin]; [by repeat constructor|].
        by apply list_elem_of_singleton in Hin.
Qed.

(** What part_000 sends to the origin: the client's path, query string and
    method, an edge TTL that follows the class of the path, and a fixed
    header set (browser User-Agent, the origin as Referer, keep-alive) plus
    the client's Range when it is present and not empty.  The client's own
    User-Agent, Referer, cookies and other headers are never forwarded. *)
Theorem queryIgnoring_origin_request (env : Env) (request : Request)
    (init : FetchInit) :
  EvFetch init ∈ (QueryIgnoring.onRequest env request []).2 ->
  furl init = QueryIgnoring.ORIGIN_URL +:+ pathname (url request)
              +:+ search (url request)
  /\ fmethod init = method request
  /\ cacheTtl (fcf init) =
     (if QueryIgnoring.isPlaylist (url request) then 2%N else 31536000%N)
  /\ forall name,
       fheaders init !! name =
       if decide (name = "user-agent") then Some QueryIgnoring.STABLE_USER_AGENT
       else if decide (name = "referer") then Some QueryIgnoring.ORIGIN_URL
       else if decide (name = "connection") then Some "keep-alive"
       else if decide (name = "range")
            then (if truthy (headers request !! "range")
                  then headers request !! "range" else None)
            else None.
Proof.
  intros Hin. apply queryIgnoring_fetch_events in Hin as ->.
  split; [done|]. split; [done|]. split; [done|].
  intros name. cbn [fheaders QueryIgnoring.originInit].
  unfold hget, hset. lower_names.
  destruct (truthy (headers request !! "range")) eqn:Ht.
  - destruct (headers request !! "range") as [v|] eqn:Hr; [|done]. cbn [default].
    destruct (decide (name = "range")) as [->|Hrg].
    { rewrite lookup_insert_eq. by repeat case_decide. }
    rewrite lookup_insert_ne by done.
    destruct (decide (name = "connection")) as [->|Hc].
    { rewrite lookup_insert_eq. by repeat case_decide. }
    rewrite lookup_insert_ne by done.
    destruct (decide (name = "referer")) as [->|Hre].
    { rewrite lookup_insert_eq. by repeat case_decide. }
    rewrite lookup_insert_ne by done.
    destruct (decide (name = "user-agent")) as [->|Hua].
    { by rewrite lookup_insert_eq. }
    by rewrite lookup_insert_ne, lookup_empty by done.
  - destruct (decide (name = "connection")) as [->|Hc].
    { rewrite lookup_insert_eq. by repeat case_decide. }
    rewrite lookup_insert_ne by done.
    destruct (decide (name = "referer")) as [->|Hre].
    { rewrite lookup_insert_eq. by repeat case_decide. }
    rewrite lookup_insert_ne by done.
    destruct (decide (name = "user-agent")) as [->|Hua].
    { by rewrite lookup_insert_eq. }
    rewrite lookup_insert_ne, lookup_empty by done.
    by destruct (decide (name = "range")).
Qed.

Lemma queryIgnoring_origin_request_witness :
  let init := QueryIgnoring.originInit MoreSamples.head_range in
  furl init = "https://webr00t.global.ssl.fastly.net/video/seg-0001.ts?token=A"
  /\ fheaders init !! "range" = Some "bytes=0-99"
  /\ fheaders init !! "cookie" = None.
Proof.
  intros init.
  assert (Hin : EvFetch init
                ∈ (QueryIgnoring.onRequest MoreSamples.partial_no_body
                     MoreSamples.head_range []).2).
  { vm_compute. apply list_elem_of_further, list_elem_of_here. }
  destruct (queryIgnoring_origin_request MoreSamples.partial_no_body
              MoreSamples.head_range init Hin) as (Hu & _ & _ & Hh).
  split; [rewrite Hu; reflexivity|]. split; rewrite Hh; reflexivity.
Defined.

(** When the origin answers ok without a body (as to a HEAD request),
    part_000 answers 200 whatever the origin's status was, and writes
    nothing to the cache. *)
Theorem queryIgnoring_bodiless_is_200 (env : Env) (request : Request)
    (res : Resp) :
  method request ∈ ["GET"; "HEAD"] ->
  cache_match env (QueryIgnoring.cacheKey request) = Fulfilled None ->
  origin_fetch env 0 (QueryIgnoring.originInit request) = Fulfilled res ->
  ok res = true ->
  body res = None ->
  exists r,
    (QueryIgnoring.onRequest env request []).1 = Ok r
    /\ status r = 200
    /\ body r = None
    /\ rheaders r = QueryIgnoring.responseHeaders (url request) res
    /\ cache_puts (QueryIgnoring.onRequest env request []).2 = [].
Proof.
  intros Hm Hmiss Ho Hok Hb.
  rewrite (onRequest_get_or_head env request Hm), Hmiss, Ho. cbn zeta.
  rewrite Hok, Hb. eexists. by repeat split.
Qed.

Lemma queryIgnoring_bodiless_is_200_witness :
  exists r,
    (QueryIgnoring.onRequest MoreSamples.partial_no_body
       MoreSamples.head_range []).1 = Ok r
    /\ status r = 200.
Proof.
  destruct (queryIgnoring_bodiless_is_200 MoreSamples.partial_no_body
              MoreSamples.head_range
              (Samples.reply 206 [("Content-Range", "bytes 0-99/5000");
                                  ("Set-Cookie", "origin=1")] None))
    as (r & Hr & Hs & _).
  - apply list_elem_of_further, list_elem_of_here.
  - reflexivity.
  - reflexivity.
  - reflexivity.
  - reflexivity.
  - exists r. by split.
Defined.

(** The cache key of part_000 depends on the URL only: the method and the
    headers of the request play no part (a HEAD and a GET share the key),
    and normalising the URL of a key gives the same key again. *)
Theorem queryIgnoring_key_normal (request r' : Request) :
  let key := QueryIgnoring.cacheKey request in
  let keyUrl := if QueryIgnoring.isPlaylist (url request) then url request
                else clear_search (url request) in
  kurl key = href keyUrl /\ kmethod key = "GET" /\ kheaders key = ∅
  /\ (url r' = url request -> QueryIgnoring.cacheKey r' = key)
  /\ (url r' = keyUrl -> QueryIgnoring.cacheKey r' = key).
Proof.
  intros key keyUrl. subst key keyUrl. unfold QueryIgnoring.cacheKey.
  destruct (QueryIgnoring.isPlaylist (url request)) eqn:Hp; simpl.
  - repeat split; intros ->; by rewrite Hp.
  - repeat split.
    + intros ->. by rewrite Hp.
    + intros ->.
      assert (Hp' : QueryIgnoring.isPlaylist (clear_search (url request)) = false)
        by exact Hp.
      by rewrite Hp'.
Qed.

(** A miss of part_000 that writes to the cache and a later hit on what it
    wrote: the hit serves the same status and body as the miss did, marks
    the response CF-Cache-Status: HIT (the miss response has no such
    header), carries the CORS headers, and its Cache-Control is the stored
    [public, max-age=ttl] without the immutable or must-revalidate the miss
    response had; the origin is not contacted. *)
Theorem queryIgnoring_store_then_hit (env env' : Env) (request : Request)
    (key : KeyRequest) (entry : Resp) :
  (key, entry) ∈ cache_puts (QueryIgnoring.onRequest env request []).2 ->
  cache_match env' (QueryIgnoring.cacheKey request) = Fulfilled (Some entry) ->
  exists client hit,
    (QueryIgnoring.onRequest env request []).1 = Ok client
    /\ QueryIgnoring.onRequest env' request [] = (Ok hit, [EvCacheMatch key])
    /\ status hit = status client
    /\ body hit = body client
    /\ rheaders hit !! "cf-cache-status" = Some "HIT"
    /\ rheaders client !! "cf-cache-status" = None
    /\ rheaders hit !! "cache-control" =
       Some ("public, max-age=" +:+ pretty (QueryIgnoring.cacheTtlOf (url request)))
    /\ rheaders client !! "cache-control" =
       Some (if QueryIgnoring.isPlaylist (url request)
             then "public, max-age=2, must-revalidate"
             else "public, max-age=31536000, immutable")
    /\ carries QueryIgnoring.corsHeaders (rheaders hit).
Proof.
  intros Hin Hhit.
  destruct (decide (method request ∈ ["GET"; "HEAD"])) as [Hm|Hm].
  2:{ destruct (queryIgnoring_puts env request key entry Hin)
        as (res & b & client & _ & _ & _ & _ & _ & _ & Hrun & _).
      exfalso. destruct (decide (method request = "OPTIONS")) as [Ho|Ho].
      - rewrite (onRequest_options env request Ho) in Hrun. discriminate.
      - rewrite (onRequest_other_method env request) in Hrun; [discriminate|].
        intros Hx. apply Hm.
        apply elem_of_cons in Hx as [->|Hx]; [by constructor|].
        apply elem_of_cons in Hx as [->|Hx]; [by repeat constructor|].
        by apply list_elem_of_singleton in Hx. }
  rewrite (onRequest_get_or_head env' request Hm), Hhit.
  rewrite (onRequest_get_or_head env request Hm) in Hin |- *.
  destruct (cache_match env _) as [[stored|]|e]; cbn [snd cache_puts] in Hin;
    try (by apply not_elem_of_nil in Hin).
  destruct (origin_fetch env 0 _) as [res|e]; cbn [snd cache_puts] in Hin;
    try (by apply not_elem_of_nil in Hin).
  cbn zeta in Hin |- *.
  destruct (ok res), (body res) as [b|]; cbn [snd cache_puts] in Hin;
    try (by apply not_elem_of_nil in Hin).
  rewrite app_nil_r in Hin.
  destruct (status res =? 200); [|by apply not_elem_of_nil in Hin].
  apply list_elem_of_singleton in Hin.
  apply (f_equal fst) in Hin as Hk. apply (f_equal snd) in Hin as He.
  cbn [fst snd] in Hk, He. subst key entry.
  destruct (queryIgnoring_headers_pointwise (url request) res)
    as (Hgone & _ & Hcc & _).
  eexists _, _. split; [reflexivity|]. split; [reflexivity|].
  split; [done|]. split; [done|]. split; [|split; [|split; [|split]]].
  - unfold QueryIgnoring.hitResponse, QueryIgnoring.corsHeaders. cbn [rheaders].
    hsolve.
  - cbn [rheaders]. apply Hgone.
    do 4 apply list_elem_of_further. apply list_elem_of_here.
  - unfold QueryIgnoring.hitResponse, QueryIgnoring.corsHeaders. cbn [rheaders].
    hsolve.
  - cbn [rheaders]. exact Hcc.
  - apply queryIgnoring_cors_set.
Qed.


Lemma queryIgnoring_store_then_hit_witness :
  exists hit,
    QueryIgnoring.onRequest MoreSamples.warm_segment Samples.segmentA [] =
      (Ok hit, [EvCacheMatch (QueryIgnoring.cacheKey Samples.segmentA)])
    /\ rheaders hit !! "cf-cache-status" = Some "HIT"
    /\ body hit = Some "bytes".
Proof.
  destruct (queryIgnoring_store_then_hit Samples.fresh MoreSamples.warm_segment
              Samples.segmentA (QueryIgnoring.cacheKey Samples.segmentA)
              MoreSamples.stored_segment)
    as (client & hit & Hc & Hh & _ & Hb & HH & _).
  - vm_compute. apply list_elem_of_here.
  - reflexivity.
  - exists hit. split; [exact Hh|]. split; [exact HH|].
    rewrite Hb. vm_compute in Hc. by inversion Hc.
Defined.

(** ** Allow-lists of forwarded headers *)

(** Copying the allowed headers that are present and not empty, one by one,
    gives exactly what the allow-list lets through, on top of what was
    there. *)
Lemma allow_list_fold (hs : Headers) (l : list string) :
  Forall (fun x => toLowerCase x = x) l ->
  forall (acc : Headers) (name : string),
    foldl (fun acc h =>
             let val := hget h hs in
             if truthy val then hset h (default "" val) acc else acc)
          acc l !! name =
    match forwarded l hs name with
    | Some v => Some v
    | None => acc !! name
    end.
Proof.
  induction 1 as [|x l Hx Hl IH]; intros acc name.
  - reflexivity.
  - cbn [foldl]. rewrite IH. unfold forwarded, hget, hset. rewrite Hx.
    destruct (decide (name = x)) as [->|Hne].
    + rewrite (bool_decide_eq_true_2 (x ∈ x :: l)) by constructor.
      cbn [andb].
      destruct (truthy (hs !! x)) eqn:Ht.
      * destruct (hs !! x) as [v|] eqn:Hv; [|done]. cbn [default].
        rewrite andb_true_r. rewrite lookup_insert_eq.
        by destruct (bool_decide (x ∈ l)).
      * by rewrite andb_false_r.
    + assert (Hin : bool_decide (name ∈ x :: l) = bool_decide (name ∈ l)).
      { apply bool_decide_ext. rewrite elem_of_cons.
        split; [intros [?|?]; [congruence|done]|by right]. }
      rewrite Hin.
      destruct (bool_decide (name ∈ l) && truthy (hs !! name)) eqn:Hb.
      * apply andb_true_iff in Hb as [_ Ht].
        destruct (hs !! name); [done|discriminate Ht].
      * destruct (truthy (hs !! x)); [|done].
        by rewrite lookup_insert_ne.
Qed.

(** ** src/examples/performance-test.js, lines 289-447 (v2 Stable) *)

Lemma stable_cors_set (h : Headers) :
  carries Stable.corsHeaders (hset_all Stable.corsHeaders h).
Proof.
  intros name value Hin. unfold Stable.corsHeaders in *. each_header Hin.
Qed.

Lemma stable_cors_responseHeaders o :
  carries Stable.corsHeaders (Stable.responseHeaders o).
Proof.
  intros name value Hin. unfold Stable.responseHeaders.
  unfold Stable.corsHeaders in *. each_header Hin.
Qed.

Lemma stable_cors_text text st :
  carries Stable.corsHeaders
    (rheaders (text_response id text st (headers_of Stable.corsHeaders))).
Proof.
  intros name value Hin. unfold text_response. cbn [rheaders].
  assert (Hno : hhas "Content-Type" (headers_of Stable.corsHeaders) = false)
    by reflexivity.
  rewrite Hno. unfold Stable.corsHeaders in *. each_header Hin.
Qed.

Lemma get_or_head_spec request :
  method request ∈ ["GET"; "HEAD"] ->
  String.eqb (method request) "OPTIONS" = false
  /\ (negb (String.eqb (method request) "GET")
      && negb (String.eqb (method request) "HEAD")) = false.
Proof.
  intros Hm. split; [by apply get_or_head_not_options|].
  apply elem_of_cons in Hm as [->|Hm]; [done|].
  by apply list_elem_of_singleton in Hm as ->.
Qed.

Lemma other_method_spec request :
  method request ∉ ["GET"; "HEAD"; "OPTIONS"] ->
  String.eqb (method request) "OPTIONS" = false
  /\ (negb (String.eqb (method request) "GET")
      && negb (String.eqb (method request) "HEAD")) = true.
Proof.
  intros Hm.
  destruct (String.eqb_spec (method request) "OPTIONS") as [Heq|_].
  { exfalso. apply Hm. rewrite Heq. by repeat constructor. }
  destruct (String.eqb_spec (method request) "GET") as [Heq|_].
  { exfalso. apply Hm. rewrite Heq. by constructor. }
  destruct (String.eqb_spec (method request) "HEAD") as [Heq|_].
  { exfalso. apply Hm. rewrite Heq. by repeat constructor. }
  done.
Qed.

(** What the v2 handler does with a GET or HEAD request that is not the
    health check. *)
Lemma stable_admitted env request :
  method request ∈ ["GET"; "HEAD"] ->
  pathname (url request) ∉ ["/health"; "/"] ->
  let key := Stable.cacheKey request in
  let init := Stable.originInit request in
  Stable.onRequest env request [] =
  match cache_match env key with
  | Rejected e => (Ok (Stable.errorResponse e), [EvCacheMatch key])
  | Fulfilled (Some stored) => (Ok (Stable.hitResponse stored), [EvCacheMatch key])
  | Fulfilled None =>
      match origin_fetch env 0 init with
      | Rejected e => (Ok (Stable.errorResponse e), [EvCacheMatch key; EvFetch init])
      | Fulfilled res =>
          let rh := Stable.responseHeaders res in
          match ok res, body res with
          | true, Some b =>
              (Ok {| status := status res; statusText := statusText res;
                     rheaders := rh; body := Some b |},
               [EvCacheMatch key; EvFetch init;
                EvWaitUntil
                  (if status res =? 200
                   then [(key, {| status := status res; statusText := "";
                                  rheaders := rh; body := Some b |})]
                   else [])])
          | true, None =>
              (Ok {| status := status res; statusText := ""; rheaders := rh;
                     body := None |},
               [EvCacheMatch key; EvFetch init])
          | false, _ =>
              (Ok {| status := status res; statusText := statusText res;
                     rheaders := rh; body := body res |},
               [EvCacheMatch key; EvFetch init])
          end
      end
  end.
Proof.
  intros Hm Hp key init. subst key init.
  destruct (get_or_head_spec request Hm) as [H1 H2].
  assert (H3 : (String.eqb (pathname (url request)) "/health"
                || String.eqb (pathname (url request)) "/") = false).
  { apply not_elem_of_cons in Hp as [Hh Hp].
    apply not_elem_of_cons in Hp as [Hr _].
    apply String.eqb_neq in Hh, Hr. by rewrite Hh, Hr. }
  unfold Stable.onRequest. cbv zeta. rewrite H1, H2, H3.
  unfold try_catch, bind, cacheMatch.
  destruct (cache_match env _) as [[stored|]|e]; try reflexivity.
  unfold fetch, waitUntil, await, ret.
  change (fetches ([] ++ [EvCacheMatch (Stable.cacheKey request)])) with 0.
  destruct (origin_fetch env 0 _) as [res|e]; [|reflexivity].
  cbv zeta. cbn [app].
  destruct (ok res); cbn [negb]; [|reflexivity].
  destruct (body res); reflexivity.
Qed.

Lemma stable_early env request :
  (method request = "OPTIONS" ->
   Stable.onRequest env request [] =
   (Ok {| status := 204; statusText := "";
          rheaders := headers_of Stable.corsHeaders; body := None |}, []))
  /\ (method request ∉ ["GET"; "HEAD"; "OPTIONS"] ->
      Stable.onRequest env request [] =
      (Ok (text_response id "Method Not Allowed" 405
             (headers_of Stable.corsHeaders)), []))
  /\ (method request ∈ ["GET"; "HEAD"] ->
      pathname (url request) ∈ ["/health"; "/"] ->
      Stable.onRequest env request [] =
      (Ok (text_response id "OK" 200 (headers_of Stable.corsHeaders)), [])).
Proof.
  split; [|split].
  - intros Hm. unfold Stable.onRequest. by rewrite Hm.
  - intros Hm. destruct (other_method_spec request Hm) as [H1 H2].
    unfold Stable.onRequest. by rewrite H1, H2.
  - intros Hm Hp. destruct (get_or_head_spec request Hm) as [H1 H2].
    unfold Stable.onRequest. cbv zeta. rewrite H1, H2.
    apply elem_of_cons in Hp as [->|Hp]; [done|].
    by apply list_elem_of_singleton in Hp as ->.
Qed.

(** The v2 handler answers a preflight with 204, any other method than GET
    and HEAD with 405, and a GET or HEAD of /health or / with 200 and the
    body OK; each of these answers carries the CORS headers and is given
    before the cache or the origin is touched. *)
Theorem stable_dispatch (env : Env) (request : Request) :
  let out := Stable.onRequest env request [] in
  (method request = "OPTIONS" ->
   exists r, out = (Ok r, []) /\ status r = 204 /\ body r = None
             /\ carries Stable.corsHeaders (rheaders r))
  /\ (method request ∉ ["GET"; "HEAD"; "OPTIONS"] ->
      exists r, out = (Ok r, []) /\ status r = 405
                /\ carries Stable.corsHeaders (rheaders r))
  /\ (method request ∈ ["GET"; "HEAD"] ->
      pathname (url request) ∈ ["/health"; "/"] ->
      exists r, out = (Ok r, []) /\ status r = 200 /\ body r = Some "OK"
                /\ carries Stable.corsHeaders (rheaders r)).
Proof.
  intros out. destruct (stable_early env request) as (Ho & Hm & Hh).
  split; [|split].
  - intros H. eexists. split; [exact (Ho H)|].
    split; [done|]. split; [done|]. apply (stable_cors_set ∅).
  - intros H. eexists. split; [exact (Hm H)|].
    split; [done|]. apply stable_cors_text.
  - intros H1 H2. eexists. split; [exact (Hh H1 H2)|].
    split; [done|]. split; [done|]. apply stable_cors_text.
Qed.

Lemma stable_dispatch_witness :
  exists r, Stable.onRequest Samples.fresh Samples.health [] = (Ok r, [])
            /\ status r = 200 /\ body r = Some "OK".
Proof.
  destruct (proj2 (proj2 (stable_dispatch Samples.fresh Samples.health)))
    as (r & Hr & Hs & Hb & _).
  - apply list_elem_of_here.
  - apply list_elem_of_here.
  - exists r. by repeat split.
Defined.

(** Every answer of the v2 handler carries its CORS headers, and the handler
    never throws: an error inside the [try] block becomes a 500 with the
    text [CDN Proxy Error: <message>]. *)
Theorem stable_always_cors (env : Env) (request : Request) :
  (exists r,
     (Stable.onRequest env request []).1 = Ok r
     /\ carries Stable.corsHeaders (rheaders r))
  /\ forall e,
       method request ∈ ["GET"; "HEAD"] ->
       pathname (url request) ∉ ["/health"; "/"] ->
       cache_match env (Stable.cacheKey request) = Rejected e
       \/ (cache_match env (Stable.cacheKey request) = Fulfilled None
           /\ origin_fetch env 0 (Stable.originInit request) = Rejected e) ->
       exists r,
         (Stable.onRequest env request []).1 = Ok r
         /\ status r = 500
         /\ body r = Some ("CDN Proxy Error: " +:+ message e).
Proof.
  destruct (stable_early env request) as (Ho & Hother & Hh).
  split.
  - destruct (decide (method request ∈ ["GET"; "HEAD"])) as [Hm|Hm].
    + destruct (decide (pathname (url request) ∈ ["/health"; "/"])) as [Hp|Hp].
      * rewrite (Hh Hm Hp). eexists. split; [reflexivity|]. apply stable_cors_text.
      * rewrite (stable_admitted env request Hm Hp).
        destruct (cache_match env _) as [[stored|]|e].
        -- eexists. split; [reflexivity|]. apply stable_cors_set.
        -- destruct (origin_fetch env 0 _) as [res|e].
           ++ cbv zeta.
              destruct (ok res), (body res); eexists; (split; [reflexivity|]);
                apply stable_cors_responseHeaders.
           ++ eexists. split; [reflexivity|]. apply stable_cors_text.
        -- eexists. split; [reflexivity|]. apply stable_cors_text.
    + destruct (decide (method request = "OPTIONS")) as [Hopt|Hopt].
      * rewrite (Ho Hopt). eexists. split; [reflexivity|].
        apply (stable_cors_set ∅).
      * rewrite Hother.
        -- eexists. split; [reflexivity|]. apply stable_cors_text.
        -- intros Hin. apply Hm.
           apply elem_of_cons in Hin as [->|Hin]; [by constructor|].
           apply elem_of_cons in Hin as [->|Hin]; [by repeat constructor|].
           by apply list_elem_of_singleton in Hin.
  - intros e Hm Hp Herr. rewrite (stable_admitted env request Hm Hp).
    destruct Herr as [->|[-> ->]]; eexists; repeat split.
Qed.

Lemma stable_always_cors_witness :
  exists r,
    (Stable.onRequest MoreSamples.broken_cache Samples.segment []).1 = Ok r
    /\ status r = 500
    /\ body r = Some "CDN Proxy Error: cache unavailable".
Proof.
  apply (proj2 (stable_always_cors MoreSamples.broken_cache Samples.segment)
           (mkError "cache unavailable")).
  - apply list_elem_of_here.
  - intros H. apply elem_of_cons in H as [H|H]; [discriminate H|].
    apply list_elem_of_singleton in H. discriminate H.
  - left. reflexivity.
Defined.

Lemma stable_fetch_events env request init :
  EvFetch init ∈ (Stable.onRequest env request []).2 ->
  init = Stable.originInit request.
Proof.
  destruct (stable_early env request) as (Ho & Hother & Hh).
  destruct (decide (method request ∈ ["GET"; "HEAD"])) as [Hm|Hm].
  - destruct (decide (pathname (url request) ∈ ["/health"; "/"])) as [Hp|Hp].
    { rewrite (Hh Hm Hp). cbn [snd]. intros H. by apply not_elem_of_nil in H. }
    rewrite (stable_admitted env request Hm Hp).
    destruct (cache_match env _) as [[stored|]|e]; cbn [snd];
      try (intros H; apply list_elem_of_singleton in H; discriminate).
    assert (Hpre : forall tr, (forall i, EvFetch i ∉ tr) ->
              EvFetch init ∈ EvCacheMatch (Stable.cacheKey request)
                :: EvFetch (Stable.originInit request) :: tr ->
              init = Stable.originInit request).
    { intros tr Htr H. apply elem_of_cons in H as [H|H]; [done|].
      apply elem_of_cons in H as [H|H]; [by inversion H|]. by apply Htr in H. }
    destruct (origin_fetch env 0 _) as [res|e]; cbn [snd];
      [|apply Hpre; intros i; apply not_elem_of_nil].
    cbv zeta. destruct (ok res), (body res); cbn [snd];
      try (apply Hpre; intros i; apply not_elem_of_nil).
    apply Hpre. intros i Hi. apply list_elem_of_singleton in Hi. discriminate.
  - destruct (decide (method request = "OPTIONS")) as [Hopt|Hopt].
    + rewrite (Ho Hopt). cbn [snd]. intros H. by apply not_elem_of_nil in H.
    + rewrite Hother.
      * cbn [snd]. intros H. by apply not_elem_of_nil in H.
      * intros Hin. apply Hm.
        apply elem_of_cons in Hin as [->|Hin]; [by constructor|].
        apply elem_of_cons in Hin as [->|Hin]; [by repeat constructor|].
        by apply list_elem_of_singleton in Hin.
Qed.

(** What the v2 handler sends to the origin: the client's path, query
    string and method, and of the client's headers only range, user-agent,
    accept and accept-encoding, each one only when present and not empty. *)
Theorem stable_forwards_allow_list (env : Env) (request : Request)
    (init : FetchInit) :
  EvFetch init ∈ (Stable.onRequest env request []).2 ->
  furl init = Stable.ORIGIN_URL +:+ pathname (url request) +:+ search (url request)
  /\ fmethod init = method request
  /\ forall name,
       fheaders init !! name =
       forwarded ["range"; "user-agent"; "accept"; "accept-encoding"]
         (headers request) name.
Proof.
  intros Hin. apply stable_fetch_events in Hin as ->.
  split; [done|]. split; [done|].
  intros name. cbn [fheaders Stable.originInit]. unfold Stable.originHeaders.
  rewrite allow_list_fold.
  - unfold Stable.allowedForwardHeaders. rewrite lookup_empty.
    by destruct (forwarded _ _ _).
  - unfold Stable.allowedForwardHeaders. by repeat constructor.
Qed.

Lemma stable_forwards_allow_list_witness :
  let init := Stable.originInit MoreSamples.head_range in
  fheaders init !! "range" = Some "bytes=0-99"
  /\ fheaders init !! "user-agent" = Some "player/1.0"
  /\ fheaders init !! "cookie" = None.
Proof.
  intros init.
  assert (Hin : EvFetch init
                ∈ (Stable.onRequest MoreSamples.partial_no_body
                     MoreSamples.head_range []).2).
  { vm_compute. apply list_elem_of_further, list_elem_of_here. }
  destruct (stable_forwards_allow_list MoreSamples.partial_no_body
              MoreSamples.head_range init Hin) as (_ & _ & Hh).
  repeat split; rewrite Hh; reflexivity.
Defined.

(** A miss of the v2 handler writes to the cache only a 200 with a body,
    under the request's key and with the headers the client got; a later hit
    on that entry serves the same status and body, with CF-Cache-Status
    turned from MISS to HIT and the CORS headers, after one cache lookup and
    no subrequest. *)
Theorem stable_store_then_hit (env env' : Env) (request : Request)
    (key : KeyRequest) (entry : Resp) :
  (key, entry) ∈ cache_puts (Stable.onRequest env request []).2 ->
  cache_match env' (Stable.cacheKey request) = Fulfilled (Some entry) ->
  exists client hit,
    key = Stable.cacheKey request
    /\ (Stable.onRequest env request []).1 = Ok client
    /\ status client = 200
    /\ rheaders entry = rheaders client
    /\ rheaders entry !! "cf-cache-status" = Some "MISS"
    /\ Stable.onRequest env' request [] = (Ok hit, [EvCacheMatch key])
    /\ status hit = 200
    /\ body hit = body client
    /\ rheaders hit !! "cf-cache-status" = Some "HIT"
    /\ carries Stable.corsHeaders (rheaders hit).
Proof.
  intros Hin Hhit.
  destruct (stable_early env request) as (Ho & Hother & Hh).
  destruct (decide (method request ∈ ["GET"; "HEAD"])) as [Hm|Hm].
  2:{ exfalso. destruct (decide (method request = "OPTIONS")) as [Hopt|Hopt].
      - rewrite (Ho Hopt) in Hin. by apply not_elem_of_nil in Hin.
      - rewrite Hother in Hin; [by apply not_elem_of_nil in Hin|].
        intros Hx. apply Hm.
        apply elem_of_cons in Hx as [->|Hx]; [by constructor|].
        apply elem_of_cons in Hx as [->|Hx]; [by repeat constructor|].
        by apply list_elem_of_singleton in Hx. }
  destruct (decide (pathname (url request) ∈ ["/health"; "/"])) as [Hp|Hp].
  { rewrite (Hh Hm Hp) in Hin. by apply not_elem_of_nil in Hin. }
  rewrite (stable_admitted env' request Hm Hp), Hhit.
  rewrite (stable_admitted env request Hm Hp) in Hin |- *.
  destruct (cache_match env _) as [[stored|]|e]; cbn [snd cache_puts] in Hin;
    try (by apply not_elem_of_nil in Hin).
  destruct (origin_fetch env 0 _) as [res|e]; cbn [snd cache_puts] in Hin;
    try (by apply not_elem_of_nil in Hin).
  cbv zeta in Hin |- *.
  destruct (ok res), (body res) as [b|]; cbn [snd cache_puts] in Hin;
    try (by apply not_elem_of_nil in Hin).
  rewrite app_nil_r in Hin.
  destruct (Nat.eqb_spec (status res) 200) as [Hst|Hst];
    [|by apply not_elem_of_nil in Hin].
  apply list_elem_of_singleton in Hin.
  apply (f_equal fst) in Hin as Hk. apply (f_equal snd) in Hin as He.
  cbn [fst snd] in Hk, He. subst key entry.
  eexists _, _. split; [reflexivity|]. split; [reflexivity|].
  split; [exact Hst|]. split; [reflexivity|]. split.
  { cbn [rheaders]. unfold Stable.responseHeaders. hsolve. }
  split; [reflexivity|]. split; [exact Hst|]. split; [reflexivity|]. split.
  { unfold Stable.hitResponse, Stable.corsHeaders. cbn [rheaders]. hsolve. }
  apply stable_cors_set.
Qed.

Lemma stable_store_then_hit_witness :
  exists hit,
    Stable.onRequest MoreSamples.warm_stable Samples.segment [] =
      (Ok hit, [EvCacheMatch (Stable.cacheKey Samples.segment)])
    /\ rheaders hit !! "cf-cache-status" = Some "HIT".
Proof.
  destruct (stable_store_then_hit Samples.fresh MoreSamples.warm_stable
              Samples.segment (Stable.cacheKey Samples.segment)
              MoreSamples.stored_stable)
    as (client & hit & _ & _ & _ & _ & _ & Hh & _ & _ & HH & _).
  - vm_compute. apply list_elem_of_here.
  - reflexivity.
  - exists hit. by split.
Defined.
(** ** src/examples/performance-test.js, lines 449-689 (coalescing) *)

Section CoalescingAccounting.
Import Coalescing.

Lemma filter_length_fmap {A B} (f : A -> B) (P : B -> bool) (l : list A) :
  length (filter (fun x => P (f x)) l) = length (filter (fun y => P y) (f <$> l)).
Proof.
  induction l as [|a l IH]; [done|].
  rewrite fmap_cons, !filter_cons.
  destruct (P (f a)); simpl; by rewrite IH.
Qed.

Lemma filter_length_split {A} (P U : A -> bool) (l : list A) :
  length (filter (fun x => P x) l) =
  length (filter (fun x => P x && negb (U x)) l)
  + length (filter (fun x => P x && U x) l).
Proof.
  induction l as [|a l IH]; [done|].
  rewrite !filter_cons.
  destruct (P a), (U a); simpl; lia.
Qed.

Lemma filter_none {A} (P : A -> bool) (l : list A) :
  (forall x, x ∈ l -> P x = false) -> filter (fun x => P x) l = [].
Proof.
  induction l as [|a l IH]; intros H; [done|].
  rewrite filter_cons.
  rewrite (H a) by constructor. simpl.
  apply IH. intros x Hx. apply H. by constructor.
Qed.

Lemma filter_one {A} (P : A -> bool) (l : list A) :
  forall p x,
    l !! p = Some x -> P x = true ->
    (forall i y, l !! i = Some y -> P y = true -> i = p) ->
    length (filter (fun x => P x) l) = 1.
Proof.
  induction l as [|a l IH]; intros p x Hp HP Hu; [done|].
  rewrite filter_cons. destruct p as [|p].
  - simpl in Hp. inversion Hp; subst a. rewrite HP. simpl.
    rewrite filter_none; [done|].
    intros y Hy. destruct (P y) eqn:E; [|done].
    apply list_elem_of_lookup in Hy as [j Hj].
    by specialize (Hu (S j) y Hj E).
  - assert (Ha : P a = false).
    { destruct (P a) eqn:E; [|done]. by specialize (Hu 0 a eq_refl E). }
    rewrite Ha. simpl. apply (IH p x); [done|done|].
    intros i y Hi Hy. specialize (Hu (S i) y Hi Hy). lia.
Qed.

(** The fetches for [k] that have not settled are the one the map holds, if
    it holds one. *)
Lemma in_flight_count k w :
  coherent w ->
  length (filter (fun pr => bool_decide (pkey pr = k) && unsettled pr)
                 (promises w)) = registered k w.
Proof.
  intros [Hreg _]. unfold registered.
  assert (Hone : forall i pr,
            promises w !! i = Some pr ->
            bool_decide (pkey pr = k) && unsettled pr = true ->
            inflightRequests w !! k = Some i).
  { intros i [k' s] Hi HP. apply andb_true_iff in HP as [Hk Hs].
    apply bool_decide_eq_true in Hk. simpl in Hk. subst k'.
    destruct s as [s|]; [done|]. by apply Hreg. }
  destruct (inflightRequests w !! k) as [p|] eqn:Hk.
  - apply (filter_one (fun pr => bool_decide (pkey pr = k) && unsettled pr)
             _ p (mkPromise k None)).
    + by apply Hreg.
    + simpl. by rewrite bool_decide_eq_true_2.
    + intros i y Hi Hy. specialize (Hone i y Hi Hy). congruence.
  - rewrite (filter_none (fun pr => bool_decide (pkey pr = k) && unsettled pr));
      [done|].
    intros y Hy. destruct (bool_decide (pkey y = k) && unsettled y) eqn:E; [|done].
    apply list_elem_of_lookup in Hy as [j Hj].
    by specialize (Hone j y Hj E).
Qed.

(** Every subrequest ever sent for a key has settled, except the one the
    in-flight map holds for the key, if it holds one: the origin is called
    once per in-flight window, and a later call for the same key is made
    only after the earlier ones have settled. *)
Theorem coalescing_fetch_accounting (w : World) (k : string) :
  reachable w ->
  calls_for k w = settled_for k w + registered k w.
Proof.
  intros Hr. pose proof (reachable_coherent w Hr) as Hc.
  rewrite <- (in_flight_count k w Hc). unfold settled_for, calls_for.
  destruct Hc as [_ Hlog].
  etrans;
    [exact (filter_length_fmap fst (fun k' => bool_decide (k' = k)) (origin_calls w))|].
  change (fst <$> origin_calls w) with ((origin_calls w).*1). rewrite Hlog.
  etrans;
    [symmetry;
     exact (filter_length_fmap pkey (fun k' => bool_decide (k' = k)) (promises w))|].
  apply (filter_length_split (fun pr => bool_decide (pkey pr = k)) unsettled).
Qed.

End CoalescingAccounting.

Lemma coalescing_fetch_accounting_witness :
  let k := Coalescing.cacheKeyString Samples.segment in
  let w := Coalescing.run Samples.two_arrived
             (Samples.late_miss (Fulfilled Samples.served)) in
  Coalescing.calls_for k w = 2
  /\ settled_for k w = 1
  /\ Coalescing.registered k w = 1.
Proof.
  intros k w.
  assert (Hr : Coalescing.reachable w).
  { exists ([Coalescing.Arrive Samples.segment; Coalescing.Arrive Samples.segment]
            ++ Samples.late_miss (Fulfilled Samples.served)).
    reflexivity. }
  pose proof (coalescing_fetch_accounting w k Hr) as H.
  assert (Hs : settled_for k w = 1) by reflexivity.
  assert (Hg : Coalescing.registered k w = 1) by reflexivity.
  split; [|by split]. rewrite H, Hs, Hg. reflexivity.
Defined.
Section CoalescingHandlers.
Import Coalescing.

Ltac run_piece :=
  unfold run_handler, try_catch, bind, onError, textResponse, forbidden,
    alloc_body, alloc, new_Response, clone, waitUntil_put, join, await,
    ret, throw.

Lemma passes_guards_conditions request :
  passes_guards request =
  negb (negb (String.eqb (method request) "GET")
        && negb (String.eqb (method request) "HEAD"))
  && negb (String.eqb (pathname (url request)) "/health"
           || String.eqb (pathname (url request)) "/")
  && negb (negb (endsWith (toLowerCase (pathname (url request))) ".jpg")
           && negb (endsWith (toLowerCase (pathname (url request))) ".jpeg"))
  && negb (negb (truthy (js_or (hget "referer" (headers request))
                               (hget "referrer" (headers request))))).
Proof.
  unfold passes_guards. cbv zeta.
  by destruct (String.eqb (method request) "GET"),
              (String.eqb (method request) "HEAD"),
              (endsWith (toLowerCase (pathname (url request))) ".jpg"),
              (endsWith (toLowerCase (pathname (url request))) ".jpeg"),
              (truthy (js_or (hget "referer" (headers request))
                             (hget "referrer" (headers request)))),
              (String.eqb (pathname (url request)) "/health"
               || String.eqb (pathname (url request)) "/").
Qed.

(** A text response reads as its text. *)
Lemma text_content w text st h tk :
  content (set_tasks tk (set_streams (streams w ++ [mkStream text false]) w))
          (text_response (fun _ => length (streams w)) text st h) = Some text.
Proof.
  unfold content. cbn [body text_response streams set_tasks set_streams].
  rewrite lookup_app_r by done. by rewrite Nat.sub_diag.
Qed.

(** A handler that answers with a text. *)
Lemma run_text text st h w :
  run_handler (r <- textResponse text st h ;; ret (Finished r)) w =
  (Finished (text_response (fun _ => length (streams w)) text st h),
   set_streams (streams w ++ [mkStream text false]) w).
Proof. reflexivity. Qed.

(** The first piece of the handler: a request that passes the guards waits
    for the cache, any other is answered at once. *)
Lemma arrive_spec w request :
  let w' := step w (Arrive request) in
  inflightRequests w' = inflightRequests w
  /\ promises w' = promises w
  /\ origin_calls w' = origin_calls w
  /\ background_puts w' = background_puts w
  /\ exists tk,
       tasks w' = tasks w ++ [tk]
       /\ if passes_guards request then tk = AwaitingCache request
          else exists r,
                 tk = Finished r
                 /\ (status r, content w' r) ∈
                    [(405, Some "Method not allowed"); (200, Some "x");
                     (403, Some "Forbidden")].
Proof.
  cbv zeta. cbn [step]. rewrite passes_guards_conditions.
  unfold start, forbidden. cbv zeta.
  destruct (negb (String.eqb (method request) "GET")
            && negb (String.eqb (method request) "HEAD")).
  { rewrite run_text. cbn [negb andb]. repeat (split; [reflexivity|]).
    eexists. split; [reflexivity|]. eexists. split; [reflexivity|].
    rewrite text_content. apply list_elem_of_here. }
  destruct (String.eqb (pathname (url request)) "/health"
            || String.eqb (pathname (url request)) "/").
  { rewrite run_text. cbn [negb andb]. repeat (split; [reflexivity|]).
    eexists. split; [reflexivity|]. eexists. split; [reflexivity|].
    rewrite text_content. apply list_elem_of_further, list_elem_of_here. }
  destruct (negb (endsWith (toLowerCase (pathname (url request))) ".jpg")
            && negb (endsWith (toLowerCase (pathname (url request))) ".jpeg")).
  { rewrite run_text. cbn [negb andb]. repeat (split; [reflexivity|]).
    eexists. split; [reflexivity|]. eexists. split; [reflexivity|].
    rewrite text_content.
    apply list_elem_of_further, list_elem_of_further, list_elem_of_here. }
  destruct (negb (truthy (js_or (hget "referer" (headers request))
                                (hget "referrer" (headers request))))).
  { rewrite run_text. cbn [negb andb]. repeat (split; [reflexivity|]).
    eexists. split; [reflexivity|]. eexists. split; [reflexivity|].
    rewrite text_content.
    apply list_elem_of_further, list_elem_of_further, list_elem_of_here. }
  cbn [negb andb]. repeat (split; [reflexivity|]).
  eexists. split; reflexivity.
Qed.

End CoalescingHandlers.

(** The guards of the coalescing variant: a request that passes them (GET
    or HEAD, not /health or /, a .jpg or .jpeg path, a referer) is left
    waiting for the cache; any other one is answered at once with 405
    Method not allowed, 200 x or 403 Forbidden.  Neither touches the
    in-flight map, the origin or the cache. *)
Theorem coalescing_guards (w : Coalescing.World) (request : Request) :
  let w' := Coalescing.step w (Coalescing.Arrive request) in
  Coalescing.inflightRequests w' = Coalescing.inflightRequests w
  /\ Coalescing.origin_calls w' = Coalescing.origin_calls w
  /\ Coalescing.background_puts w' = Coalescing.background_puts w
  /\ exists tk,
       Coalescing.tasks w' = Coalescing.tasks w ++ [tk]
       /\ if passes_guards request then tk = Coalescing.AwaitingCache request
          else exists r,
                 tk = Coalescing.Finished r
                 /\ (status r, Coalescing.content w' r) ∈
                    [(405, Some "Method not allowed"); (200, Some "x");
                     (403, Some "Forbidden")].
Proof.
  intros w'. destruct (arrive_spec w request) as (Hi & _ & Ho & Hp & Ht).
  by repeat split.
Qed.
Section CoalescingAnswers.
Import Coalescing.

Lemma resume_step w t now request p k s :
  tasks w !! t = Some (AwaitingInflight request p) ->
  promises w !! p = Some (mkPromise k (Some s)) ->
  step w (Resume t now) =
  (let '(tk, w') := run_handler (afterFetch request now s) w in
   set_tasks (<[t := tk]> (tasks w')) w').
Proof. intros Ht Hp. cbn [step]. by rewrite Ht, Hp. Qed.

(** The handler on an origin answer that is an error. *)
Lemma afterFetch_origin_error request now r w :
  negb (ok r) && negb (status r =? 206) && negb (status r =? 304) = true ->
  run_handler (afterFetch request now (Fulfilled r)) w =
  (Finished (text_response (fun _ => length (streams w))
               ("Origin Error: " +:+ pretty (status r)) (status r) errorHeaders),
   set_streams (streams w ++ [mkStream ("Origin Error: " +:+ pretty (status r))
                                false]) w).
Proof.
  intros Hc.
  change (run_handler (afterFetch request now (Fulfilled r)) w)
    with (run_handler
            (if negb (ok r) && negb (status r =? 206) && negb (status r =? 304)
             then r' <- textResponse ("Origin Error: " +:+ pretty (status r))
                          (status r) errorHeaders ;;
                  ret (Finished r')
             else
               newResponse <- new_Response (body r) (status r) (statusText r)
                                (responseHeaders now r) ;;
               if (status r =? 200) || (status r =? 206)
               then
                 both <- clone newResponse ;;
                 waitUntil_put (cacheKey request) both.2 ;;;
                 ret (Finished both.1)
               else ret (Finished newResponse)) w).
  rewrite Hc. apply run_text.
Qed.

End CoalescingAnswers.

(** An origin answer with an error status (3xx other than 304, 4xx, 5xx)
    reaches every handler that waits on the fetch, the first and the
    coalesced ones alike: each answers with the origin's status, the text
    "Origin Error: <status>" and X-Cache: ERROR, writes nothing to the
    cache and sends no subrequest.  The answer is a text of its own, so the
    shared origin body, the promises and the other handlers are left as they
    were. *)
Theorem coalescing_origin_error_delivered (w : Coalescing.World) (t p : nat)
    (request : Request) (k : string) (r : Coalescing.SResp)
    (now : Coalescing.Clock) :
  Coalescing.tasks w !! t = Some (Coalescing.AwaitingInflight request p) ->
  Coalescing.promises w !! p =
    Some (Coalescing.mkPromise k (Some (Fulfilled r))) ->
  300 <= status r <= 599 ->
  status r <> 304 ->
  let w' := Coalescing.step w (Coalescing.Resume t now) in
  (exists r',
     Coalescing.tasks w' !! t = Some (Coalescing.Finished r')
     /\ status r' = status r
     /\ Coalescing.content w' r' = Some ("Origin Error: " +:+ pretty (status r))
     /\ hget "X-Cache" (rheaders r') = Some "ERROR"
     /\ hget "Cache-Control" (rheaders r') = Some "no-store")
  /\ Coalescing.background_puts w' = Coalescing.background_puts w
  /\ Coalescing.origin_calls w' = Coalescing.origin_calls w
  /\ Coalescing.promises w' = Coalescing.promises w
  /\ Coalescing.streams w' =
     Coalescing.streams w
     ++ [Coalescing.mkStream ("Origin Error: " +:+ pretty (status r)) false]
  /\ forall t', t' <> t -> Coalescing.tasks w' !! t' = Coalescing.tasks w !! t'.
Proof.
  intros Ht Hp Hst H304 w'. subst w'.
  rewrite (resume_step w t now request p k (Fulfilled r) Ht Hp).
  rewrite afterFetch_origin_error.
  2:{ assert (Hok : ok r = false).
      { unfold ok. apply andb_false_iff. right. apply Nat.leb_gt. lia. }
      assert (H206 : (status r =? 206) = false) by (apply Nat.eqb_neq; lia).
      assert (H304' : (status r =? 304) = false) by (by apply Nat.eqb_neq).
      by rewrite Hok, H206, H304'. }
  split; [|split; [reflexivity|split; [reflexivity|split; [reflexivity|split;
          [reflexivity|]]]]].
  - eexists. split.
    { cbn [Coalescing.tasks Coalescing.set_tasks Coalescing.set_streams].
      apply list_lookup_insert_eq. by apply lookup_lt_Some in Ht. }
    split; [reflexivity|]. split; [apply text_content|].
    split; reflexivity.
  - intros t' Hne.
    cbn [Coalescing.tasks Coalescing.set_tasks Coalescing.set_streams].
    by rewrite list_lookup_insert_ne.
Qed.

Lemma coalescing_origin_error_delivered_witness :
  let w := MoreSamples.two_waiting MoreSamples.overloaded in
  let w1 := Coalescing.step w (Coalescing.Resume 0 Samples.noon) in
  let w2 := Coalescing.step w1 (Coalescing.Resume 1 Samples.noon) in
  exists r0 r1,
    Coalescing.tasks w2 !! 0 = Some (Coalescing.Finished r0)
    /\ Coalescing.tasks w2 !! 1 = Some (Coalescing.Finished r1)
    /\ status r0 = 503 /\ status r1 = 503
    /\ Coalescing.content w1 r0 = Some "Origin Error: 503"
    /\ Coalescing.content w2 r1 = Some "Origin Error: 503".
Proof.
  intros w w1 w2.
  set (o := {| status := 503; statusText := "";
               rheaders := headers_of [("Retry-After", "5")];
               body := Some 0 |} : Coalescing.SResp).
  set (k := Coalescing.cacheKeyString Samples.segment).
  assert (H0 : Coalescing.tasks w !! 0
               = Some (Coalescing.AwaitingInflight Samples.segment 0))
    by reflexivity.
  assert (Hp : Coalescing.promises w !! 0
               = Some (Coalescing.mkPromise k (Some (Fulfilled o))))
    by reflexivity.
  assert (Hst : 300 <= status o <= 599) by (cbn; lia).
  assert (Hne : status o <> 304) by (cbn; lia).
  destruct (coalescing_origin_error_delivered w 0 0 Samples.segment k o
              Samples.noon H0 Hp Hst Hne)
    as ((r0 & Ht0 & Hs0 & Hc0 & _) & _ & _ & Hpr & _ & Hother).
  fold w1 in Ht0, Hc0, Hpr, Hother.
  assert (H1 : Coalescing.tasks w1 !! 1
               = Some (Coalescing.AwaitingInflight Samples.segment 0)).
  { rewrite Hother by done. reflexivity. }
  assert (Hp1 : Coalescing.promises w1 !! 0
                = Some (Coalescing.mkPromise k (Some (Fulfilled o)))).
  { by rewrite Hpr. }
  destruct (coalescing_origin_error_delivered w1 1 0 Samples.segment k o
              Samples.noon H1 Hp1 Hst Hne)
    as ((r1 & Ht1 & Hs1 & Hc1 & _) & _ & _ & _ & _ & Hother1).
  fold w2 in Ht1, Hc1, Hother1.
  exists r0, r1. split; [by rewrite Hother1|]. split; [exact Ht1|].
  split; [exact Hs0|]. split; [exact Hs1|]. split; [exact Hc0|exact Hc1].
Defined.
Section CoalescingRequests.
Import Coalescing.

Ltac run_piece :=
  unfold run_handler, try_catch, bind, onError, textResponse, forbidden,
    alloc_body, alloc, new_Response, clone, waitUntil_put, join, await,
    ret, throw.

Ltac split_ifs :=
  repeat (match goal with
          | |- context [if ?b then _ else _] => destruct b
          | |- context [match ?o with Some _ => _ | None => _ end] => destruct o
          end; simpl; try done).

(** The last piece of the handler ends it. *)
Lemma afterFetch_result request now s w :
  match (run_handler (afterFetch request now s) w).1 with
  | Finished _ | Failed _ => True
  | _ => False
  end.
Proof.
  unfold afterFetch. run_piece. destruct s as [o|e]; simpl; [|done]. split_ifs.
Qed.

(** Only requests that passed the guards wait for the cache, and every
    subrequest was sent for such a request. *)
Lemma admitted_step w e :
  (forall t request, tasks w !! t = Some (AwaitingCache request) ->
     passes_guards request = true) ->
  (forall c, c ∈ origin_calls w ->
     exists request, passes_guards request = true
                     /\ c = (cacheKeyString request, originInit request)) ->
  (forall t request, tasks (step w e) !! t = Some (AwaitingCache request) ->
     passes_guards request = true)
  /\ (forall c, c ∈ origin_calls (step w e) ->
        exists request, passes_guards request = true
                        /\ c = (cacheKeyString request, originInit request)).
Proof.
  intros Hts Hcs. destruct e as [request|t ans|p out|t now].
  - destruct (arrive_spec w request) as (_ & _ & Ho & _ & tk & Ht & Htk).
    split; [|by rewrite Ho].
    intros t0 rq. rewrite Ht. intros H.
    apply lookup_app_Some in H as [H|[_ H]]; [by apply (Hts t0)|].
    destruct (t0 - length (tasks w)) as [|n]; [|done].
    simpl in H. inversion H; subst tk.
    destruct (passes_guards request) eqn:Hg.
    + by inversion Htk; subst.
    + by destruct Htk as (r & Hr & _).
  - cbn [step].
    destruct (tasks w !! t) as [[rq|rq p|r|th]|] eqn:Ht; try done.
    pose proof (afterCache_spec rq ans w) as (Hsame & H).
    destruct (run_handler (afterCache rq ans) w) as [tk w']. simpl in *.
    assert (Htk : match tk with AwaitingCache _ => False | _ => True end).
    { destruct H as [(_ & _ & _ & _ & H)|[(_ & p & _ & _ & _ & _ & ->)
                                         |(_ & _ & _ & _ & _ & ->)]];
        [by destruct tk|done|done]. }
    split.
    + intros t0 rq0. rewrite Hsame.
      destruct (decide (t0 = t)) as [->|Hne].
      * rewrite list_lookup_insert_eq by (by apply lookup_lt_Some in Ht).
        intros [= ->]. done.
      * rewrite list_lookup_insert_ne by done. apply Hts.
    + destruct H as [(_ & _ & _ & Ho & _)|[(_ & p & _ & _ & _ & Ho & _)
                                          |(_ & _ & _ & _ & Ho & _)]];
        rewrite Ho; [done|done|].
      intros c Hc. apply elem_of_app in Hc as [Hc|Hc]; [by apply Hcs|].
      apply list_elem_of_singleton in Hc as ->.
      exists rq. split; [by apply (Hts t)|done].
  - cbn [step]. destruct (settle_spec p out w) as (Ht & Ho & _).
    rewrite Ht, Ho. by split.
  - cbn [step].
    destruct (tasks w !! t) as [[rq|rq p|r|th]|] eqn:Ht; try done.
    destruct (promises w !! p) as [[k [s|]]|]; try done.
    pose proof (afterFetch_frame rq now s w) as (_ & _ & Ho & Hsame).
    pose proof (afterFetch_result rq now s w) as Htk.
    destruct (run_handler (afterFetch rq now s) w) as [tk w']. simpl in *.
    split; [|by rewrite Ho].
    intros t0 rq0. rewrite Hsame.
    destruct (decide (t0 = t)) as [->|Hne].
    + rewrite list_lookup_insert_eq by (by apply lookup_lt_Some in Ht).
      intros [= ->]. done.
    + rewrite list_lookup_insert_ne by done. apply Hts.
Qed.

Lemma admitted_run es :
  forall w,
    (forall t request, tasks w !! t = Some (AwaitingCache request) ->
       passes_guards request = true) ->
    (forall c, c ∈ origin_calls w ->
       exists request, passes_guards request = true
                       /\ c = (cacheKeyString request, originInit request)) ->
    forall c, c ∈ origin_calls (run w es) ->
      exists request, passes_guards request = true
                      /\ c = (cacheKeyString request, originInit request).
Proof.
  induction es as [|e es IH]; intros w Hts Hcs; [done|].
  destruct (admitted_step w e Hts Hcs) as [Hts' Hcs'].
  simpl. by apply IH.
Qed.

(** The headers of a subrequest: Range and the five listed ones, each only
    when the client sent it with a value. *)
Lemma originHeaders_spec request name :
  originHeaders request !! name =
  forwarded ["range"; "accept"; "accept-encoding"; "user-agent";
             "if-none-match"; "if-modified-since"] (headers request) name.
Proof.
  unfold originHeaders. cbv zeta. rewrite allow_list_fold.
  2:{ unfold headersToProxy. by repeat constructor. }
  unfold headersToProxy, rangeHeader, hget, hset. lower_names.
  destruct (decide (name = "range")) as [->|Hne].
  - assert (Hno : forwarded ["accept"; "accept-encoding"; "user-agent";
                             "if-none-match"; "if-modified-since"]
                    (headers request) "range" = None).
    { unfold forwarded.
      rewrite (bool_decide_eq_false_2 (_ ∈ _)); [done|].
      intros H. repeat (apply elem_of_cons in H as [H|H]; [done|]).
      by apply not_elem_of_nil in H. }
    rewrite Hno. unfold forwarded.
    rewrite (bool_decide_eq_true_2 (_ ∈ _)) by constructor. cbn [andb].
    destruct (headers request !! "range") as [v|]; cbn [truthy default];
      [|apply lookup_empty].
    destruct (negb (String.eqb v "")); [apply lookup_insert_eq|apply lookup_empty].
  - assert (Hin : bool_decide (name ∈ ["range"; "accept"; "accept-encoding";
                                      "user-agent"; "if-none-match";
                                      "if-modified-since"])
                  = bool_decide (name ∈ ["accept"; "accept-encoding";
                                         "user-agent"; "if-none-match";
                                         "if-modified-since"])).
    { apply bool_decide_ext. rewrite elem_of_cons.
      split; [intros [?|?]; [congruence|done]|by right]. }
    unfold forwarded. rewrite Hin.
    destruct (bool_decide _ && truthy (headers request !! name)) eqn:Hb.
    + apply andb_true_iff in Hb as [_ Hb].
      destruct (headers request !! name); [done|discriminate Hb].
    + destruct (truthy (headers request !! "range"));
        [by rewrite lookup_insert_ne|apply lookup_empty].
Qed.

End CoalescingRequests.

(** Every subrequest the coalescing variant has ever sent was sent for a
    request that passed the guards, under that request's in-flight key: it
    goes to the origin with the client's path, query string and method, and
    carries of the client's headers only Range, Accept, Accept-Encoding,
    User-Agent, If-None-Match and If-Modified-Since, each one only when the
    client sent it with a value (so no Referer, Cookie or Authorization
    reaches the origin). *)
Theorem coalescing_origin_requests (w : Coalescing.World) (k : string)
    (init : FetchInit) :
  Coalescing.reachable w ->
  (k, init) ∈ Coalescing.origin_calls w ->
  exists request,
    passes_guards request = true
    /\ k = Coalescing.cacheKeyString request
    /\ furl init = Coalescing.ORIGIN_URL +:+ pathname (url request)
                   +:+ search (url request)
    /\ fmethod init = method request
    /\ forall name,
         fheaders init !! name =
         forwarded ["range"; "accept"; "accept-encoding"; "user-agent";
                    "if-none-match"; "if-modified-since"]
           (headers request) name.
Proof.
  intros [es ->] Hin.
  destruct (admitted_run es Coalescing.initial) with (c := (k, init))
    as (request & Hg & Hc).
  { intros t rq H. cbn in H. by rewrite lookup_nil in H. }
  { intros c H. cbn in H. by apply not_elem_of_nil in H. }
  { exact Hin. }
  inversion Hc; subst k init. exists request.
  split; [done|]. split; [done|]. split; [done|]. split; [done|].
  intros name. apply originHeaders_spec.
Qed.

Lemma coalescing_origin_requests_witness :
  let w := Coalescing.run Samples.three_arrived Samples.three_misses in
  exists request,
    passes_guards request = true
    /\ Coalescing.cacheKeyString Samples.segment = Coalescing.cacheKeyString request
    /\ forall name,
         fheaders (Coalescing.originInit Samples.segment) !! name =
         forwarded ["range"; "accept"; "accept-encoding"; "user-agent";
                    "if-none-match"; "if-modified-since"]
           (headers request) name.
Proof.
  intros w.
  assert (Hr : Coalescing.reachable w).
  { exists ([Coalescing.Arrive Samples.segment; Coalescing.Arrive Samples.segment;
             Coalescing.Arrive Samples.segment] ++ Samples.three_misses).
    reflexivity. }
  assert (Hin : (Coalescing.cacheKeyString Samples.segment,
                 Coalescing.originInit Samples.segment)
                ∈ Coalescing.origin_calls w).
  { apply list_elem_of_here. }
  destruct (coalescing_origin_requests w _ _ Hr Hin)
    as (request & Hg & Hk & _ & _ & Hh).
  exists request. by repeat split.
Defined.
(** A lookup goes into the branches of a conditional. *)
Lemma lookup_if (b : bool) (h1 h2 : Headers) (name : string) :
  (if b then h1 else h2) !! name = if b then h1 !! name else h2 !! name.
Proof. by destruct b. Qed.

Lemma if_same {A} (b : bool) (x : A) : (if b then x else x) = x.
Proof. by destruct b. Qed.

(** Takes a lookup through a stack of conditional [hset]s. *)
Ltac hpush :=
  unfold hset; lower_names;
  repeat first [rewrite lookup_insert_eq
               |rewrite lookup_insert_ne by done
               |rewrite lookup_empty
               |rewrite lookup_if];
  rewrite ?if_same.

(** Decides what is left by cases on the origin's headers. *)
Ltac hcases :=
  repeat match goal with
         | |- context [rheaders ?o !! ?n] =>
             destruct (rheaders o !! n); cbn [truthy default]
         | |- context [if ?b then _ else _] => destruct b
         end;
  reflexivity.

(** The headers the coalescing variant gives a response built from the
    origin's are made from nothing: of the origin's headers only
    Content-Length and Content-Range come through, and ETag and
    Last-Modified on a 200 or 206, where a missing one is made from the
    clock; the CORS headers, Accept-Ranges, Content-Type: image/jpeg and
    CF-Cache-Status: MISS are always set, Cache-Control only on a 200 or
    206; no other header of the origin (Set-Cookie, Server, Via, ...)
    reaches the client. *)
Theorem coalescing_responseHeaders (now : Coalescing.Clock)
    (o : Coalescing.SResp) :
  let h := Coalescing.responseHeaders now o in
  let fresh := (status o =? 200) || (status o =? 206) in
  carries [("Access-Control-Allow-Origin", "*");
           ("Access-Control-Allow-Methods", "GET, HEAD, OPTIONS");
           ("Access-Control-Max-Age", "86400");
           ("Accept-Ranges", "bytes");
           ("Content-Type", "image/jpeg");
           ("CF-Cache-Status", "MISS")] h
  /\ (forall name, name ∈ ["content-length"; "content-range"] ->
        h !! name =
        forwarded ["content-length"; "content-range"] (rheaders o) name)
  /\ h !! "cache-control" =
     (if fresh then Some "public, max-age=300, s-maxage=3600" else None)
  /\ h !! "etag" =
     (if fresh
      then Some (default (dquote +:+ pretty (Coalescing.now_ms now) +:+ dquote)
                   (forwarded ["etag"] (rheaders o) "etag"))
      else None)
  /\ h !! "last-modified" =
     (if fresh
      then Some (default (Coalescing.now_utc now)
                   (forwarded ["last-modified"] (rheaders o) "last-modified"))
      else None)
  /\ forall name,
       name ∉ ["content-length"; "content-range"; "cache-control"; "etag";
               "last-modified"; "access-control-allow-origin";
               "access-control-allow-methods"; "access-control-max-age";
               "accept-ranges"; "content-type"; "cf-cache-status"] ->
       h !! name = None.
Proof.
  intros h fresh. subst h fresh.
  assert (Hcc : "public, max-age=" +:+ pretty Coalescing.CACHE_DURATION_browser
                +:+ ", s-maxage=3600" = "public, max-age=300, s-maxage=3600")
    by (vm_compute; reflexivity).
  unfold Coalescing.responseHeaders. cbv zeta. rewrite Hcc. clear Hcc.
  unfold forwarded, hget. lower_names.
  split; [|split; [|split; [|split; [|split]]]].
  - intros name value Hin.
    repeat (apply elem_of_cons in Hin as [Hin|Hin];
            [inversion Hin; subst; clear Hin; unfold hget; hpush; reflexivity|]).
    by apply not_elem_of_nil in Hin.
  - intros name Hin.
    apply elem_of_cons in Hin as [->|Hin];
      [|apply list_elem_of_singleton in Hin as ->];
      rewrite (bool_decide_eq_true_2 (_ ∈ _)) by (repeat constructor);
      cbn [andb]; hpush; hcases.
  - hpush. reflexivity.
  - rewrite (bool_decide_eq_true_2 (_ ∈ _)) by (repeat constructor).
    cbn [andb]. hpush. hcases.
  - rewrite (bool_decide_eq_true_2 (_ ∈ _)) by (repeat constructor).
    cbn [andb]. hpush. hcases.
  - intros name Hn. repeat (apply not_elem_of_cons in Hn as [? Hn]).
    hpush. reflexivity.
Qed.
Section CoalescingRoundTrip.
Import Coalescing.

Ltac run_piece :=
  unfold run_handler, try_catch, bind, onError, textResponse, forbidden,
    alloc_body, alloc, new_Response, clone, waitUntil_put, join, await,
    ret, throw.

(** The handler that resumes first on a 200 or 206: the origin body is
    still unread, and a response without a body has nothing to lock. *)
Lemma afterFetch_first request now o w :
  status o = 200 \/ status o = 206 ->
  (forall s, body o = Some s ->
     exists text, streams w !! s = Some (mkStream text false)) ->
  exists r copy w',
    run_handler (afterFetch request now (Fulfilled o)) w = (Finished r, w')
    /\ background_puts w' = background_puts w ++ [(cacheKey request, copy)]
    /\ tasks w' = tasks w
    /\ origin_calls w' = origin_calls w
    /\ status r = status o /\ status copy = status o
    /\ rheaders r = responseHeaders now o /\ rheaders copy = responseHeaders now o
    /\ statusText copy = statusText o
    /\ content w' r = content w o /\ content w' copy = content w o.
Proof.
  intros Hst Hbody.
  assert (Hc : negb (ok o) && negb (status o =? 206) && negb (status o =? 304)
               = false).
  { unfold ok. by destruct Hst as [-> | ->]. }
  assert (Hf : (status o =? 200) || (status o =? 206) = true).
  { by destruct Hst as [-> | ->]. }
  change (run_handler (afterFetch request now (Fulfilled o)) w)
    with (run_handler
            (if negb (ok o) && negb (status o =? 206) && negb (status o =? 304)
             then r' <- textResponse ("Origin Error: " +:+ pretty (status o))
                          (status o) errorHeaders ;;
                  ret (Finished r')
             else
               newResponse <- new_Response (body o) (status o) (statusText o)
                                (responseHeaders now o) ;;
               if (status o =? 200) || (status o =? 206)
               then
                 both <- clone newResponse ;;
                 waitUntil_put (cacheKey request) both.2 ;;;
                 ret (Finished both.1)
               else ret (Finished newResponse)) w).
  rewrite Hc, Hf. set (h := responseHeaders now o).
  unfold content. destruct (body o) as [s|] eqn:Hb.
  - destruct (Hbody s eq_refl) as [text Hs]. run_piece.
    rewrite Hs. cbn [locked body]. rewrite Hs. cbn [locked data fst snd].
    eexists _, _, _. split; [reflexivity|].
    cbn [background_puts tasks origin_calls status rheaders statusText body
         streams set_streams].
    repeat (split; [reflexivity|]).
    assert (Hlen : s < length (streams w)) by (by apply lookup_lt_Some in Hs).
    split; cbn [body].
    + rewrite lookup_app_r by (by rewrite length_insert).
      rewrite length_insert, Nat.sub_diag. reflexivity.
    + rewrite lookup_app_r by (rewrite length_insert; lia).
      rewrite length_insert.
      replace (S (length (streams w)) - length (streams w)) with 1 by lia.
      reflexivity.
  - run_piece. cbn [body fst snd].
    eexists _, _, _. split; [reflexivity|].
    cbn [background_puts tasks origin_calls status rheaders statusText body].
    by repeat split.
Qed.

(** A cache hit: the entry is served with CF-Cache-Status: HIT. *)
Lemma hit_step w t request stored :
  tasks w !! t = Some (AwaitingCache request) ->
  let w' := step w (CacheAnswers t (Fulfilled (Some stored))) in
  exists hit,
    tasks w' !! t = Some (Finished hit)
    /\ status hit = status stored
    /\ content w' hit = body stored
    /\ rheaders hit = hset "CF-Cache-Status" "HIT" (rheaders stored)
    /\ origin_calls w' = origin_calls w
    /\ inflightRequests w' = inflightRequests w
    /\ background_puts w' = background_puts w.
Proof.
  intros Ht. cbv zeta. cbn [step]. rewrite Ht.
  assert (Hlt : t < length (tasks w)) by (by apply lookup_lt_Some in Ht).
  unfold afterCache, content. run_piece. unfold bind, ret.
  destruct (body stored) as [text|] eqn:Hb.
  - cbn [fst snd streams set_streams].
    rewrite lookup_app_r by done. rewrite Nat.sub_diag.
    cbn [lookup list_lookup locked fst snd tasks set_tasks set_streams body
         streams status rheaders origin_calls inflightRequests background_puts].
    eexists. split; [by apply list_lookup_insert_eq|].
    cbn [status body rheaders].
    split; [reflexivity|]. split.
    { rewrite lookup_app_r by done. by rewrite Nat.sub_diag. }
    by repeat split.
  - cbn [fst snd tasks set_tasks body streams status rheaders origin_calls
         inflightRequests background_puts].
    eexists. split; [by apply list_lookup_insert_eq|].
    by repeat split.
Qed.

End CoalescingRoundTrip.

(** The handler of the coalescing variant that resumes first on a 200 or
    206 answers the client with the origin's status and body and the clean
    headers, and hands to cache.put, under the request's cache key, a copy
    with the same status, headers and body, without a new subrequest.  When
    the cache later returns that entry, the handler that asked serves its
    status and body with CF-Cache-Status turned from MISS to HIT and every
    other header as stored, and neither calls the origin nor touches the
    in-flight map or the cache. *)
Theorem coalescing_store_then_hit (w : Coalescing.World) (t p : nat)
    (request : Request) (k : string) (o : Coalescing.SResp)
    (now : Coalescing.Clock) :
  Coalescing.tasks w !! t = Some (Coalescing.AwaitingInflight request p) ->
  Coalescing.promises w !! p =
    Some (Coalescing.mkPromise k (Some (Fulfilled o))) ->
  status o = 200 \/ status o = 206 ->
  (forall s, body o = Some s ->
     exists text,
       Coalescing.streams w !! s = Some (Coalescing.mkStream text false)) ->
  let w1 := Coalescing.step w (Coalescing.Resume t now) in
  exists r copy,
    Coalescing.tasks w1 !! t = Some (Coalescing.Finished r)
    /\ Coalescing.background_puts w1 =
       Coalescing.background_puts w ++ [(Coalescing.cacheKey request, copy)]
    /\ Coalescing.origin_calls w1 = Coalescing.origin_calls w
    /\ status r = status o
    /\ Coalescing.content w1 r = Coalescing.content w o
    /\ rheaders r !! "cf-cache-status" = Some "MISS"
    /\ status copy = status r
    /\ rheaders copy = rheaders r
    /\ Coalescing.content w1 copy = Coalescing.content w1 r
    /\ forall w2 t2 request2,
         Coalescing.tasks w2 !! t2 = Some (Coalescing.AwaitingCache request2) ->
         let stored := {| status := status copy;
                          statusText := statusText copy;
                          rheaders := rheaders copy;
                          body := Coalescing.content w1 copy |} in
         let w3 := Coalescing.step w2
                     (Coalescing.CacheAnswers t2 (Fulfilled (Some stored))) in
         exists hit,
           Coalescing.tasks w3 !! t2 = Some (Coalescing.Finished hit)
           /\ status hit = status r
           /\ Coalescing.content w3 hit = Coalescing.content w1 r
           /\ rheaders hit !! "cf-cache-status" = Some "HIT"
           /\ (forall name, name <> "cf-cache-status" ->
                 rheaders hit !! name = rheaders r !! name)
           /\ Coalescing.origin_calls w3 = Coalescing.origin_calls w2
           /\ Coalescing.inflightRequests w3 = Coalescing.inflightRequests w2
           /\ Coalescing.background_puts w3 = Coalescing.background_puts w2.
Proof.
  intros Ht Hp Hst Hbody w1. subst w1.
  rewrite (resume_step w t now request p k (Fulfilled o) Ht Hp).
  destruct (afterFetch_first request now o w Hst Hbody)
    as (r & copy & w' & Hrun & Hputs & Hts & Hcalls & Hr & Hcopy & Hhr & Hhc
        & Hstx & Hcr & Hcc).
  rewrite Hrun.
  assert (Hcontent : forall x,
            Coalescing.content
              (Coalescing.set_tasks
                 (<[t := Coalescing.Finished r]> (Coalescing.tasks w')) w') x
            = Coalescing.content w' x) by reflexivity.
  exists r, copy.
  split.
  { cbn [Coalescing.tasks Coalescing.set_tasks]. apply list_lookup_insert_eq.
    rewrite Hts. by apply lookup_lt_Some in Ht. }
  split; [exact Hputs|]. split; [exact Hcalls|]. split; [exact Hr|].
  split; [by rewrite Hcontent|]. split.
  { rewrite Hhr. unfold Coalescing.responseHeaders. cbv zeta.
    unfold hset at 1. lower_names. apply lookup_insert_eq. }
  split; [congruence|]. split; [congruence|].
  split; [rewrite !Hcontent; congruence|].
  intros w2 t2 request2 Ht2 stored w3. subst w3.
  destruct (hit_step w2 t2 request2 stored Ht2)
    as (hit & Hh & Hhs & Hhb & Hhh & Hho & Hhi & Hhp).
  exists hit. split; [exact Hh|]. split; [subst stored; cbn in Hhs; congruence|].
  split; [rewrite Hhb; subst stored; cbn [body]; rewrite !Hcontent; congruence|].
  split.
  { rewrite Hhh. unfold hset. lower_names. apply lookup_insert_eq. }
  split.
  { intros name Hne. rewrite Hhh. unfold hset. lower_names.
    rewrite lookup_insert_ne by done. subst stored. cbn [rheaders]. congruence. }
  by repeat split.
Qed.

Lemma coalescing_store_then_hit_witness :
  let w := MoreSamples.two_waiting (Fulfilled Samples.served) in
  let w1 := Coalescing.step w (Coalescing.Resume 0 Samples.noon) in
  exists r copy,
    Coalescing.tasks w1 !! 0 = Some (Coalescing.Finished r)
    /\ status r = 200
    /\ Coalescing.content w1 r = Some "bytes"
    /\ Coalescing.background_puts w1 =
       [(Coalescing.cacheKey Samples.segment, copy)]
    /\ Coalescing.content w1 copy = Some "bytes".
Proof.
  intros w w1.
  set (o := {| status := 200; statusText := "";
               rheaders := headers_of [("Content-Length", "5");
                                       ("Server", "nginx")];
               body := Some 0 |} : Coalescing.SResp).
  set (k := Coalescing.cacheKeyString Samples.segment).
  assert (H0 : Coalescing.tasks w !! 0
               = Some (Coalescing.AwaitingInflight Samples.segment 0))
    by reflexivity.
  assert (Hp : Coalescing.promises w !! 0
               = Some (Coalescing.mkPromise k (Some (Fulfilled o))))
    by reflexivity.
  assert (Hst : status o = 200 \/ status o = 206) by (by left).
  assert (Hb : forall s, body o = Some s ->
             exists text,
               Coalescing.streams w !! s = Some (Coalescing.mkStream text false)).
  { intros s [= <-]. by exists "bytes". }
  destruct (coalescing_store_then_hit w 0 0 Samples.segment k o Samples.noon
              H0 Hp Hst Hb)
    as (r & copy & Ht & Hputs & _ & Hs & Hc & _ & _ & _ & Hcc & _).
  fold w1 in Ht, Hputs, Hc, Hcc.
  exists r, copy. split; [exact Ht|]. split; [exact Hs|].
  split; [rewrite Hc; reflexivity|]. split; [exact Hputs|].
  rewrite Hcc, Hc. reflexivity.
Defined.
(** ** src/examples/performance-test.js, lines 1-286 (the test script) *)

Section PerformanceCounts.
Import PerformanceTest.
Variable net : nat -> string -> Settled Measured.








End PerformanceCounts.


(** On a network that drops every second request, a run that starts with
    request 0 reports 25 successes, all of them hits, and 25 failures. *)
Example performanceTest_lossy :
  let out := PerformanceTest.runTest MoreSamples.lossy
               (PerformanceTest.noResults, 0) in
  PerformanceTest.success out.1 = 25
  /\ PerformanceTest.failed out.1 = 25
  /\ PerformanceTest.cacheHit out.1 = 25
  /\ PerformanceTest.cacheMiss out.1 = 0
  /\ PerformanceTest.totalTime out.1 = 300.
Proof. vm_compute. by repeat split. Qed.
